(** * IMAP COPY (helpers/imap/on-copy.js): a shallow embedding

    The handler [onCopy] is embedded as an executable function over an
    explicit account database, the handler's local variables, and a trace
    of the calls it makes to its collaborators.  Collaborators that live
    outside the handler (quota check, lock helper, id generator, clock,
    notifier, storage faults) are oracles gathered in one record [Env], so
    every theorem holds for every behaviour of theirs. *)

From Stdlib Require Import ZArith List String Ascii Bool Lia Arith Permutation.
Import ListNotations.
Local Open Scope Z_scope.
Local Open Scope string_scope.
Local Open Scope list_scope.

(** ** Values and rows *)

(** A JavaScript value as far as [typeof x === 'number'] and [x === s]
    can tell them apart. *)
Inductive JsValue : Type :=
| JsUndefined
| JsNull
| JsNumber (n : Z)
| JsString (s : string).

Definition typeof_number (v : JsValue) : bool :=
  match v with JsNumber _ => true | _ => false end.

(** [v === s] for a string literal [s]. *)
Definition strict_eq_string (v : JsValue) (s : string) : bool :=
  match v with JsString t => String.eqb t s | _ => false end.

(** The parsed MIME tree of a message: a node may carry an attachment
    hash and has child nodes. *)
#[warnings="-register-all"]
Inductive MimeNode : Type :=
| Mime (attachmentId : option string) (childNodes : list MimeNode).

(** Errors carry a message and, for an [IMAPError], a response code. *)
Record Error : Type := mkError {
  message : string;
  imapResponse : option string
}.

Definition IMAPError (msg code : string) : Error :=
  {| message := msg; imapResponse := Some code |}.

Module Messages.
Record row : Type := mk {
  _id : string;
  mailbox : string;
  uid : Z;
  exp : Z;
  rdate : Z;
  modseq : Z;
  junk : bool;
  remoteAddress : string;
  transaction : string;
  copied : bool;
  mimeTree : MimeNode;
  magic : Z;
  size : Z
}.
End Messages.

Module Mailboxes.
Record row : Type := mk {
  _id : string;
  path : string;
  uidNext : Z;
  uidValidity : Z;
  modifyIndex : Z;
  retention : JsValue;
  specialUse : JsValue
}.

Definition set_uidNext (u : Z) (b : row) : row :=
  mk (_id b) (path b) u (uidValidity b) (modifyIndex b)
     (retention b) (specialUse b).
End Mailboxes.

Module Attachments.
Record row : Type := mk {
  hash : string;
  counter : Z;
  magic : Z;
  counterUpdated : Z
}.
End Attachments.

(** The account database: the three tables the handler touches. *)
Record Db : Type := mkDb {
  tMessages : list Messages.row;
  tAttachments : list Attachments.row;
  tMailboxes : list Mailboxes.row
}.

(** Modelled from the spec: [Mailboxes.findOne] (models/mailboxes, not part
    of the handler) resolves a mailbox by identifier or by path; it yields
    the first row that matches, or nothing. *)
Definition findOne (p : Mailboxes.row -> bool) (d : Db) : option Mailboxes.row :=
  find p (tMailboxes d).

Definition by_id (id : string) (b : Mailboxes.row) : bool :=
  String.eqb (Mailboxes._id b) id.

Definition by_path (p : string) (b : Mailboxes.row) : bool :=
  String.eqb (Mailboxes.path b) p.

(** ** Requests, results, notifier entries *)

Record Update : Type := mkUpdate {
  destination : string;
  messages : list Z
}.

Record User : Type := mkUser {
  alias_id : string;
  domain_id : string;
  locale : string;
  username : string
}.

Record Session : Type := mkSession {
  id : string;
  user : User;
  sessionRemoteAddress : string
}.

Record Response : Type := mkResponse {
  respUidValidity : Z;
  respSourceUid : list Z;
  respDestinationUid : list Z
}.

(** What the callback [fn] is called with. *)
Inductive FnArgs : Type :=
| FnResponse (ok : bool) (r : Response)   (* fn(null, bool, response) *)
| FnCode (code : string)                  (* fn(null, err.imapResponse) *)
| FnError (e : Error).                    (* fn(err) *)

Record Entry : Type := mkEntry {
  command : string;
  entryUid : Z;
  entryMailbox : string;
  entryMessage : string
}.

Record Lock : Type := mkLock { success : bool }.

(** The uid condition built by [tools.checkRangeQuery]. *)
Inductive UidQuery : Type :=
| QEq (u : Z)
| QIn (us : list Z)
| QRange (gte lte : Z).

Definition matchesUid (q : UidQuery) (u : Z) : bool :=
  match q with
  | QEq v => Z.eqb u v
  | QIn vs => existsb (Z.eqb u) vs
  | QRange lo hi => Z.leb lo u && Z.leb u hi
  end.

Record Condition : Type := mkCondition {
  condMailbox : string;
  condUid : option UidQuery
}.

(** ** SQL statements run inside the transaction *)

Inductive Statement : Type :=
| InsertMessage (m : Messages.row)
| IncAttachments (hashes : list string) (magicDelta : Z) (stamp : Z)
| SetCopied (ids : list string)
| SetUidNext (mailboxId : string) (u : Z).

Definition mem_string (s : string) (l : list string) : bool :=
  existsb (String.eqb s) l.

(** [UPDATE Attachments SET counter = counter + 1, magic = magic + ?,
    counterUpdated = ? WHERE hash IN (...)]: a row is updated once when its
    hash is listed, however often it is listed. *)
Definition incAttachment (hashes : list string) (mg stamp : Z)
    (a : Attachments.row) : Attachments.row :=
  if mem_string (Attachments.hash a) hashes
  then Attachments.mk (Attachments.hash a) (Attachments.counter a + 1)
                      (Attachments.magic a + mg) stamp
  else a.

Definition markCopied (ids : list string) (m : Messages.row) : Messages.row :=
  if mem_string (Messages._id m) ids
  then Messages.mk (Messages._id m) (Messages.mailbox m) (Messages.uid m)
         (Messages.exp m) (Messages.rdate m) (Messages.modseq m)
         (Messages.junk m) (Messages.remoteAddress m)
         (Messages.transaction m) true (Messages.mimeTree m)
         (Messages.magic m) (Messages.size m)
  else m.

Definition setUidNext (mailboxId : string) (u : Z)
    (b : Mailboxes.row) : Mailboxes.row :=
  if String.eqb (Mailboxes._id b) mailboxId
  then Mailboxes.set_uidNext u b
  else b.

Definition exec (st : Statement) (d : Db) : Db :=
  match st with
  | InsertMessage m =>
      mkDb (tMessages d ++ [m]) (tAttachments d) (tMailboxes d)
  | IncAttachments hs mg stamp =>
      mkDb (tMessages d) (map (incAttachment hs mg stamp) (tAttachments d))
           (tMailboxes d)
  | SetCopied ids =>
      mkDb (map (markCopied ids) (tMessages d)) (tAttachments d)
           (tMailboxes d)
  | SetUidNext mb u =>
      mkDb (tMessages d) (tAttachments d) (map (setUidNext mb u) (tMailboxes d))
  end.

(** [SELECT * FROM Messages WHERE mailbox = ? [AND uid ...] ORDER BY uid]. *)
Fixpoint insertByUid (m : Messages.row) (l : list Messages.row)
    : list Messages.row :=
  match l with
  | [] => [m]
  | x :: rest =>
      if Z.leb (Messages.uid m) (Messages.uid x) then m :: l
      else x :: insertByUid m rest
  end.

Definition sortByUid (l : list Messages.row) : list Messages.row :=
  fold_right insertByUid [] l.

Definition matchesCondition (c : Condition) (m : Messages.row) : bool :=
  String.eqb (Messages.mailbox m) (condMailbox c)
  && match condUid c with
     | Some q => matchesUid q (Messages.uid m)
     | None => true
     end.

Definition selectMessages (c : Condition) (d : Db) : list Messages.row :=
  sortByUid (filter (matchesCondition c) (tMessages d)).

(** ** Trace of collaborator calls *)

Inductive Event : Type :=
| EvWspRequest
| EvRefreshSession
| EvIsOverQuota (deltaBytes : Z)
| EvQuotaRecheck (deltaBytes : Z)
| EvAcquireLock
| EvSelect (c : Condition)
| EvBegin
| EvRun (st : Statement)
| EvCommit
| EvRollback
| EvReleaseLock
| EvFatal (e : Error)
| EvCheckpoint
| EvUpdateStorageUsed
| EvAddEntries (es : list Entry)
| EvFire
| EvCallback (a : FnArgs).

(** ** Environment: the behaviour of everything outside the handler *)

Record Env : Type := mkEnv {
  (* [this.wsp]: when set, the reply (or failure) of the remote request *)
  env_wsp : option (Error + bool * Response);
  env_refreshSession : option Error;
  env_isOverQuota : Z -> Error + bool;
  env_acquireLock : Error + Lock;
  env_releaseLock : option Error;
  env_select : option Error;
  env_begin : option Error;
  (* fault of the k-th statement run inside the transaction *)
  env_sqlFault : nat -> option Error;
  env_commit : option Error;
  (* [new mongoose.Types.ObjectId()] for the i-th row *)
  env_ObjectId : nat -> string;
  (* [Date.now()] and [new Date()] while the i-th row is processed *)
  env_DateNow : nat -> Z;
  env_newDate : nat -> Z;
  env_walCheckpoint : option Error;
  env_updateStorageUsed : option Error;
  env_addEntries : option Error;
  env_getAttachments : MimeNode -> list string;
  env_checkRangeQuery : list Z -> UidQuery;
  env_translate : string -> string -> string;
  env_refineAndLogError : Error -> Error
}.

(** ** The handler's local variables and the machine state *)

Record Locals : Type := mkLocals {
  sourceIds : list string;
  sourceUid : list Z;
  destinationUid : list Z;
  entries : list Entry;
  copiedMessages : Z;
  copiedStorage : Z;
  err : option Error;
  lock : option Lock;
  uidNext : Z
}.

Definition initLocals : Locals :=
  mkLocals [] [] [] [] 0 0 None None 0.

Record St : Type := mkSt {
  db : Db;
  loc : Locals;
  trace : list Event;
  stmtNo : nat
}.

Definition set_db (d : Db) (s : St) : St :=
  mkSt d (loc s) (trace s) (stmtNo s).

Definition set_loc (l : Locals) (s : St) : St :=
  mkSt (db s) l (trace s) (stmtNo s).

Definition emit (e : Event) (s : St) : St :=
  mkSt (db s) (loc s) (trace s ++ [e]) (stmtNo s).

Definition tick (s : St) : St :=
  mkSt (db s) (loc s) (trace s) (S (stmtNo s)).

(** ** A state monad whose state survives a throw *)

Definition M (A : Type) : Type := St -> (Error + A) * St.

Definition ret {A} (a : A) : M A := fun s => (inr a, s).

Definition throw {A} (e : Error) : M A := fun s => (inl e, s).

Definition bind {A B} (c : M A) (k : A -> M B) : M B :=
  fun s =>
    match c s with
    | (inr a, s') => k a s'
    | (inl e, s') => (inl e, s')
    end.

Definition try_catch {A} (c : M A) (h : Error -> M A) : M A :=
  fun s =>
    match c s with
    | (inl e, s') => h e s'
    | r => r
    end.

Definition log (e : Event) : M unit := fun s => (inr tt, emit e s).

Definition getLoc : M Locals := fun s => (inr (loc s), s).

Definition putLoc (l : Locals) : M unit := fun s => (inr tt, set_loc l s).

Definition getDb : M Db := fun s => (inr (db s), s).

(** An awaited collaborator that either throws or returns. *)
Definition call {A} (e : Event) (r : Error + A) : M A :=
  fun s => (r, emit e s).

Definition call_ (e : Event) (r : option Error) : M unit :=
  fun s => (match r with Some x => inl x | None => inr tt end, emit e s).

(** [fn(...)] with the arguments [a]: the call is made, and [fn] throws or
    returns. *)
Definition callFn (fn : FnArgs -> option Error) (a : FnArgs) : M unit :=
  fun s =>
    (match fn a with Some x => inl x | None => inr tt end,
     emit (EvCallback a) s).

Declare Scope copy_scope.
Delimit Scope copy_scope with copy.
Notation "x <- c ;; k" := (bind c (fun x => k))
  (at level 61, c at next level, right associativity) : copy_scope.
Notation "c ;; k" := (bind c (fun _ => k))
  (at level 61, right associativity) : copy_scope.
Local Open Scope copy_scope.

(** ** The handler *)

Definition strict_neq_number (v : JsValue) (k : Z) : bool :=
  match v with JsNumber n => negb (Z.eqb n k) | _ => true end.

Definition numberOr (v : JsValue) (d : Z) : Z :=
  match v with JsNumber n => n | _ => d end.

(** The handler's numbers are IEEE 754 doubles.  [roundToDouble z] is the
    double nearest to the integer [z], ties going to the even significand:
    integers of magnitude up to 2^53 are doubles, above them only every
    2^e-th integer is, [e] growing with the magnitude. *)
Definition roundToDouble (z : Z) : Z :=
  let a := Z.abs z in
  if Z.leb a 9007199254740992 then z
  else
    let e := Z.log2 a - 52 in
    let q := Z.shiftr a e in
    let r := a - Z.shiftl q e in
    let half := Z.shiftl 1 (e - 1) in
    let q' := if Z.ltb r half then q
              else if Z.ltb half r then q + 1
              else if Z.even q then q else q + 1 in
    Z.sgn z * Z.shiftl q' e.

(** [x++] leaves [x + 1] rounded to a double in [x]: from 2^53 on the
    counter no longer advances by one. *)
Definition increment (x : Z) : Z := roundToDouble (x + 1).

(** The counter after [n] increments. *)
Fixpoint advance (u : Z) (n : nat) : Z :=
  match n with
  | O => u
  | S k => advance (increment u) k
  end.

(** The counter at [u] stays exact over [n] more increments. *)
Definition staysExact (u : Z) (n : nat) : Prop :=
  - 9007199254740992 <= u /\ u + Z.of_nat n <= 9007199254740992.

(** A time value that [new Date(t)] accepts: at most 8.64e15 milliseconds
    from the epoch. *)
Definition validTime (t : Z) : bool := Z.leb (Z.abs t) 8640000000000000.

(** The [RangeError] that [toISOString] throws on an invalid date. *)
Definition invalidTime : Error := mkError "Invalid time value" None.

Arguments roundToDouble : simpl never.
Arguments increment : simpl never.
Arguments validTime : simpl never.

(** A callback that returns normally, whatever it is called with. *)
Definition returns : FnArgs -> option Error := fun _ => None.

Definition lockSuccess (l : option Lock) : bool :=
  match l with Some k => success k | None => false end.

Definition truthy_string (o : option string) : option string :=
  match o with
  | Some EmptyString => None
  | other => other
  end.

Section Handler.
Variable env : Env.
Variable mailboxId : string.
Variable update : Update.
Variable session : Session.

(** [session.db.prepare(sql.query).run(sql.values)] inside the batch: the
    statement is the next one of the transaction and may fail. *)
Definition run (st : Statement) : M unit := fun s =>
  let s1 := tick (emit (EvRun st) s) in
  match env_sqlFault env (stmtNo s) with
  | Some e => (inl e, s1)
  | None => (inr tt, set_db (exec st (db s1)) s1)
  end.

(** [session.db.transaction(body).immediate(...)]: the body's writes are
    kept when it returns and the commit succeeds, and undone otherwise;
    the error is thrown on. *)
Definition transaction (body : M unit) : M unit := fun s =>
  match env_begin env with
  | Some e => (inl e, emit EvBegin s)
  | None =>
      match body (emit EvBegin s) with
      | (inr _, s1) =>
          match env_commit env with
          | None => (inr tt, emit EvCommit s1)
          | Some e =>
              (inl e, emit EvRollback (set_db (db s) (emit EvCommit s1)))
          end
      | (inl e, s1) => (inl e, emit EvRollback (set_db (db s) s1))
      end
  end.

Section Batch.
Variable mailbox : Mailboxes.row.
Variable targetMailbox : Mailboxes.row.

(** Lines 177-182: the time value handed to [new Date] for the i-th row. *)
Definition expiryTime (i : nat) : Z :=
  let retention := Mailboxes.retention targetMailbox in
  env_DateNow env i
  + (if typeof_number retention then numberOr retention 0 else 0).

(** [new Date(t).toISOString()] throws when [t] is not a valid time
    value. *)
Definition toISOString (t : Z) : M unit :=
  if validTime t then ret tt else throw invalidTime.

(** Lines 167-186: the source row rewritten into the destination row.  The
    row's [rdate] is kept as a time value; the conversion that can throw
    is the step [toISOString] of [copyMessage]. *)
Definition rewriteRow (i : nat) (u : Z) (m : Messages.row) : Messages.row :=
  let retention := Mailboxes.retention targetMailbox in
  Messages.mk
    (env_ObjectId env i)
    (Mailboxes._id targetMailbox)
    u
    (if (if typeof_number retention
         then strict_neq_number retention 0
         else false)
     then 1 else 0)
    (expiryTime i)
    (Mailboxes.modifyIndex mailbox)
    (strict_eq_string (Mailboxes.specialUse targetMailbox) "\Junk")
    (sessionRemoteAddress session)
    "COPY"
    (Messages.copied m)
    (Messages.mimeTree m)
    (Messages.magic m)
    (Messages.size m).

(** Lines 159-238: the body of the loop for the i-th row. *)
Definition copyMessage (i : nat) (m : Messages.row) : M unit :=
  l <- getLoc ;;
  putLoc (mkLocals (sourceIds l ++ [Messages._id m])
                   (Messages.uid m :: sourceUid l)
                   (uidNext l :: destinationUid l)
                   (entries l) (copiedMessages l) (copiedStorage l)
                   (err l) (lock l) (uidNext l)) ;;
  toISOString (expiryTime i) ;;
  let m' := rewriteRow i (uidNext l) m in
  run (InsertMessage m') ;;
  let attachmentIds := env_getAttachments env (Messages.mimeTree m') in
  (if (0 <? List.length attachmentIds)%nat
   then run (IncAttachments attachmentIds (Messages.magic m')
                            (env_newDate env i))
   else ret tt) ;;
  l <- getLoc ;;
  putLoc (mkLocals (sourceIds l) (sourceUid l) (destinationUid l)
                   (entries l ++ [mkEntry "EXISTS" (Messages.uid m')
                                    (Mailboxes._id targetMailbox)
                                    (env_ObjectId env i)])
                   (copiedMessages l + 1)
                   (copiedStorage l + Messages.size m')
                   (err l) (lock l) (increment (uidNext l))).

Fixpoint forEachMessage (i : nat) (rows : list Messages.row) : M unit :=
  match rows with
  | [] => ret tt
  | m :: rest => copyMessage i m ;; forEachMessage (S i) rest
  end.

(** Lines 158-275: the function handed to [transaction]. *)
Definition batch (rows : list Messages.row) : M unit :=
  forEachMessage 0 rows ;;
  l <- getLoc ;;
  run (SetCopied (sourceIds l)) ;;
  l <- getLoc ;;
  run (SetUidNext (Mailboxes._id targetMailbox) (uidNext l)).

Definition condition : Condition :=
  mkCondition (Mailboxes._id mailbox)
    (if (0 <? List.length (messages update))%nat
     then Some (env_checkRangeQuery env (messages update))
     else None).

(** Lines 129-276: the inner [try] block. *)
Definition guarded : M unit :=
  k <- call EvAcquireLock (env_acquireLock env) ;;
  l <- getLoc ;;
  putLoc (mkLocals (sourceIds l) (sourceUid l) (destinationUid l)
                   (entries l) (copiedMessages l) (copiedStorage l)
                   (err l) (Some k) (Mailboxes.uidNext targetMailbox)) ;;
  call_ (EvSelect condition) (env_select env) ;;
  d <- getDb ;;
  let rows := selectMessages condition d in
  if (0 <? List.length rows)%nat then transaction (batch rows) else ret tt.

(** Lines 128-378: from the guarded section to the callback.  [fn] tells
    what the callback throws, if anything, for given arguments. *)
Definition copyIntoFn (fn : FnArgs -> option Error) : M unit :=
  try_catch guarded
    (fun e =>
       l <- getLoc ;;
       putLoc (mkLocals (sourceIds l) (sourceUid l) (destinationUid l)
                        (entries l) (copiedMessages l) (copiedStorage l)
                        (Some e) (lock l) (uidNext l))) ;;
  l <- getLoc ;;
  (if lockSuccess (lock l)
   then try_catch (call_ EvReleaseLock (env_releaseLock env))
                  (fun e => log (EvFatal e))
   else ret tt) ;;
  match err l with
  | Some e => throw e
  | None =>
      (* the re-check is started and not awaited: what it reports later
         is outside the handler's control path *)
      (if Z.ltb 0 (copiedMessages l) && Z.ltb 0 (copiedStorage l)
       then log (EvQuotaRecheck (copiedStorage l))
       else ret tt) ;;
      try_catch
        (call_ EvCheckpoint (env_walCheckpoint env) ;;
         call_ EvUpdateStorageUsed (env_updateStorageUsed env))
        (fun e => log (EvFatal e)) ;;
      (if (0 <? List.length (entries l))%nat
       then call_ (EvAddEntries (entries l)) (env_addEntries env) ;;
            log EvFire
       else ret tt) ;;
      callFn fn
             (FnResponse true
                (mkResponse (Mailboxes.uidValidity targetMailbox)
                            (sourceUid l) (destinationUid l)))
  end.

(** The same with a callback that returns. *)
Definition copyInto : M unit := copyIntoFn returns.
End Batch.

(** Lines 74-378: the outer [try] block. *)
Definition copyLocalFn (fn : FnArgs -> option Error) : M unit :=
  call_ EvRefreshSession (env_refreshSession env) ;;
  isOverQuota <- call (EvIsOverQuota 0) (env_isOverQuota env 0) ;;
  (if isOverQuota : bool
   then throw (IMAPError
                 (env_translate env "IMAP_MAILBOX_OVER_QUOTA"
                                (locale (user session)))
                 "OVERQUOTA")
   else ret tt) ;;
  putLoc initLocals ;;
  d <- getDb ;;
  match findOne (by_id mailboxId) d with
  | None =>
      throw (IMAPError
               (env_translate env "IMAP_MAILBOX_DOES_NOT_EXIST"
                              (locale (user session)))
               "NONEXISTENT")
  | Some mailbox =>
      match findOne (by_path (destination update)) d with
      | None =>
          throw (IMAPError
                   (env_translate env "IMAP_MAILBOX_DOES_NOT_EXIST"
                                  (locale (user session)))
                   "TRYCREATE")
      | Some targetMailbox => copyIntoFn mailbox targetMailbox fn
      end
  end.

Definition copyLocal : M unit := copyLocalFn returns.

(** Lines 37-71: with a worker pool configured the command is handed to
    the remote process and its answer passed on.  The progress notices
    sent every 15 seconds while waiting are not part of the model. *)
Definition copyRemoteFn (fn : FnArgs -> option Error)
    (reply : Error + bool * Response) : M unit :=
  try_catch
    (r <- call EvWspRequest reply ;;
     callFn fn (FnResponse (fst r) (snd r)))
    (fun e =>
       match truthy_string (imapResponse e) with
       | Some code => callFn fn (FnCode code)
       | None => callFn fn (FnError e)
       end).

Definition copyRemote (reply : Error + bool * Response) : M unit :=
  copyRemoteFn returns reply.

(** Lines 34-382.  The call of [fn] that reports success is inside the
    [try]: when it throws, the [catch] calls [fn] again, with the error
    thrown.  What [fn] throws inside a [catch] leaves the handler. *)
Definition onCopyFn (fn : FnArgs -> option Error) : M unit :=
  match env_wsp env with
  | Some reply => copyRemoteFn fn reply
  | None =>
      try_catch (copyLocalFn fn)
        (fun e => callFn fn (FnError (env_refineAndLogError env e)))
  end.

(** The handler with a callback that returns. *)
Definition onCopy : M unit := onCopyFn returns.

(** The state in which the handler leaves an account database. *)
Definition runCopyFn (fn : FnArgs -> option Error) (d : Db) : St :=
  snd (onCopyFn fn (mkSt d initLocals [] 0)).

Definition runCopy (d : Db) : St :=
  snd (onCopy (mkSt d initLocals [] 0)).
End Handler.

Arguments expiryTime : simpl never.

(** What [fn] was called with, call by call. *)
Fixpoint callbacks (t : list Event) : list FnArgs :=
  match t with
  | [] => []
  | EvCallback a :: rest => a :: callbacks rest
  | _ :: rest => callbacks rest
  end.

Definition isAcquire (e : Event) : bool :=
  match e with EvAcquireLock => true | _ => false end.

Definition isRelease (e : Event) : bool :=
  match e with EvReleaseLock => true | _ => false end.

Definition isMailboxWrite (e : Event) : bool :=
  match e with EvRun (SetUidNext _ _) => true | _ => false end.

(** The select of the messages and the steps of the transaction.  The
    mailbox lookups before the lock leave no event. *)
Definition isStorageAccess (e : Event) : bool :=
  match e with
  | EvSelect _ | EvBegin | EvRun _ | EvCommit | EvRollback => true
  | _ => false
  end.

Definition countEv (p : Event -> bool) (t : list Event) : nat :=
  List.length (filter p t).


(** ** Closed forms for a batch that runs through *)

(** The [n] values the counter takes from [u] on: [u; u+1; ...] as long
    as the increments are exact. *)
Fixpoint upFrom (u : Z) (n : nat) : list Z :=
  match n with
  | O => []
  | S k => u :: upFrom (increment u) k
  end.

Fixpoint sumSizes (rows : list Messages.row) : Z :=
  match rows with
  | [] => 0
  | m :: rest => Messages.size m + sumSizes rest
  end.

Section Closed.
Variable env : Env.
Variable session : Session.
Variable mailbox : Mailboxes.row.
Variable targetMailbox : Mailboxes.row.

Definition attachmentIdsOf (m : Messages.row) : list string :=
  env_getAttachments env (Messages.mimeTree m).

(** [m]'s body tree references hash [h]. *)
Definition references (h : string) (m : Messages.row) : bool :=
  mem_string h (attachmentIdsOf m).

Definition hasAttachments (m : Messages.row) : bool :=
  (0 <? List.length (attachmentIdsOf m))%nat.

(** Number of statements the loop body runs for [m]. *)
Definition rowStmts (m : Messages.row) : nat :=
  if hasAttachments m then 2%nat else 1%nat.

Fixpoint loopStmts (rows : list Messages.row) : nat :=
  match rows with
  | [] => O
  | m :: rest => (rowStmts m + loopStmts rest)%nat
  end.

(** Statements of a whole batch: the loop, then the two updates. *)
Definition batchStmts (rows : list Messages.row) : nat :=
  (loopStmts rows + 2)%nat.

Definition locDone (i : nat) (m : Messages.row) (l : Locals) : Locals :=
  mkLocals (sourceIds l ++ [Messages._id m])
           (Messages.uid m :: sourceUid l)
           (uidNext l :: destinationUid l)
           (entries l ++ [mkEntry "EXISTS" (uidNext l)
                            (Mailboxes._id targetMailbox)
                            (env_ObjectId env i)])
           (copiedMessages l + 1)
           (copiedStorage l + Messages.size m)
           (err l) (lock l) (increment (uidNext l)).

Definition rowTrace (i : nat) (u : Z) (m : Messages.row) : list Event :=
  EvRun (InsertMessage (rewriteRow env session mailbox targetMailbox i u m))
  :: (if hasAttachments m
      then [EvRun (IncAttachments (attachmentIdsOf m) (Messages.magic m)
                                  (env_newDate env i))]
      else []).

Definition dbDone (i : nat) (u : Z) (m : Messages.row) (d : Db) : Db :=
  mkDb (tMessages d ++ [rewriteRow env session mailbox targetMailbox i u m])
       (if hasAttachments m
        then map (incAttachment (attachmentIdsOf m) (Messages.magic m)
                                (env_newDate env i))
                 (tAttachments d)
        else tAttachments d)
       (tMailboxes d).

Fixpoint locAfter (i : nat) (rows : list Messages.row) (l : Locals)
    : Locals :=
  match rows with
  | [] => l
  | m :: rest => locAfter (S i) rest (locDone i m l)
  end.

Fixpoint dbAfter (i : nat) (u : Z) (rows : list Messages.row) (d : Db)
    : Db :=
  match rows with
  | [] => d
  | m :: rest => dbAfter (S i) (increment u) rest (dbDone i u m d)
  end.

Fixpoint loopTrace (i : nat) (u : Z) (rows : list Messages.row)
    : list Event :=
  match rows with
  | [] => []
  | m :: rest => rowTrace i u m ++ loopTrace (S i) (increment u) rest
  end.

Fixpoint newRows (i : nat) (u : Z) (rows : list Messages.row)
    : list Messages.row :=
  match rows with
  | [] => []
  | m :: rest =>
      rewriteRow env session mailbox targetMailbox i u m
      :: newRows (S i) (increment u) rest
  end.

(** Copied rows that reference [h], and what they add to its magic. *)
Definition refCount (h : string) (rows : list Messages.row) : Z :=
  Z.of_nat (List.length (filter (references h) rows)).

Fixpoint magicSum (h : string) (rows : list Messages.row) : Z :=
  match rows with
  | [] => 0
  | m :: rest =>
      (if references h m then Messages.magic m else 0) + magicSum h rest
  end.

(** The stamp left on hash [h]: that of the last row referencing it. *)
Fixpoint lastStamp (h : string) (i : nat) (rows : list Messages.row)
    (old : Z) : Z :=
  match rows with
  | [] => old
  | m :: rest =>
      lastStamp h (S i) rest
                (if references h m then env_newDate env i else old)
  end.

Definition bumped (i : nat) (rows : list Messages.row)
    (a : Attachments.row) : Attachments.row :=
  Attachments.mk (Attachments.hash a)
    (Attachments.counter a + refCount (Attachments.hash a) rows)
    (Attachments.magic a + magicSum (Attachments.hash a) rows)
    (lastStamp (Attachments.hash a) i rows (Attachments.counterUpdated a)).

End Closed.

Section Shapes.
Variable env : Env.
Variable update : Update.
Variable session : Session.
Variable mailbox : Mailboxes.row.
Variable targetMailbox : Mailboxes.row.

(** One row's update of the attachment table, hash by hash. *)
Definition bump1 (i : nat) (m : Messages.row) (a : Attachments.row)
    : Attachments.row :=
  if references env (Attachments.hash a) m
  then Attachments.mk (Attachments.hash a) (Attachments.counter a + 1)
                      (Attachments.magic a + Messages.magic m)
                      (env_newDate env i)
  else a.

(** Events of the guarded section; an insert always writes a rewritten
    row. *)
Definition guardedEvent (e : Event) : Prop :=
  match e with
  | EvAcquireLock | EvSelect _ | EvBegin | EvCommit | EvRollback => True
  | EvRun (InsertMessage m') =>
      exists i u m, m' = rewriteRow env session mailbox targetMailbox i u m
  | EvRun _ => True
  | _ => False
  end.

(** The state a batch over [rows] leaves when every statement succeeds. *)
Definition batchDb (rows : list Messages.row) (l : Locals) (d : Db) : Db :=
  let l' := locAfter env targetMailbox 0 rows l in
  exec (SetUidNext (Mailboxes._id targetMailbox) (uidNext l'))
       (exec (SetCopied (sourceIds l'))
             (dbAfter env session mailbox targetMailbox 0 (uidNext l)
                      rows d)).

Definition batchTrace (rows : list Messages.row) (l : Locals)
    : list Event :=
  let l' := locAfter env targetMailbox 0 rows l in
  loopTrace env session mailbox targetMailbox 0 (uidNext l) rows
  ++ [EvRun (SetCopied (sourceIds l'));
      EvRun (SetUidNext (Mailboxes._id targetMailbox) (uidNext l'))].

(** The locals once the lock is held and [uidNext] is read. *)
Definition lockedLocals (k : Lock) : Locals :=
  mkLocals [] [] [] [] 0 0 None (Some k) (Mailboxes.uidNext targetMailbox).

Definition selected (d : Db) : list Messages.row :=
  selectMessages (condition env update mailbox) d.

Definition responseOf (l : Locals) : Response :=
  mkResponse (Mailboxes.uidValidity targetMailbox)
             (sourceUid l) (destinationUid l).
End Shapes.

Definition isTailEvent (e : Event) : bool :=
  match e with
  | EvReleaseLock | EvFatal _ | EvQuotaRecheck _ | EvCheckpoint
  | EvUpdateStorageUsed | EvAddEntries _ | EvFire | EvCallback _ => true
  | _ => false
  end.

(** Ascending order of the uids of a list of rows. *)
Inductive ascending : list Messages.row -> Prop :=
| asc_nil : ascending []
| asc_cons m l :
    Forall (fun x => Messages.uid m <= Messages.uid x) l ->
    ascending l -> ascending (m :: l).

(** Environments that differ from [e] in one collaborator. *)
Definition with_isOverQuota (q : Z -> Error + bool) (e : Env) : Env :=
  mkEnv (env_wsp e) (env_refreshSession e) q (env_acquireLock e)
        (env_releaseLock e) (env_select e) (env_begin e) (env_sqlFault e)
        (env_commit e) (env_ObjectId e) (env_DateNow e) (env_newDate e)
        (env_walCheckpoint e) (env_updateStorageUsed e) (env_addEntries e)
        (env_getAttachments e) (env_checkRangeQuery e) (env_translate e)
        (env_refineAndLogError e).

Definition with_releaseLock (r : option Error) (e : Env) : Env :=
  mkEnv (env_wsp e) (env_refreshSession e) (env_isOverQuota e)
        (env_acquireLock e) r (env_select e) (env_begin e) (env_sqlFault e)
        (env_commit e) (env_ObjectId e) (env_DateNow e) (env_newDate e)
        (env_walCheckpoint e) (env_updateStorageUsed e) (env_addEntries e)
        (env_getAttachments e) (env_checkRangeQuery e) (env_translate e)
        (env_refineAndLogError e).

Definition with_sqlFault (f : nat -> option Error) (e : Env) : Env :=
  mkEnv (env_wsp e) (env_refreshSession e) (env_isOverQuota e)
        (env_acquireLock e) (env_releaseLock e) (env_select e) (env_begin e)
        f (env_commit e) (env_ObjectId e) (env_DateNow e) (env_newDate e)
        (env_walCheckpoint e) (env_updateStorageUsed e) (env_addEntries e)
        (env_getAttachments e) (env_checkRangeQuery e) (env_translate e)
        (env_refineAndLogError e).


(** ** A concrete environment and account, for running the handler *)

Module Scenario.

(** An enumeration of the attachment hashes of a body tree, one entry per
    occurrence, as a stand-in for helpers/get-attachments. *)
Fixpoint walkAttachments (n : MimeNode) : list string :=
  match n with
  | Mime a cs =>
      (match a with Some h => [h] | None => [] end)
      ++ flat_map walkAttachments cs
  end.

Fixpoint contiguous (l : list Z) : bool :=
  match l with
  | a :: (b :: _) as t => Z.eqb b (a + 1) && contiguous t
  | _ => true
  end.

(** [tools.checkRangeQuery] of the wildduck package: one uid, a range for
    consecutive uids, a list otherwise. *)
Definition checkRangeQuery (uids : list Z) : UidQuery :=
  match uids with
  | [u] => QEq u
  | _ => if contiguous uids
         then QRange (hd 0 uids) (last uids 0)
         else QIn uids
  end.

Definition objectId (i : nat) : string :=
  nth i ["n0"; "n1"; "n2"; "n3"] "n".

Definition storageError : Error := mkError "SQLITE_ERROR" None.

Definition lockError : Error := mkError "lock release failed" None.

(** Every collaborator answers and nothing fails. *)
Definition quiet : Env :=
  mkEnv None None (fun _ => inr false) (inr (mkLock true)) None None None
        (fun _ => None) None objectId
        (fun i => 1000 + Z.of_nat i) (fun i => 2000 + Z.of_nat i)
        None None None walkAttachments checkRangeQuery
        (fun key _ => key) (fun e => e).

Definition plain : MimeNode := Mime None [].

(** A body that references hash "h1" twice and "h2" once. *)
Definition twice : MimeNode :=
  Mime None [Mime (Some "h1") []; Mime (Some "h2") []; Mime (Some "h1") []].

Definition msg (i : string) (mb : string) (u : Z) (t : MimeNode)
    : Messages.row :=
  Messages.mk i mb u 0 0 1 false "10.0.0.1" "APPEND" false t 3 10.

Definition boxA : Mailboxes.row :=
  Mailboxes.mk "A" "INBOX" 10 1 4 JsUndefined JsUndefined.

Definition boxB : Mailboxes.row :=
  Mailboxes.mk "B" "Archive" 100 77 2 (JsNumber 0) JsUndefined.

(** A mailbox that keeps its messages for thirty days. *)
Definition boxC : Mailboxes.row :=
  Mailboxes.mk "C" "Trash" 1 5 0 (JsNumber 2592000000) (JsString "\Trash").

(** Mailbox A holds uids 9, 5, 7 (stored in that order); B and C are
    empty. *)
Definition account : Db :=
  mkDb [msg "m9" "A" 9 plain; msg "m5" "A" 5 twice; msg "m7" "A" 7 twice]
       [Attachments.mk "h1" 2 6 0; Attachments.mk "h2" 2 6 0;
        Attachments.mk "h3" 1 3 0]
       [boxA; boxB; boxC].

Definition sess : Session :=
  mkSession "s1" (mkUser "alias" "domain" "en" "user@example.com")
            "192.0.2.1".

Definition copyAll : Update := mkUpdate "Archive" [].

Definition copyToTrash : Update := mkUpdate "Trash" [7].

(** A mailbox whose counter has reached 2^53. *)
Definition boxH : Mailboxes.row :=
  Mailboxes.mk "H" "Huge" 9007199254740992 9 0 JsUndefined JsUndefined.

(** A mailbox whose retention is a negative number. *)
Definition boxN : Mailboxes.row :=
  Mailboxes.mk "N" "Negative" 1 3 0 (JsNumber (-5)) JsUndefined.

(** A mailbox whose retention reaches beyond the last valid date. *)
Definition boxF : Mailboxes.row :=
  Mailboxes.mk "F" "Forever" 1 4 0 (JsNumber 8640000000000000) JsUndefined.

(** The messages and attachments of [account], with these mailboxes. *)
Definition edgeAccount : Db :=
  mkDb (tMessages account) (tAttachments account) [boxA; boxH; boxN; boxF].

Definition copyToHuge : Update := mkUpdate "Huge" [].

Definition copyToNegative : Update := mkUpdate "Negative" [7].

Definition copyToForever : Update := mkUpdate "Forever" [7].

Definition callbackError : Error := mkError "callback failed" None.

(** A callback that throws when it is told of a success. *)
Definition throwing (a : FnArgs) : option Error :=
  match a with
  | FnResponse _ _ => Some callbackError
  | _ => None
  end.

End Scenario.

(** The state in which the guarded section is entered: the session is
    refreshed, the account is within quota, both mailboxes are found. *)
Definition started (d : Db) : St :=
  mkSt d initLocals [EvRefreshSession; EvIsOverQuota 0] 0.

(** The outer [catch]: an error that escapes is refined and handed to the
    callback. *)
Definition finish (env : Env) (o : (Error + unit) * St) : St :=
  match o with
  | (inl e, s) => emit (EvCallback (FnError (env_refineAndLogError env e))) s
  | (inr _, s) => s
  end.

(** What the [catch] hands to [fn] when the call that reports success
    threw [e]: locally the refined error (line 380), with a worker pool the
    error's response code or the error itself (lines 66-67). *)
Definition errorReport (env : Env) (e : Error) : FnArgs :=
  match env_wsp env with
  | None => FnError (env_refineAndLogError env e)
  | Some _ =>
      match truthy_string (imapResponse e) with
      | Some code => FnCode code
      | None => FnError e
      end
  end.

Definition isSuccessCall (a : FnArgs) : bool :=
  match a with FnResponse _ _ => true | _ => false end.

(** The call of [fn] that follows the call with [a]: there is one when
    that call reported success and threw. *)
Definition retryTrace (env : Env) (fn : FnArgs -> option Error)
    (a : FnArgs) : list Event :=
  match a with
  | FnResponse _ _ =>
      match fn a with
      | Some e => [EvCallback (errorReport env e)]
      | None => []
      end
  | _ => []
  end.

(** A COPY handled by this process that calls back with success and the
    response [r]. *)
Definition succeeds (env : Env) (mailboxId : string) (update : Update)
    (session : Session) (d : Db) (r : Response) : Prop :=
  env_wsp env = None
  /\ callbacks (trace (runCopy env mailboxId update session d))
     = [FnResponse true r].

(** The batch over [rows] fails at some step: at its begin, at one of its
    statements, at its commit, or at the expiry date of one of its rows. *)
Definition batchFails (env : Env) (targetMailbox : Mailboxes.row)
    (rows : list Messages.row) : Prop :=
  env_begin env <> None
  \/ (exists n, (n < batchStmts env rows)%nat /\ env_sqlFault env n <> None)
  \/ env_commit env <> None
  \/ (exists i, (i < List.length rows)%nat
                /\ validTime (expiryTime env targetMailbox i) = false).

(** Case analysis on every collaborator the goal still branches on. *)
Ltac split_oracles :=
  repeat match goal with
         | |- context [match ?x with _ => _ end] =>
             match type of x with
             | option Error => destruct x
             | bool => destruct x
             end; cbn [fst snd trace loc db stmtNo]
         end.

(** ** The steps after the guarded section, step by step *)

Definition isEarlyEvent (e : Event) : bool :=
  match e with
  | EvWspRequest | EvRefreshSession | EvIsOverQuota _ => true
  | _ => false
  end.

Definition isBatchEvent (e : Event) : bool :=
  match e with
  | EvBegin | EvRun _ | EvCommit | EvRollback => true
  | _ => false
  end.

Definition isNotify (e : Event) : bool :=
  match e with EvAddEntries _ | EvFire => true | _ => false end.

Definition isRecheck (e : Event) : bool :=
  match e with EvQuotaRecheck _ => true | _ => false end.

(** Lines 282-288: the release, and the fatal log when it fails. *)
Definition releaseTrace (env : Env) (l : Locals) : list Event :=
  if lockSuccess (lock l)
  then EvReleaseLock
       :: match env_releaseLock env with
          | Some e => [EvFatal e]
          | None => []
          end
  else [].

(** Lines 293-335: the quota re-check that is started and not awaited. *)
Definition recheckTrace (l : Locals) : list Event :=
  if Z.ltb 0 (copiedMessages l) && Z.ltb 0 (copiedStorage l)
  then [EvQuotaRecheck (copiedStorage l)]
  else [].

(** Lines 357-362: the checkpoint and the storage-usage refresh. *)
Definition refreshTrace (env : Env) : list Event :=
  EvCheckpoint
  :: match env_walCheckpoint env with
     | Some e => [EvFatal e]
     | None =>
         EvUpdateStorageUsed
         :: match env_updateStorageUsed env with
            | Some e => [EvFatal e]
            | None => []
            end
     end.

(** Lines 364-372: the notifier. *)
Definition notifyTrace (env : Env) (l : Locals) : list Event :=
  if (0 <? List.length (entries l))%nat
  then EvAddEntries (entries l)
       :: match env_addEntries env with
          | Some _ => []
          | None => [EvFire]
          end
  else [].

(** The error, if any, with which the steps after a guarded section that
    returned normally end. *)
Definition notifyError (env : Env) (l : Locals) : option Error :=
  if (0 <? List.length (entries l))%nat then env_addEntries env else None.

Definition set_err (e : Error) (l : Locals) : Locals :=
  mkLocals (sourceIds l) (sourceUid l) (destinationUid l) (entries l)
           (copiedMessages l) (copiedStorage l) (Some e) (lock l) (uidNext l).

(** The notifier entries of the rows copied from index [i] and uid [u]
    on. *)
Fixpoint entriesFrom (env : Env) (targetMailbox : Mailboxes.row) (i : nat)
    (u : Z) (rows : list Messages.row) : list Entry :=
  match rows with
  | [] => []
  | _ :: rest =>
      mkEntry "EXISTS" u (Mailboxes._id targetMailbox) (env_ObjectId env i)
      :: entriesFrom env targetMailbox (S i) (increment u) rest
  end.

Definition with_storageRefresh (c u : option Error) (e : Env) : Env :=
  mkEnv (env_wsp e) (env_refreshSession e) (env_isOverQuota e)
        (env_acquireLock e) (env_releaseLock e) (env_select e) (env_begin e)
        (env_sqlFault e) (env_commit e) (env_ObjectId e) (env_DateNow e)
        (env_newDate e) c u (env_addEntries e)
        (env_getAttachments e) (env_checkRangeQuery e) (env_translate e)
        (env_refineAndLogError e).

Definition with_addEntries (a : option Error) (e : Env) : Env :=
  mkEnv (env_wsp e) (env_refreshSession e) (env_isOverQuota e)
        (env_acquireLock e) (env_releaseLock e) (env_select e) (env_begin e)
        (env_sqlFault e) (env_commit e) (env_ObjectId e) (env_DateNow e)
        (env_newDate e) (env_walCheckpoint e) (env_updateStorageUsed e) a
        (env_getAttachments e) (env_checkRangeQuery e) (env_translate e)
        (env_refineAndLogError e).

Definition with_acquireLock (a : Error + Lock) (e : Env) : Env :=
  mkEnv (env_wsp e) (env_refreshSession e) (env_isOverQuota e)
        a (env_releaseLock e) (env_select e) (env_begin e)
        (env_sqlFault e) (env_commit e) (env_ObjectId e) (env_DateNow e)
        (env_newDate e) (env_walCheckpoint e) (env_updateStorageUsed e)
        (env_addEntries e)
        (env_getAttachments e) (env_checkRangeQuery e) (env_translate e)
        (env_refineAndLogError e).

Definition with_wsp (w : option (Error + bool * Response)) (e : Env) : Env :=
  mkEnv w (env_refreshSession e) (env_isOverQuota e)
        (env_acquireLock e) (env_releaseLock e) (env_select e) (env_begin e)
        (env_sqlFault e) (env_commit e) (env_ObjectId e) (env_DateNow e)
        (env_newDate e) (env_walCheckpoint e) (env_updateStorageUsed e)
        (env_addEntries e)
        (env_getAttachments e) (env_checkRangeQuery e) (env_translate e)
        (env_refineAndLogError e).

Section ReturnedState.
Variable env : Env.
Variable update : Update.
Variable session : Session.
Variable mailbox : Mailboxes.row.
Variable targetMailbox : Mailboxes.row.

(** The state in which a guarded section that ran through leaves the
    handler: nothing selected, or the committed batch. *)
Definition returned (k : Lock) (d : Db) : St :=
  let rows := selected env update mailbox d in
  let l := locAfter env targetMailbox 0 rows (lockedLocals targetMailbox k) in
  match rows with
  | [] =>
      mkSt d l
           ([EvRefreshSession; EvIsOverQuota 0; EvAcquireLock;
             EvSelect (condition env update mailbox)])
           O
  | _ =>
      mkSt (batchDb env session mailbox targetMailbox rows
                    (lockedLocals targetMailbox k) d)
           l
           ([EvRefreshSession; EvIsOverQuota 0; EvAcquireLock;
             EvSelect (condition env update mailbox); EvBegin]
            ++ batchTrace env session mailbox targetMailbox rows
                          (lockedLocals targetMailbox k)
            ++ [EvCommit])
           (batchStmts env rows)
  end.
End ReturnedState.

(** ** The SMTP server's checks (smtp-server.js) *)

Module Smtp.

(** An error object as the handlers see it: its class, its message and the
    properties the handlers read or set. *)
Record Err : Type := mkErr {
  errName : string;
  errMessage : string;
  responseCode : option Z;
  isCodeBug : option bool;
  ignoreHook : bool
}.

(** [new Error(message)]. *)
Definition plainError (msg : string) : Err :=
  mkErr "Error" msg None None false.

(** [new ServerShutdownError()], lines 32-40. *)
Definition ServerShutdownError : Err :=
  mkErr "ServerShutdownError" "Server shutting down" (Some 421) None false.

(** [new SMTPError(message, options)], lines 42-49: a response code that
    is missing or zero becomes 550. *)
Definition SMTPError (msg : string) (code : option Z) (ignore : bool) : Err :=
  mkErr "SMTPError" msg
        (Some match code with
              | Some c => if Z.eqb c 0 then 550 else c
              | None => 550
              end)
        None ignore.

(** A member of a domain with its populated user. *)
Record Member : Type := mkMember {
  isBanned : bool;
  hasVerifiedEmail : bool;
  userPlan : string;
  (* [new Date(planExpiresAt).getTime()]: a time, or NaN *)
  planExpiresAt : option Z;
  group : string
}.

Record Domain : Type := mkDomain {
  (* [domain._id] *)
  domainObjectId : string;
  (* [domain.id] *)
  domainId : string;
  is_global : bool;
  (* [_.isDate(domain.smtp_suspended_sent_at)] *)
  smtp_suspended : bool;
  has_smtp : bool;
  plan : string;
  members : list Member
}.

Definition validPlans (d : Domain) : list string :=
  if String.eqb (plan d) "team" then ["team"]
  else ["team"; "enhanced_protection"].

(** Lines 73-79: the test under [members.some]. *)
Definition validAdmin (now : Z) (d : Domain) (m : Member) : bool :=
  negb (isBanned m)
  && hasVerifiedEmail m
  && mem_string (userPlan m) (validPlans d)
  && match planExpiresAt m with
     | Some t => Z.leb now t
     | None => false
     end
  && String.eqb (group m) "admin".

(** Lines 51-85; [now] is [Date.now()]. *)
Definition validateDomain (now : Z) (domain : option Domain) : Err + unit :=
  match domain with
  | None =>
      inl (plainError
             "Domain does not exist with current TXT verification record")
  | Some d =>
      if is_global d
      then inl (plainError "Cannot send email from global domain")
      else if smtp_suspended d
      then inl (plainError "Domain is suspended from outbound SMTP access")
      else if negb (has_smtp d)
      then inl (plainError "Domain does not have outbound SMTP access")
      else if negb (existsb (validAdmin now d) (members d))
      then inl (plainError
                  "Domain has past due balance or does not have at least one valid admin")
      else inr tt
  end.

(** An alias with its populated user. *)
Record Alias : Type := mkAlias {
  aliasId : string;
  aliasUserBanned : bool;
  is_enabled : bool;
  aliasName : string;
  (* [alias.tokens] when it is an array *)
  tokens : option (list string)
}.

(** [name.startsWith('/')]. *)
Definition startsWithSlash (name : string) : bool :=
  match name with
  | String c _ => Ascii.eqb c "/"%char
  | EmptyString => false
  end.

(** Lines 87-103. *)
Definition validateAlias (alias : option Alias) : Err + unit :=
  match alias with
  | None => inl (plainError "Alias does not exist")
  | Some a =>
      if aliasUserBanned a then inl (plainError "Alias user is banned")
      else if negb (is_enabled a) then inl (plainError "Alias is disabled")
      else if String.eqb (aliasName a) "*"
      then inl (plainError "Alias cannot be a catch-all")
      else if startsWithSlash (aliasName a)
      then inl (plainError "Alias cannot be a regex")
      else inr tt
  end.

(** *** The handlers *)

(** [session.user] after the session was cloned: not an object, [null],
    or an object whose ids may or may not be strings. *)
Inductive SessionUser : Type :=
| NoUser
| NullUser
| UserObj (alias_id domain_id : option string).

(** A recipient; its address is a string or something else. *)
Record Rcpt : Type := mkRcpt { rcptAddress : option string }.

Record Session : Type := mkSession {
  sessionUser : SessionUser;
  (* [session.envelope.mailFrom.address], when it is a string *)
  mailFromAddress : option string;
  (* [session.envelope.rcptTo], when it is an array *)
  rcptTo : option (list Rcpt)
}.

Record Envelope : Type := mkEnvelope {
  envFrom : option string;
  envTo : option (list Rcpt)
}.

Record QueueRequest : Type := mkQueueRequest {
  qEnvelope : Envelope;
  qRaw : string;
  qAlias : Alias;
  qDomain : Domain
}.

Record Auth : Type := mkAuth {
  username : option string;
  password : option string
}.

(** [this.bree]: absent, present without the send-emails worker, or with
    it (and whether posting to it throws). *)
Inductive Bree : Type :=
| NoBree
| BreeIdle
| BreeWorker (postMessage : option Err).

(** What [fn] is called with. *)
Inductive FnResult : Type :=
| FnDone                                (* fn() *)
| FnFail (e : Err)                      (* fn(err) *)
| FnUser (alias_id domain_id : string). (* fn(null, { user: ... }) *)

Inductive Event : Type :=
| EvLogFatal (e : Err)
| EvLogError (e : Err)
| EvLogInfo
| EvReadStream
| EvLookup (alias_id domain_id : string)
| EvQueue (q : QueueRequest)
| EvPostMessage (emailId : string)
| EvResolveTxt (domainName : string)
| EvFindDomain (domainName verification : string)
| EvFindAlias (name domain : string)
| EvFn (r : FnResult).

(** Everything outside the file: the server's state, the clock, the
    helpers, the validators, the string built-ins, DNS and the models. *)
Record World : Type := mkWorld {
  closing : bool;
  now : Z;
  isCodeBugOf : Err -> bool;
  getErrorCode : Err -> Z;
  splitLines : string -> list string;
  isSANB : string -> bool;
  isEmail : string -> bool;
  trim : string -> string;
  (* [username.trim().toLowerCase().split('@')], first two parts *)
  usernameParts : string -> string * string;
  paidPrefix : string;
  resolveTxt : string -> Err + list (list string);
  findDomain : string -> string -> Err + option Domain;
  findAlias : string -> string -> Err + option Alias;
  isValidPassword : list string -> string -> bool;
  readStream : Err + string;
  (* the two [findOne] of [onData], awaited together *)
  lookup : string -> string -> Err + (option Alias * option Domain);
  queue : QueueRequest -> Err + string;
  bree : Bree;
  (* the TypeError of reading a property of [null] *)
  nullAccess : Err;
  (* the TypeError the validator throws when given no string *)
  notAString : Err
}.

(** [s.split('; ')]. *)
Fixpoint splitSemi (s : string) : list string :=
  match s with
  | EmptyString => [EmptyString]
  | String c rest =>
      match rest with
      | String c' rest' =>
          if Ascii.eqb c ";"%char && Ascii.eqb c' " "%char
          then EmptyString :: splitSemi rest'
          else match splitSemi rest with
               | h :: t => String c h :: t
               | [] => [String c EmptyString]
               end
      | EmptyString => [String c EmptyString]
      end
  end.

(** [_.uniq]: the first occurrence of each element, in order. *)
Fixpoint uniq (l : list string) : list string :=
  match l with
  | [] => []
  | x :: rest => x :: filter (fun y => negb (String.eqb x y)) (uniq rest)
  end.

Definition joinSemi (l : list string) : string := String.concat "; " l.

Definition set_isCodeBug (b : bool) (e : Err) : Err :=
  mkErr (errName e) (errMessage e) (responseCode e) (Some b) (ignoreHook e).

Definition set_responseCode (c : Z) (e : Err) : Err :=
  mkErr (errName e) (errMessage e) (Some c) (isCodeBug e) (ignoreHook e).

Definition set_message (m : string) (e : Err) : Err :=
  mkErr (errName e) m (responseCode e) (isCodeBug e) (ignoreHook e).

(** Lines 106-146: the error handed to the callback, and what is logged on
    the way. *)
Definition refineAndLogError (w : World) (err : Err) : Err * list Event :=
  let '(e1, log1) :=
    match isCodeBug err with
    | Some _ => (err, [])
    | None =>
        let e := set_isCodeBug (isCodeBugOf w err) err in
        if isCodeBugOf w err
        then (set_responseCode 421 e, [EvLogFatal e])
        else (e, [])
    end in
  let e2 := set_responseCode (getErrorCode w e1) e1 in
  let '(e3, log2) :=
    match isCodeBug e2 with
    | Some true =>
        (set_message
           "An internal server error has occurred, please try again later."
           e2, [])
    | _ => (e2, [EvLogError e2])
    end in
  let lines := splitLines w (errMessage e3) in
  (set_message (joinSemi (uniq (splitSemi (joinSemi lines)))) e3,
   log1 ++ log2).

(** The common end of the handlers' [catch] blocks. *)
Definition fail (w : World) (err : Err) : list Event :=
  snd (refineAndLogError w err) ++ [EvFn (FnFail (fst (refineAndLogError w err)))].

(** [isEmail(x, ...)] of the validator package: it throws when [x] is not
    a string. *)
Definition isEmailValue (w : World) (x : option string) : Err + bool :=
  match x with
  | Some s => inr (isEmail w s)
  | None => inl (notAString w)
  end.

(** Lines 224-229: the recipients with a valid address, in order. *)
Fixpoint validRcpts (w : World) (l : list Rcpt) : Err + list Rcpt :=
  match l with
  | [] => inr []
  | rcpt :: rest =>
      match isEmailValue w (rcptAddress rcpt) with
      | inl e => inl e
      | inr ok =>
          match validRcpts w rest with
          | inl e => inl e
          | inr to => inr (if ok then rcpt :: to else to)
          end
      end
  end.

(** Lines 212-230: the envelope handed to the queue. *)
Definition prepareEnvelope (w : World) (session : Session) : Err + Envelope :=
  match isEmailValue w (mailFromAddress session) with
  | inl e => inl e
  | inr okFrom =>
      let from := if okFrom then mailFromAddress session else None in
      match rcptTo session with
      | Some (r :: rest) =>
          match validRcpts w (r :: rest) with
          | inl e => inl e
          | inr [] => inr (mkEnvelope from None)
          | inr to => inr (mkEnvelope from (Some to))
          end
      | _ => inr (mkEnvelope from None)
      end
  end.

(** Lines 173-183: the ids of an authenticated session. *)
Definition authenticated (w : World) (session : Session)
    : Err + string * string :=
  let required := SMTPError "Error: authentication Required" (Some 530) false in
  match sessionUser session with
  | NoUser => inl required
  | NullUser => inl (nullAccess w)
  | UserObj (Some a) (Some d) => inr (a, d)
  | UserObj _ _ => inl required
  end.

(** Lines 252-264: waking the worker never fails the command. *)
Definition signalWorker (w : World) (emailId : string) : list Event :=
  match bree w with
  | BreeWorker post =>
      EvPostMessage emailId
      :: match post with
         | Some e => [EvLogError e]
         | None => []
         end
  | BreeIdle => [EvLogError (plainError "send-emails is not running")]
  | NoBree => []
  end.

(** Lines 152-270. *)
Definition onData (w : World) (session : Session) : list Event :=
  if closing w then [EvFn (FnFail ServerShutdownError)]
  else
    EvReadStream
    :: match readStream w with
       | inl e => fail w e
       | inr raw =>
           match authenticated w session with
           | inl e => fail w e
           | inr (a, d) =>
               EvLookup a d
               :: match lookup w a d with
                  | inl e => fail w e
                  | inr (alias, domain) =>
                      match validateDomain (now w) domain with
                      | inl e => fail w e
                      | inr _ =>
                          match validateAlias alias with
                          | inl e => fail w e
                          | inr _ =>
                              match alias, domain with
                              | Some al, Some dom =>
                                  match prepareEnvelope w session with
                                  | inl e => fail w e
                                  | inr envelope =>
                                      let q := mkQueueRequest envelope raw
                                                              al dom in
                                      EvQueue q
                                      :: match queue w q with
                                         | inl e => fail w e
                                         | inr emailId =>
                                             EvLogInfo
                                             :: signalWorker w emailId
                                             ++ [EvFn FnDone]
                                         end
                                  end
                              (* not reached after the two validations;
                                 [alias.user] of [null] throws *)
                              | _, _ => fail w (nullAccess w)
                              end
                          end
                      end
                  end
           end
       end.

(** [str.slice(n)]. *)
Fixpoint dropChars (n : nat) (s : string) : string :=
  match n, s with
  | O, _ => s
  | S k, String _ rest => dropChars k rest
  | S _, EmptyString => EmptyString
  end.

(** Lines 383-389: the verification strings among the TXT records. *)
Fixpoint verificationsOf (w : World) (records : list (list string))
    : list string :=
  match records with
  | [] => []
  | record_ :: rest =>
      let record := trim w (String.concat "" record_) in
      if String.prefix (paidPrefix w) record
      then trim w (dropChars (String.length (paidPrefix w)) record)
           :: verificationsOf w rest
      else verificationsOf w rest
  end.

Definition validUsername (w : World) (a : Auth) : bool :=
  match username a with
  | Some u => isSANB w u && isEmail w u
  | None => false
  end.

(** [s.length]: the length of a string in UTF-16 code units.  A string
    holds the UTF-8 bytes of its text: a byte that starts a character
    counts one unit, two when it starts a four-byte character (a surrogate
    pair), and a continuation byte counts none. *)
Fixpoint utf16Length (s : string) : nat :=
  match s with
  | EmptyString => O
  | String c rest =>
      let b := nat_of_ascii c in
      ((if (b <? 128) || (192 <=? b) then 1 else 0)
       + (if 240 <=? b then 1 else 0)
       + utf16Length rest)%nat
  end.

Definition validPassword (w : World) (a : Auth) : bool :=
  match password a with
  | Some p => isSANB w p && negb (128 <? utf16Length p)%nat
  | None => false
  end.

(** Lines 370-429: the body of the [try] of [onAuth]; the events, and
    either the error thrown or the ids of the alias and the domain. *)
Definition authenticate (w : World) (a : Auth)
    : list Event * (Err + string * string) :=
  if negb (validUsername w a) then ([], inl (plainError "Invalid username"))
  else if negb (validPassword w a)
  then ([], inl (plainError "Invalid password"))
  else
    match username a, password a with
    | Some u, Some p =>
        let '(name, domainName) := usernameParts w u in
        match resolveTxt w domainName with
        | inl e => ([EvResolveTxt domainName], inl e)
        | inr records =>
            match verificationsOf w records with
            | [] =>
                ([EvResolveTxt domainName],
                 inl (plainError "Domain is missing TXT verification record"))
            | [v] =>
                match findDomain w domainName v with
                | inl e =>
                    ([EvResolveTxt domainName; EvFindDomain domainName v],
                     inl e)
                | inr domain =>
                    match validateDomain (now w) domain, domain with
                    | inl e, _ =>
                        ([EvResolveTxt domainName; EvFindDomain domainName v],
                         inl e)
                    | inr _, None =>
                        ([EvResolveTxt domainName; EvFindDomain domainName v],
                         inl (nullAccess w))
                    | inr _, Some d =>
                        let evs := [EvResolveTxt domainName;
                                    EvFindDomain domainName v;
                                    EvFindAlias name (domainObjectId d)] in
                        match findAlias w name (domainObjectId d) with
                        | inl e => (evs, inl e)
                        | inr alias =>
                            match validateAlias alias, alias with
                            | inl e, _ => (evs, inl e)
                            | inr _, None => (evs, inl (nullAccess w))
                            | inr _, Some al =>
                                match tokens al with
                                | Some (t :: ts) =>
                                    if isValidPassword w (t :: ts) p
                                    then (evs, inr (aliasId al, domainId d))
                                    else (evs,
                                          inl (plainError "Invalid password"))
                                | _ =>
                                    (evs,
                                     inl (plainError
                                            "Alias does not have any SMTP generated passwords yet"))
                                end
                            end
                        end
                    end
                end
            | _ :: _ :: _ =>
                ([EvResolveTxt domainName],
                 inl (plainError
                        "Domain has more than one TXT verification record"))
            end
        end
    | _, _ => ([], inl (nullAccess w))
    end.

(** Lines 354-454. *)
Definition onAuth (w : World) (a : Auth) : list Event :=
  if closing w then [EvFn (FnFail ServerShutdownError)]
  else
    match authenticate w a with
    | (evs, inr (aliasId, domId)) => evs ++ [EvFn (FnUser aliasId domId)]
    | (evs, inl e) =>
        evs ++ EvLogError e
            :: fail w (SMTPError "Invalid username or password" (Some 535)
                                 true)
    end.

Definition isQueue (e : Event) : bool :=
  match e with EvQueue _ => true | _ => false end.

(** The calls that leave the handler: the stream, DNS, the database, the
    queue and the worker. *)
Definition isOutsideCall (e : Event) : bool :=
  match e with
  | EvReadStream | EvLookup _ _ | EvQueue _ | EvPostMessage _
  | EvResolveTxt _ | EvFindDomain _ _ | EvFindAlias _ _ => true
  | _ => false
  end.

Fixpoint fnResults (t : list Event) : list FnResult :=
  match t with
  | [] => []
  | EvFn r :: rest => r :: fnResults rest
  | _ :: rest => fnResults rest
  end.

(** The same world with another worker registry. *)
Definition with_bree (b : Bree) (w : World) : World :=
  mkWorld (closing w) (now w) (isCodeBugOf w) (getErrorCode w) (splitLines w)
          (isSANB w) (isEmail w) (trim w) (usernameParts w) (paidPrefix w)
          (resolveTxt w) (findDomain w) (findAlias w) (isValidPassword w)
          (readStream w) (lookup w) (queue w) b (nullAccess w) (notAString w).

(** Whether a recipient's address is a valid e-mail address. *)
Definition validRcpt (w : World) (r : Rcpt) : bool :=
  match rcptAddress r with
  | Some a => isEmail w a
  | None => false
  end.

(** The checks a DATA command passes before its message is queued as
    [q]. *)
Definition passedChecks (w : World) (session : Session) (q : QueueRequest)
    : Prop :=
  exists a d,
    sessionUser session = UserObj (Some a) (Some d)
    /\ readStream w = inr (qRaw q)
    /\ lookup w a d = inr (Some (qAlias q), Some (qDomain q))
    /\ validateDomain (now w) (Some (qDomain q)) = inr tt
    /\ validateAlias (Some (qAlias q)) = inr tt
    /\ prepareEnvelope w session = inr (qEnvelope q).

(** [s.includes('; ')]. *)
Fixpoint containsSemi (s : string) : bool :=
  match s with
  | EmptyString => false
  | String c rest =>
      match rest with
      | String c' _ =>
          (Ascii.eqb c ";"%char && Ascii.eqb c' " "%char) || containsSemi rest
      | EmptyString => false
      end
  end.

Definition isUserReply (e : Event) : bool :=
  match e with EvFn (FnUser _ _) => true | _ => false end.

Definition isErrorLine (e : Event) : bool :=
  match e with EvLogError _ => true | _ => false end.

(** The message [refineAndLogError] puts in place of a code bug's, after
    its line breaks and repeated parts are removed. *)
Definition internalErrorMessage (w : World) : string :=
  joinSemi
    (uniq
       (splitSemi
          (joinSemi
             (splitLines w
                "An internal server error has occurred, please try again later.")))).

End Smtp.

(** ** A small SMTP world to run the handlers in *)

Module SmtpScenario.
Import Smtp.

(** The part of an address before the first [@] and the part after it. *)
Fixpoint splitAtSign (s : string) : string * string :=
  match s with
  | EmptyString => (EmptyString, EmptyString)
  | String c rest =>
      if Ascii.eqb c "@"%char then (EmptyString, rest)
      else let '(a, b) := splitAtSign rest in (String c a, b)
  end.

Definition admin : Member := mkMember false true "team" (Some 2000) "admin".

Definition lapsed : Member :=
  mkMember false true "enhanced_protection" (Some 500) "admin".

Definition example : Domain :=
  mkDomain "5f1" "d1" false false true "enhanced_protection" [lapsed; admin].

Definition hello : Alias := mkAlias "a1" false true "hello" (Some ["token"]).

Definition world : World :=
  mkWorld false 1000
    (fun _ => false)
    (fun e => match responseCode e with Some c => c | None => 550 end)
    (fun s => [s])
    (fun s => negb (String.eqb s ""))
    (fun s => let '(a, b) := splitAtSign s in
              negb (String.eqb a "") && negb (String.eqb b ""))
    (fun s => s)
    splitAtSign
    "forward-email-site-verification="
    (fun d => if String.eqb d "example.com"
              then inr [["v=spf1 -all"];
                        ["forward-email-site-verification="; "abc"]]
              else inr [])
    (fun d v => inr (if String.eqb d "example.com" && String.eqb v "abc"
                     then Some example else None))
    (fun n d => inr (if String.eqb n "hello" && String.eqb d "5f1"
                     then Some hello else None))
    (fun toks p => mem_string p toks)
    (inr "Subject: hi")
    (fun a d => inr (if String.eqb a "a1" then Some hello else None,
                     if String.eqb d "d1" then Some example else None))
    (fun _ => inr "e1")
    (BreeWorker None)
    (mkErr "TypeError" "Cannot read properties of null" None None false)
    (mkErr "TypeError" "Expected a string" None None false).

Definition login : Auth := mkAuth (Some "hello@example.com") (Some "token").

Definition wrongPassword : Auth :=
  mkAuth (Some "hello@example.com") (Some "guess").

Definition noSuchDomain : Auth :=
  mkAuth (Some "hello@example.org") (Some "token").

(** [n] times a two-byte character (U+00E9). *)
Fixpoint accented (n : nat) : string :=
  match n with
  | O => EmptyString
  | S k => String (ascii_of_nat 195) (String (ascii_of_nat 169) (accented k))
  end.

Definition longLogin : Auth :=
  mkAuth (Some "hello@example.com") (Some (accented 65)).

Definition session : Session :=
  mkSession (UserObj (Some "a1") (Some "d1")) (Some "hello@example.com")
            (Some [mkRcpt (Some "to@example.org"); mkRcpt (Some "bad");
                   mkRcpt (Some "cc@example.org")]).

End SmtpScenario.

(** ** Refunds (the refund helper): a shallow embedding

    [refund] looks a payment up, refunds it at the provider that took it
    and records the refund.  The payment model, Stripe and PayPal are
    oracles of [World]; the calls made are kept in a trace. *)

Module Refund.

(** A thrown error. *)
Inductive Failure : Type :=
| Thrown (message : string).

(** A payment document, as far as [refund] reads or writes it. *)
Record Payment : Type := mkPayment {
  paymentId : string;
  stripe_payment_intent_id : option string;
  paypal_transaction_id : option string;
  amount : Z;
  amount_refunded : Z
}.

(** The id in a field that is truthy: a non-empty string. *)
Definition idOf (field : option string) : option string :=
  match field with
  | Some s => if String.eqb s "" then None else Some s
  | None => None
  end.

Inductive Event : Type :=
| EvFindById (id : string)
| EvStripeRefund (payment_intent : string)
| EvPaypalAgent
| EvPaypalPost (url : string)
| EvSave (p : Payment).

Record World : Type := mkWorld {
  findById : string -> Failure + option Payment;
  stripeRefundsCreate : string -> option Failure;
  paypalAgent : option Failure;
  agentPost : string -> option Failure;
  save : Payment -> option Failure
}.

(** [payment.amount_refunded = payment.amount]. *)
Definition setRefunded (p : Payment) : Payment :=
  mkPayment (paymentId p) (stripe_payment_intent_id p)
            (paypal_transaction_id p) (amount p) (amount p).

Definition refundUrl (transaction : string) : string :=
  String.append "/v2/payments/captures/"
                (String.append transaction "/refund").

(** The two lines both branches end with: mark, save, return. *)
Definition markAndSave (w : World) (payment : Payment) (before : list Event)
    : list Event * (Failure + Payment) :=
  let p := setRefunded payment in
  match save w p with
  | Some e => (before ++ [EvSave p], inl e)
  | None => (before ++ [EvSave p], inr p)
  end.

(** Lines 11-46: the calls made, and the error thrown or the payment
    returned. *)
Definition refund (w : World) (id : string)
    : list Event * (Failure + Payment) :=
  match findById w id with
  | inl e => ([EvFindById id], inl e)
  | inr None => ([EvFindById id], inl (Thrown "Payment does not exist"))
  | inr (Some payment) =>
      match idOf (stripe_payment_intent_id payment) with
      | Some intent =>
          match stripeRefundsCreate w intent with
          | Some e => ([EvFindById id; EvStripeRefund intent], inl e)
          | None =>
              markAndSave w payment [EvFindById id; EvStripeRefund intent]
          end
      | None =>
          match idOf (paypal_transaction_id payment) with
          | Some transaction =>
              match paypalAgent w with
              | Some e => ([EvFindById id; EvPaypalAgent], inl e)
              | None =>
                  match agentPost w (refundUrl transaction) with
                  | Some e =>
                      ([EvFindById id; EvPaypalAgent;
                        EvPaypalPost (refundUrl transaction)], inl e)
                  | None =>
                      markAndSave w payment
                        [EvFindById id; EvPaypalAgent;
                         EvPaypalPost (refundUrl transaction)]
                  end
              end
          | None =>
              ([EvFindById id],
               inl (Thrown
                      "Unknown payment to refund; no Stripe or PayPal necessary ID"))
          end
      end
  end.

Definition isStripeCall (e : Event) : bool :=
  match e with EvStripeRefund _ => true | _ => false end.

Definition isPaypalCall (e : Event) : bool :=
  match e with EvPaypalAgent | EvPaypalPost _ => true | _ => false end.

Definition isSave (e : Event) : bool :=
  match e with EvSave _ => true | _ => false end.

(** A world where everything works, with one card payment and one PayPal
    payment on file. *)
Definition card : Payment := mkPayment "p1" (Some "pi_1") (Some "tx_9") 300 0.

Definition wallet : Payment := mkPayment "p2" (Some "") (Some "tx_2") 500 100.

Definition shop : World :=
  mkWorld (fun id => inr (if String.eqb id "p1" then Some card
                          else if String.eqb id "p2" then Some wallet
                          else None))
          (fun _ => None) None (fun _ => None) (fun _ => None).

End Refund.

(** ** Facts about lists, sorting and the trace *)

Lemma callbacks_app (t1 t2 : list Event) :
  callbacks (t1 ++ t2) = callbacks t1 ++ callbacks t2.
Proof.
  induction t1 as [|e t1 IH]; simpl; [reflexivity|].
  destruct e; simpl; rewrite ?IH; reflexivity.
Qed.

Lemma countEv_app (p : Event -> bool) (t1 t2 : list Event) :
  countEv p (t1 ++ t2) = (countEv p t1 + countEv p t2)%nat.
Proof.
  unfold countEv. rewrite filter_app, length_app. reflexivity.
Qed.

Lemma upFrom_length (n : nat) : forall u, List.length (upFrom u n) = n.
Proof.
  induction n as [|n IH]; intros u; simpl; [reflexivity|].
  rewrite IH. reflexivity.
Qed.

Lemma increment_exact (x : Z) :
  - 9007199254740992 <= x + 1 <= 9007199254740992 -> increment x = x + 1.
Proof.
  intros H. unfold increment, roundToDouble. cbv zeta.
  assert (Z.leb (Z.abs (x + 1)) 9007199254740992 = true) as E
    by (apply Z.leb_le; lia).
  rewrite E. reflexivity.
Qed.

Lemma staysExact_step (u : Z) (n : nat) :
  staysExact u (S n) -> increment u = u + 1 /\ staysExact (u + 1) n.
Proof.
  unfold staysExact. intros [L H]. split; [apply increment_exact|]; lia.
Qed.

Lemma advance_exact (n : nat) :
  forall u, staysExact u n -> advance u n = u + Z.of_nat n.
Proof.
  induction n as [|n IH]; intros u H; cbn [advance]; [lia|].
  destruct (staysExact_step u n H) as [-> H']. rewrite IH by exact H'. lia.
Qed.

Lemma upFrom_nth (n : nat) :
  forall u k, staysExact u n -> (k < n)%nat ->
              nth k (upFrom u n) 0 = u + Z.of_nat k.
Proof.
  induction n as [|n IH]; intros u k H Hk; [lia|].
  destruct (staysExact_step u n H) as [E H'].
  destruct k as [|k]; cbn [upFrom nth].
  - lia.
  - rewrite E, IH by (assumption || lia). lia.
Qed.

Lemma insertByUid_perm (m : Messages.row) (l : list Messages.row) :
  Permutation (insertByUid m l) (m :: l).
Proof.
  induction l as [|x l IH]; simpl; [apply Permutation_refl|].
  destruct (Z.leb (Messages.uid m) (Messages.uid x)).
  - apply Permutation_refl.
  - eapply Permutation_trans; [apply perm_skip, IH | apply perm_swap].
Qed.

Lemma sortByUid_perm (l : list Messages.row) : Permutation (sortByUid l) l.
Proof.
  induction l as [|x l IH]; simpl; [apply perm_nil|].
  eapply Permutation_trans; [apply insertByUid_perm | apply perm_skip, IH].
Qed.

Lemma insertByUid_ascending (m : Messages.row) (l : list Messages.row) :
  ascending l -> ascending (insertByUid m l).
Proof.
  induction 1 as [|x l Hx Hl IH]; simpl.
  - constructor; [constructor | constructor].
  - destruct (Z.leb_spec (Messages.uid m) (Messages.uid x)) as [Hle|Hgt].
    + constructor.
      * constructor; [exact Hle|].
        eapply Forall_impl; [|exact Hx]. simpl. intros a Ha. lia.
      * constructor; assumption.
    + constructor; [|exact IH].
      eapply Permutation_Forall.
      * apply Permutation_sym, insertByUid_perm.
      * constructor; [lia | exact Hx].
Qed.

Lemma sortByUid_ascending (l : list Messages.row) : ascending (sortByUid l).
Proof.
  induction l as [|x l IH]; simpl.
  - constructor.
  - apply insertByUid_ascending, IH.
Qed.

(** ** The loop over the selected rows *)

Section LoopFacts.
Variable env : Env.
Variable session : Session.
Variable mailbox : Mailboxes.row.
Variable targetMailbox : Mailboxes.row.

Let gEvent := guardedEvent env session mailbox targetMailbox.


Lemma copyMessage_ok (i : nat) (m : Messages.row) (s s' : St) :
  copyMessage env session mailbox targetMailbox i m s = (inr tt, s') ->
  s' = mkSt (dbDone env session mailbox targetMailbox i (uidNext (loc s)) m
                    (db s))
            (locDone env targetMailbox i m (loc s))
            (trace s ++ rowTrace env session mailbox targetMailbox i
                                 (uidNext (loc s)) m)
            (stmtNo s + rowStmts env m)
  /\ (forall k, (stmtNo s <= k < stmtNo s + rowStmts env m)%nat ->
                env_sqlFault env k = None)
  /\ validTime (expiryTime env targetMailbox i) = true.
Proof.
  unfold copyMessage, bind, getLoc, putLoc, toISOString, throw, run, ret,
    dbDone, locDone, rowTrace, rowStmts, hasAttachments, attachmentIdsOf,
    set_loc, set_db, tick, emit.
  simpl.
  destruct (validTime (expiryTime env targetMailbox i)) eqn:V;
    [|discriminate].
  simpl.
  destruct (env_sqlFault env (stmtNo s)) eqn:F1; [discriminate|].
  simpl.
  destruct (0 <? List.length (env_getAttachments env (Messages.mimeTree m)))%nat.
  - simpl. destruct (env_sqlFault env (S (stmtNo s))) eqn:F2; [discriminate|].
    simpl. intros H. inversion H; subst; clear H.
    split; [|split; [|reflexivity]].
    + rewrite <- app_assoc. simpl. f_equal. lia.
    + intros k Hk.
      assert (k = stmtNo s \/ k = S (stmtNo s)) as [->| ->] by lia;
        assumption.
  - simpl. intros H. inversion H; subst; clear H.
    split; [|split; [|reflexivity]].
    + f_equal. lia.
    + intros k Hk. replace k with (stmtNo s) by lia. assumption.
Qed.

Lemma copyMessage_any (i : nat) (m : Messages.row) (s : St) :
  let s' := snd (copyMessage env session mailbox targetMailbox i m s) in
  (exists t, trace s' = trace s ++ t /\ Forall gEvent t)
  /\ lock (loc s') = lock (loc s)
  /\ err (loc s') = err (loc s).
Proof.
  unfold copyMessage, bind, getLoc, putLoc, toISOString, throw, run, ret,
    set_loc, set_db, tick, emit.
  simpl.
  destruct (validTime (expiryTime env targetMailbox i)); simpl.
  2:{ repeat split; try reflexivity.
      exists []. rewrite app_nil_r. split; [reflexivity|constructor]. }
  destruct (env_sqlFault env (stmtNo s)); simpl.
  - repeat split; try reflexivity.
    eexists; split; [reflexivity|].
    constructor; [simpl; eauto | constructor].
  - destruct (0 <? List.length (env_getAttachments env (Messages.mimeTree m)))%nat;
      simpl.
    + destruct (env_sqlFault env (S (stmtNo s))); simpl;
        (repeat split; try reflexivity;
         eexists; split; [rewrite <- app_assoc; reflexivity|];
         constructor; [simpl; eauto | constructor; [exact I|constructor]]).
    + repeat split; try reflexivity.
      eexists; split; [reflexivity|].
      constructor; [simpl; eauto | constructor].
Qed.

Lemma forEachMessage_ok (rows : list Messages.row) :
  forall i s s',
    forEachMessage env session mailbox targetMailbox i rows s = (inr tt, s') ->
    s' = mkSt (dbAfter env session mailbox targetMailbox i (uidNext (loc s))
                       rows (db s))
              (locAfter env targetMailbox i rows (loc s))
              (trace s ++ loopTrace env session mailbox targetMailbox i
                                    (uidNext (loc s)) rows)
              (stmtNo s + loopStmts env rows)
    /\ (forall k, (stmtNo s <= k < stmtNo s + loopStmts env rows)%nat ->
                  env_sqlFault env k = None)
    /\ (forall j, (i <= j < i + List.length rows)%nat ->
                  validTime (expiryTime env targetMailbox j) = true).
Proof.
  induction rows as [|m rest IH]; intros i s s' H.
  - simpl in H. unfold ret in H. inversion H; subst; clear H. simpl.
    split; [|split].
    + destruct s'; simpl. rewrite app_nil_r, Nat.add_0_r. reflexivity.
    + intros k Hk. lia.
    + intros j Hj. lia.
  - simpl in H. unfold bind in H.
    destruct (copyMessage env session mailbox targetMailbox i m s)
      as [[e|[]] s1] eqn:C; [discriminate|].
    apply copyMessage_ok in C. destruct C as (-> & F1 & V1).
    apply IH in H. simpl in H. destruct H as (-> & F2 & V2). simpl.
    split; [|split].
    + rewrite <- app_assoc. f_equal. lia.
    + intros k Hk.
      destruct (Nat.lt_ge_cases k (stmtNo s + rowStmts env m)) as [Hlt|Hge].
      * apply F1. lia.
      * apply F2. lia.
    + intros j Hj.
      destruct (Nat.eq_dec j i) as [->|Hne]; [exact V1 | apply V2; lia].
Qed.

Lemma forEachMessage_any (rows : list Messages.row) :
  forall i s,
    let s' := snd (forEachMessage env session mailbox targetMailbox i rows s) in
    (exists t, trace s' = trace s ++ t /\ Forall gEvent t)
    /\ lock (loc s') = lock (loc s)
    /\ err (loc s') = err (loc s).
Proof.
  induction rows as [|m rest IH]; intros i s; simpl.
  - repeat split; try reflexivity.
    exists []. rewrite app_nil_r. split; [reflexivity|constructor].
  - unfold bind.
    pose proof (copyMessage_any i m s) as A. simpl in A.
    destruct (copyMessage env session mailbox targetMailbox i m s)
      as [[e|[]] s1]; simpl in A |- *.
    + exact A.
    + destruct A as [[t1 [T1 G1]] [L1 E1]].
      specialize (IH (S i) s1). simpl in IH.
      destruct IH as [[t2 [T2 G2]] [L2 E2]].
      repeat split; try congruence.
      exists (t1 ++ t2). split.
      * rewrite T2, T1, app_assoc. reflexivity.
      * apply Forall_app. split; assumption.
Qed.
End LoopFacts.

(** ** What the closed forms amount to *)

Section ClosedFacts.
Variable env : Env.
Variable session : Session.
Variable mailbox : Mailboxes.row.
Variable targetMailbox : Mailboxes.row.

Lemma locAfter_spec (rows : list Messages.row) :
  forall i l,
    let l' := locAfter env targetMailbox i rows l in
    sourceIds l' = sourceIds l ++ map Messages._id rows
    /\ sourceUid l' = rev (map Messages.uid rows) ++ sourceUid l
    /\ destinationUid l'
       = rev (upFrom (uidNext l) (List.length rows)) ++ destinationUid l
    /\ List.length (entries l')
       = (List.length (entries l) + List.length rows)%nat
    /\ copiedMessages l' = copiedMessages l + Z.of_nat (List.length rows)
    /\ copiedStorage l' = copiedStorage l + sumSizes rows
    /\ err l' = err l
    /\ lock l' = lock l
    /\ uidNext l' = advance (uidNext l) (List.length rows).
Proof.
  induction rows as [|m rest IH]; intros i l; simpl.
  - rewrite app_nil_r. repeat split; try reflexivity; lia.
  - specialize (IH (S i) (locDone env targetMailbox i m l)).
    simpl in IH.
    destruct IH as (A & B & C & D & E & F & G & H & I).
    rewrite A, B, C, D, E, F, G, H, I. simpl.
    rewrite <- !app_assoc. simpl.
    repeat split; try reflexivity; try lia.
    rewrite length_app. simpl. lia.
Qed.

Lemma newRows_length (rows : list Messages.row) :
  forall i u,
    List.length (newRows env session mailbox targetMailbox i u rows)
    = List.length rows.
Proof.
  induction rows as [|m rest IH]; intros i u; simpl; [reflexivity|].
  rewrite IH. reflexivity.
Qed.

Lemma no_attachments (m : Messages.row) (h : string) :
  hasAttachments env m = false -> references env h m = false.
Proof.
  unfold hasAttachments, references.
  destruct (attachmentIdsOf env m); [reflexivity|discriminate].
Qed.


Lemma dbDone_attachments (i : nat) (u : Z) (m : Messages.row) (d : Db) :
  tAttachments (dbDone env session mailbox targetMailbox i u m d)
  = map (bump1 env i m) (tAttachments d).
Proof.
  unfold dbDone. simpl.
  destruct (hasAttachments env m) eqn:H.
  - reflexivity.
  - rewrite <- (map_id (tAttachments d)) at 1.
    apply map_ext. intros a. unfold bump1.
    rewrite no_attachments by exact H. reflexivity.
Qed.

Lemma bumped_nil (i : nat) (a : Attachments.row) : bumped env i [] a = a.
Proof.
  destruct a. unfold bumped, refCount. simpl. f_equal; lia.
Qed.

Lemma bumped_cons (i : nat) (m : Messages.row) (rest : list Messages.row)
    (a : Attachments.row) :
  bumped env (S i) rest (bump1 env i m a) = bumped env i (m :: rest) a.
Proof.
  unfold bumped, bump1, refCount. simpl.
  destruct (references env (Attachments.hash a) m) eqn:R; simpl;
    rewrite ?R; simpl; f_equal; lia.
Qed.

Lemma dbAfter_spec (rows : list Messages.row) :
  forall i u d,
    let d' := dbAfter env session mailbox targetMailbox i u rows d in
    tMessages d'
    = tMessages d ++ newRows env session mailbox targetMailbox i u rows
    /\ tAttachments d' = map (bumped env i rows) (tAttachments d)
    /\ tMailboxes d' = tMailboxes d.
Proof.
  induction rows as [|m rest IH]; intros i u d; cbn [dbAfter newRows].
  - cbv zeta. rewrite app_nil_r. repeat split; try reflexivity.
    rewrite <- (map_id (tAttachments d)) at 1.
    apply map_ext. intros a. symmetry. apply bumped_nil.
  - specialize (IH (S i) (increment u)
                   (dbDone env session mailbox targetMailbox i u m d)).
    cbv zeta in IH |- *. destruct IH as (A & B & C).
    rewrite A, B, C. repeat split.
    + unfold dbDone. simpl. rewrite <- app_assoc. reflexivity.
    + rewrite dbDone_attachments, map_map.
      apply map_ext. intros a. apply bumped_cons.
Qed.

Lemma loopTrace_guarded (rows : list Messages.row) :
  forall i u,
    Forall (guardedEvent env session mailbox targetMailbox)
           (loopTrace env session mailbox targetMailbox i u rows)
    /\ countEv isMailboxWrite
               (loopTrace env session mailbox targetMailbox i u rows) = O.
Proof.
  induction rows as [|m rest IH]; intros i u; simpl.
  - split; [constructor|reflexivity].
  - destruct (IH (S i) (increment u)) as [G W]. unfold rowTrace. split.
    + constructor; [simpl; eauto|].
      destruct (hasAttachments env m); simpl;
        [constructor; [exact I|exact G] | exact G].
    + unfold countEv in *. simpl.
      destruct (hasAttachments env m); simpl; exact W.
Qed.
End ClosedFacts.

Lemma guardedEvent_callbacks env session mailbox targetMailbox
    (t : list Event) :
  Forall (guardedEvent env session mailbox targetMailbox) t ->
  callbacks t = [] /\ countEv isRelease t = O.
Proof.
  induction 1 as [|e t He Ht [IH1 IH2]]; [split; reflexivity|].
  unfold countEv in *.
  destruct e; simpl in He |- *; try contradiction; split; assumption.
Qed.

(** ** The transaction and the guarded section *)

Section GuardedFacts.
Variable env : Env.
Variable update : Update.
Variable session : Session.
Variable mailbox : Mailboxes.row.
Variable targetMailbox : Mailboxes.row.

Let gEvent := guardedEvent env session mailbox targetMailbox.

Lemma run_any (st : Statement) (s : St) :
  trace (snd (run env st s)) = trace s ++ [EvRun st]
  /\ loc (snd (run env st s)) = loc s.
Proof.
  unfold run, set_db, tick, emit.
  destruct (env_sqlFault env (stmtNo s)); simpl; split; reflexivity.
Qed.

Lemma run_ok (st : Statement) (s s' : St) :
  run env st s = (inr tt, s') ->
  s' = mkSt (exec st (db s)) (loc s) (trace s ++ [EvRun st]) (S (stmtNo s))
  /\ env_sqlFault env (stmtNo s) = None.
Proof.
  unfold run, set_db, tick, emit.
  destruct (env_sqlFault env (stmtNo s)); simpl; intros H;
    inversion H; subst; split; reflexivity.
Qed.


Lemma batch_ok (rows : list Messages.row) (s s' : St) :
  batch env session mailbox targetMailbox rows s = (inr tt, s') ->
  s' = mkSt (batchDb env session mailbox targetMailbox rows (loc s) (db s))
            (locAfter env targetMailbox 0 rows (loc s))
            (trace s ++ batchTrace env session mailbox targetMailbox rows (loc s))
            (stmtNo s + batchStmts env rows)
  /\ (forall k, (stmtNo s <= k < stmtNo s + batchStmts env rows)%nat ->
                env_sqlFault env k = None)
  /\ (forall j, (j < List.length rows)%nat ->
                validTime (expiryTime env targetMailbox j) = true).
Proof.
  unfold batch, bind, getLoc, batchDb, batchTrace, batchStmts.
  destruct (forEachMessage env session mailbox targetMailbox 0 rows s)
    as [[e|[]] s1] eqn:L; [discriminate|].
  apply forEachMessage_ok in L. destruct L as (-> & F & V).
  cbn [loc].
  match goal with
  | |- context [run env ?st ?x] =>
      destruct (run env st x) as [[e|[]] s2] eqn:R1; [discriminate|]
  end.
  apply run_ok in R1. cbn [db loc trace stmtNo] in R1.
  destruct R1 as [-> F1]. cbn [loc].
  intros R2. apply run_ok in R2. cbn [db loc trace stmtNo] in R2.
  destruct R2 as [-> F2]. split; [|split].
  - rewrite <- !app_assoc. simpl. f_equal. lia.
  - intros k Hk.
    destruct (Nat.lt_ge_cases k (stmtNo s + loopStmts env rows)) as [H|H].
    + apply F. lia.
    + assert (k = (stmtNo s + loopStmts env rows)%nat
              \/ k = S (stmtNo s + loopStmts env rows)) as [->| ->] by lia;
        assumption.
  - intros j Hj. apply V. lia.
Qed.

Lemma batch_any (rows : list Messages.row) (s : St) :
  let s' := snd (batch env session mailbox targetMailbox rows s) in
  (exists t, trace s' = trace s ++ t /\ Forall gEvent t)
  /\ lock (loc s') = lock (loc s)
  /\ err (loc s') = err (loc s).
Proof.
  unfold batch, bind, getLoc.
  pose proof (forEachMessage_any env session mailbox targetMailbox rows 0 s)
    as A.
  cbv zeta in A.
  destruct (forEachMessage env session mailbox targetMailbox 0 rows s)
    as [[e|[]] s1]; cbn [snd] in A |- *; [exact A|].
  destruct A as [[t1 [T1 G1]] [L1 E1]].
  match goal with
  | |- context [run env ?st s1] =>
      pose proof (run_any st s1) as [T2 L2];
      destruct (run env st s1) as [[e|[]] s2]; cbn [snd] in T2, L2 |- *
  end.
  - rewrite L2. repeat split; try assumption.
    exists (t1 ++ [EvRun (SetCopied (sourceIds (loc s1)))]). split.
    + rewrite T2, T1, app_assoc. reflexivity.
    + apply Forall_app. split; [exact G1|]. constructor; [exact I|constructor].
  - match goal with
    | |- context [run env ?st s2] => pose proof (run_any st s2) as [T3 L3]
    end.
    rewrite T3, L3, T2, L2, T1. repeat split; try assumption.
    eexists (t1 ++ [_; _]). split.
    + rewrite <- !app_assoc. reflexivity.
    + apply Forall_app. split; [exact G1|].
      constructor; [exact I|]. constructor; [exact I|constructor].
Qed.

Lemma transaction_fail (body : M unit) (s : St) (e : Error) :
  fst (transaction env body s) = inl e ->
  db (snd (transaction env body s)) = db s.
Proof.
  unfold transaction, set_db, emit.
  destruct (env_begin env); [reflexivity|].
  destruct (body _) as [[e'|u] s1].
  - reflexivity.
  - destruct (env_commit env); [reflexivity|discriminate].
Qed.

Lemma transaction_ok (body : M unit) (s s' : St) :
  transaction env body s = (inr tt, s') ->
  env_begin env = None /\ env_commit env = None
  /\ exists s1, body (emit EvBegin s) = (inr tt, s1)
                /\ s' = emit EvCommit s1.
Proof.
  unfold transaction.
  destruct (env_begin env); [discriminate|].
  destruct (body _) as [[e'|[]] s1]; [discriminate|].
  destruct (env_commit env); [discriminate|].
  intros H. inversion H; subst. eauto.
Qed.
End GuardedFacts.

Section GuardedSection.
Variable env : Env.
Variable update : Update.
Variable session : Session.
Variable mailbox : Mailboxes.row.
Variable targetMailbox : Mailboxes.row.

Let gEvent := guardedEvent env session mailbox targetMailbox.
Let cond := condition env update mailbox.

Lemma transaction_any (body : M unit) (s : St) :
  (forall s0,
      (exists t, trace (snd (body s0)) = trace s0 ++ t /\ Forall gEvent t)
      /\ lock (loc (snd (body s0))) = lock (loc s0)
      /\ err (loc (snd (body s0))) = err (loc s0)) ->
  let s' := snd (transaction env body s) in
  (exists t, trace s' = trace s ++ t /\ Forall gEvent t)
  /\ lock (loc s') = lock (loc s)
  /\ err (loc s') = err (loc s).
Proof.
  intros B. unfold transaction.
  destruct (env_begin env).
  - simpl. repeat split; try reflexivity.
    exists [EvBegin]. split; [reflexivity|]. constructor; [exact I|constructor].
  - specialize (B (emit EvBegin s)).
    destruct (body (emit EvBegin s)) as [[e|u] s1]; cbn [snd] in B |- *;
      destruct B as [[t [T G]] [L E]]; cbn [emit trace loc] in T, L, E.
    + unfold emit, set_db. simpl. repeat split; try assumption.
      exists ([EvBegin] ++ t ++ [EvRollback]). split.
      * rewrite T, <- !app_assoc. reflexivity.
      * constructor; [exact I|]. apply Forall_app. split; [exact G|].
        constructor; [exact I|constructor].
    + destruct (env_commit env); unfold emit, set_db; simpl;
        repeat split; try assumption.
      * exists ([EvBegin] ++ t ++ [EvCommit; EvRollback]). split.
        -- rewrite T, <- !app_assoc. reflexivity.
        -- constructor; [exact I|]. apply Forall_app. split; [exact G|].
           constructor; [exact I|]. constructor; [exact I|constructor].
      * exists ([EvBegin] ++ t ++ [EvCommit]). split.
        -- rewrite T, <- !app_assoc. reflexivity.
        -- constructor; [exact I|]. apply Forall_app. split; [exact G|].
           constructor; [exact I|constructor].
Qed.

Lemma guarded_any (s : St) :
  let s' := snd (guarded env update session mailbox targetMailbox s) in
  (exists t, trace s' = trace s ++ t /\ Forall gEvent t)
  /\ lock (loc s')
     = match env_acquireLock env with
       | inr k => Some k
       | inl _ => lock (loc s)
       end
  /\ err (loc s') = err (loc s)
  /\ (forall e,
         fst (guarded env update session mailbox targetMailbox s) = inl e ->
         db s' = db s).
Proof.
  unfold guarded, bind, call, call_, getLoc, putLoc, getDb, ret,
    set_loc, emit.
  destruct (env_acquireLock env) as [e|k]; cbn [fst snd trace loc db].
  - repeat split; try reflexivity.
    exists [EvAcquireLock]. split; [reflexivity|].
    constructor; [exact I|constructor].
  - destruct (env_select env) as [e|]; cbn [fst snd trace loc db lock err].
    + repeat split; try reflexivity.
      exists [EvAcquireLock; EvSelect cond]. split.
      * rewrite <- app_assoc. reflexivity.
      * constructor; [exact I|]. constructor; [exact I|constructor].
    + fold cond.
      destruct (0 <? List.length (selectMessages cond (db s)))%nat.
      * match goal with
        | |- context [transaction env ?b ?x] =>
            pose proof (transaction_any b x
                          (batch_any env session mailbox targetMailbox _))
              as A;
            pose proof (transaction_fail env b x) as F
        end.
        cbv zeta in A. destruct A as [[t [T G]] [L E]].
        cbn [trace loc lock err db] in T, L, E, F.
        repeat split; try assumption.
        exists ([EvAcquireLock; EvSelect cond] ++ t). split.
        -- rewrite T, <- !app_assoc. reflexivity.
        -- constructor; [exact I|]. constructor; [exact I|exact G].
      * cbn [fst snd trace loc db lock err].
        repeat split; try reflexivity.
        exists [EvAcquireLock; EvSelect cond]. split.
        -- rewrite <- app_assoc. reflexivity.
        -- constructor; [exact I|]. constructor; [exact I|constructor].
Qed.


Lemma guarded_ok (s s' : St) :
  loc s = initLocals ->
  guarded env update session mailbox targetMailbox s = (inr tt, s') ->
  exists k,
    env_acquireLock env = inr k /\ env_select env = None
    /\ match selected env update mailbox (db s) with
       | [] =>
           s' = mkSt (db s) (lockedLocals targetMailbox k)
                     (trace s ++ [EvAcquireLock; EvSelect cond]) (stmtNo s)
       | rows =>
           env_begin env = None /\ env_commit env = None
           /\ (forall n, (stmtNo s <= n < stmtNo s + batchStmts env rows)%nat ->
                         env_sqlFault env n = None)
           /\ (forall j, (j < List.length rows)%nat ->
                         validTime (expiryTime env targetMailbox j) = true)
           /\ s' = mkSt (batchDb env session mailbox targetMailbox rows
                                 (lockedLocals targetMailbox k) (db s))
                        (locAfter env targetMailbox 0 rows (lockedLocals targetMailbox k))
                        (trace s
                         ++ [EvAcquireLock; EvSelect cond; EvBegin]
                         ++ batchTrace env session mailbox targetMailbox
                                       rows (lockedLocals targetMailbox k)
                         ++ [EvCommit])
                        (stmtNo s + batchStmts env rows)
       end.
Proof.
  intros L0. unfold guarded, bind, call, call_, getLoc, putLoc, getDb, ret,
    set_loc, emit, selected.
  destruct (env_acquireLock env) as [e|k]; [discriminate|].
  cbn [fst snd trace loc db stmtNo].
  destruct (env_select env) as [e|]; [discriminate|].
  cbn [fst snd trace loc db stmtNo]. fold cond. rewrite L0.
  cbn [sourceIds sourceUid destinationUid entries copiedMessages
       copiedStorage err initLocals].
  fold (lockedLocals targetMailbox k).
  intros H. exists k. split; [reflexivity|]. split; [reflexivity|].
  destruct (selectMessages cond (db s)) as [|m rest] eqn:R.
  - simpl in H. inversion H; subst.
    rewrite <- app_assoc. reflexivity.
  - cbn [List.length Nat.ltb Nat.leb] in H.
    apply transaction_ok in H. destruct H as (B & C & s1 & H & ->).
    apply batch_ok in H. cbn [emit db loc trace stmtNo] in H.
    destruct H as (-> & F & V).
    repeat split; try assumption.
    unfold emit. cbn [db loc trace stmtNo].
    rewrite <- !app_assoc. reflexivity.
Qed.
End GuardedSection.

(** ** From the guarded section to the callback *)



Section Tail.
Variable env : Env.
Variable update : Update.
Variable session : Session.
Variable mailbox : Mailboxes.row.
Variable targetMailbox : Mailboxes.row.


Lemma copyInto_inv (s s1 s' : St) (g r : Error + unit) :
  err (loc s) = None ->
  guarded env update session mailbox targetMailbox s = (g, s1) ->
  copyInto env update session mailbox targetMailbox s = (r, s') ->
  db s' = db s1
  /\ stmtNo s' = stmtNo s1
  /\ match g with
     | inl e => err (loc s') = Some e
     | inr _ => loc s' = loc s1 /\ err (loc s1) = None
     end
  /\ exists t,
      trace s' = trace s1 ++ t
      /\ forallb isTailEvent t = true
      /\ countEv isRelease t
         = (if lockSuccess (lock (loc s1)) then 1%nat else O)
      /\ match g with
         | inl e => r = inl e /\ callbacks t = []
         | inr _ =>
             match r with
             | inr _ => callbacks t = [FnResponse true (responseOf targetMailbox (loc s1))]
             | inl e => callbacks t = [] /\ env_addEntries env = Some e
             end
         end.
Proof.
  intros E0 G.
  pose proof (guarded_any env update session mailbox targetMailbox s) as A.
  cbv zeta in A. rewrite G in A. cbn [fst snd] in A.
  destruct A as (_ & _ & E1 & _). rewrite E0 in E1.
  unfold copyInto, copyIntoFn, callFn, returns, bind, try_catch, getLoc, putLoc, call_, log, throw, ret,
    set_loc, emit, responseOf.
  rewrite G. destruct g as [e|[]]; cbn [fst snd trace loc db stmtNo lock err].
  - destruct (lockSuccess (lock (loc s1))).
    + destruct (env_releaseLock env); cbn [fst snd trace loc db stmtNo err];
        intros H; inversion H; subst; cbn [db trace loc err stmtNo];
        (do 3 (split; [reflexivity|]));
        eexists; (split; [rewrite <- ?app_assoc; reflexivity|]);
        repeat split; reflexivity.
    + intros H; inversion H; subst; cbn [db trace loc err stmtNo].
      do 3 (split; [reflexivity|]).
      exists []. rewrite app_nil_r. repeat split; reflexivity.
  - rewrite E1.
    destruct (lockSuccess (lock (loc s1)));
      split_oracles;
      intros H; inversion H; subst; cbn [db trace loc err stmtNo];
      (do 2 (split; [reflexivity|])); (split; [split; reflexivity|]);
      eexists; (split; [rewrite <- ?app_assoc; reflexivity|]);
      repeat split; reflexivity.
Qed.
End Tail.

(** ** The handler as a whole *)

Section Whole.
Variable env : Env.
Variable mailboxId : string.
Variable update : Update.
Variable session : Session.
Variable d : Db.

Let final := runCopy env mailboxId update session d.

Lemma runCopy_reach (mailbox targetMailbox : Mailboxes.row) :
  env_wsp env = None ->
  env_refreshSession env = None ->
  env_isOverQuota env 0 = inr false ->
  findOne (by_id mailboxId) d = Some mailbox ->
  findOne (by_path (destination update)) d = Some targetMailbox ->
  final = finish env (copyInto env update session mailbox targetMailbox
                               (started d)).
Proof.
  intros W R Q A B.
  unfold final, runCopy, onCopy, onCopyFn. rewrite W.
  unfold try_catch, copyLocal, copyLocalFn, callFn, returns, bind, call_, call, putLoc, getDb, throw, ret,
    log, set_loc, emit.
  rewrite R, Q. cbn [fst snd trace loc db stmtNo app].
  rewrite A, B.
  fold (started d).
  change (copyIntoFn env update session mailbox targetMailbox
                     (fun _ : FnArgs => None))
    with (copyInto env update session mailbox targetMailbox).
  destruct (copyInto env update session mailbox targetMailbox (started d))
    as [[e|u] s']; reflexivity.
Qed.

Lemma callbacks_finish (mailbox targetMailbox : Mailboxes.row) :
  let o := copyInto env update session mailbox targetMailbox (started d) in
  callbacks (trace (finish env o))
  = match fst o with
    | inl e => [FnError (env_refineAndLogError env e)]
    | inr _ =>
        [FnResponse true
           (responseOf targetMailbox
              (loc (snd (guarded env update session mailbox targetMailbox
                                 (started d)))))]
    end.
Proof.
  cbv zeta.
  destruct (copyInto env update session mailbox targetMailbox (started d))
    as [r s'] eqn:C.
  destruct (guarded env update session mailbox targetMailbox (started d))
    as [g s1] eqn:G.
  pose proof (guarded_any env update session mailbox targetMailbox
                          (started d)) as A.
  cbv zeta in A. rewrite G in A. cbn [fst snd] in A.
  destruct A as ([tg [Tg Gg]] & _).
  apply guardedEvent_callbacks in Gg. destruct Gg as [Cg _].
  pose proof (copyInto_inv env update session mailbox targetMailbox
                           (started d) s1 s' g r eq_refl G C) as I.
  destruct I as (_ & _ & _ & t & T & _ & _ & K).
  cbn [fst snd].
  assert (callbacks (trace s') = callbacks t) as E.
  { rewrite T, Tg, !callbacks_app, Cg. reflexivity. }
  destruct g as [e|[]], r as [e'|u]; cbn [finish emit trace].
  - destruct K as [K1 K2]. inversion K1; subst.
    rewrite callbacks_app, E, K2. reflexivity.
  - destruct K as [K1 _]. discriminate.
  - destruct K as [K1 _]. rewrite callbacks_app, E, K1. reflexivity.
  - rewrite E, K. reflexivity.
Qed.

Lemma success_reach (ok : bool) (r : Response) :
  env_wsp env = None ->
  callbacks (trace final) = [FnResponse ok r] ->
  env_refreshSession env = None
  /\ env_isOverQuota env 0 = inr false
  /\ exists mailbox targetMailbox,
      findOne (by_id mailboxId) d = Some mailbox
      /\ findOne (by_path (destination update)) d = Some targetMailbox.
Proof.
  intros W. unfold final, runCopy, onCopy, onCopyFn. rewrite W.
  unfold try_catch, copyLocal, copyLocalFn, callFn, returns, bind, call_, call, putLoc, getDb, throw, ret,
    log, set_loc, emit.
  destruct (env_refreshSession env);
    cbn [fst snd trace loc db stmtNo app callbacks]; [discriminate|].
  destruct (env_isOverQuota env 0) as [e|[]];
    cbn [fst snd trace loc db stmtNo app callbacks]; try discriminate.
  destruct (findOne (by_id mailboxId) d) as [mailbox|];
    cbn [fst snd trace loc db stmtNo app callbacks]; [|discriminate].
  destruct (findOne (by_path (destination update)) d) as [targetMailbox|];
    cbn [fst snd trace loc db stmtNo app callbacks]; [|discriminate].
  intros _. repeat split. eauto.
Qed.

(** Everything a successful local COPY determines. *)
Lemma success_shape (ok : bool) (r : Response) :
  env_wsp env = None ->
  callbacks (trace final) = [FnResponse ok r] ->
  exists mailbox targetMailbox k t,
    findOne (by_id mailboxId) d = Some mailbox
    /\ findOne (by_path (destination update)) d = Some targetMailbox
    /\ env_acquireLock env = inr k
    /\ ok = true
    /\ r = responseOf targetMailbox
              (locAfter env targetMailbox 0 (selected env update mailbox d)
                        (lockedLocals targetMailbox k))
    /\ loc final
       = locAfter env targetMailbox 0 (selected env update mailbox d)
                  (lockedLocals targetMailbox k)
    /\ db final
       = match selected env update mailbox d with
         | [] => d
         | rows => batchDb env session mailbox targetMailbox rows
                           (lockedLocals targetMailbox k) d
         end
    /\ trace final
       = [EvRefreshSession; EvIsOverQuota 0; EvAcquireLock;
          EvSelect (condition env update mailbox)]
         ++ match selected env update mailbox d with
            | [] => []
            | rows => EvBegin
                      :: batchTrace env session mailbox targetMailbox rows
                                    (lockedLocals targetMailbox k)
                      ++ [EvCommit]
            end
         ++ t
    /\ forallb isTailEvent t = true
    /\ countEv isRelease t = (if success k then 1%nat else O).
Proof.
  intros W S.
  destruct (success_reach ok r W S) as (R & Q & mailbox & target & A & B).
  pose proof (runCopy_reach mailbox target W R Q A B) as F.
  pose proof (callbacks_finish mailbox target) as CF. cbv zeta in CF.
  rewrite <- F, S in CF.
  destruct (copyInto env update session mailbox target (started d))
    as [o s'] eqn:C.
  destruct (guarded env update session mailbox target (started d))
    as [g s1] eqn:G.
  cbn [fst snd] in CF.
  destruct o as [e|[]]; [discriminate|].
  inversion CF; subst ok r. clear CF.
  pose proof (copyInto_inv env update session mailbox target
                           (started d) s1 s' g (inr tt) eq_refl G C) as I.
  destruct I as (D & _ & L & t & T & TE & TR & K).
  destruct g as [e|[]]; [destruct K; discriminate|].
  destruct L as [L _].
  apply guarded_ok in G; [|reflexivity].
  destruct G as (k & AL & _ & G).
  cbn [finish] in F. rewrite F.
  exists mailbox, target, k, t.
  unfold started in G. cbn [db trace stmtNo] in G.
  destruct (selected env update mailbox d) as [|m rest] eqn:Sel.
  - subst s1. cbn [db loc trace lock] in *. rewrite D, L, T.
    cbn [lockSuccess lockedLocals lock] in TR.
    repeat split; try assumption; try reflexivity.
  - destruct G as (_ & _ & _ & _ & ->). cbn [db loc trace lock] in *.
    rewrite D, L, T, <- !app_assoc.
    assert (lock (locAfter env target 0 (m :: rest) (lockedLocals target k))
            = Some k) as LK.
    { pose proof (locAfter_spec env target (m :: rest) 0
                                (lockedLocals target k)) as P.
      cbv zeta in P. destruct P as (_ & _ & _ & _ & _ & _ & _ & P & _).
      exact P. }
    rewrite LK in TR. cbn [lockSuccess] in TR.
    repeat split; try assumption; try reflexivity.
    cbn [app]. rewrite <- app_assoc. reflexivity.
Qed.
End Whole.


Lemma rev_upFrom_nth (n : nat) (u : Z) (i : nat) :
  staysExact u n ->
  (i < n)%nat -> nth i (rev (upFrom u n)) 0 = u + Z.of_nat (n - S i).
Proof.
  intros E H. rewrite rev_nth by (rewrite upFrom_length; exact H).
  rewrite upFrom_length. apply upFrom_nth; [exact E | lia].
Qed.

Lemma ascending_uids (l : list Messages.row) :
  ascending l ->
  forall i j, (i <= j)%nat -> (j < List.length l)%nat ->
    nth i (map Messages.uid l) 0 <= nth j (map Messages.uid l) 0.
Proof.
  induction 1 as [|x l Hx Hl IH]; intros i j Hij Hj; simpl in Hj; [lia|].
  destruct i as [|i], j as [|j]; simpl; try lia.
  - rewrite Forall_forall in Hx.
    rewrite (nth_indep _ 0 (Messages.uid x)) by (rewrite length_map; lia).
    rewrite map_nth. apply Hx, nth_In. lia.
  - apply IH; lia.
Qed.

Lemma locked_response (env : Env) (targetMailbox : Mailboxes.row)
    (rows : list Messages.row) (k : Lock) :
  let l := locAfter env targetMailbox 0 rows (lockedLocals targetMailbox k) in
  sourceIds l = map Messages._id rows
  /\ sourceUid l = rev (map Messages.uid rows)
  /\ destinationUid l
     = rev (upFrom (Mailboxes.uidNext targetMailbox) (List.length rows))
  /\ copiedMessages l = Z.of_nat (List.length rows)
  /\ copiedStorage l = sumSizes rows
  /\ uidNext l
     = advance (Mailboxes.uidNext targetMailbox) (List.length rows).
Proof.
  pose proof (locAfter_spec env targetMailbox rows 0
                            (lockedLocals targetMailbox k)) as P.
  cbv zeta in P |- *.
  destruct P as (A & B & C & _ & E & F & _ & _ & I).
  rewrite A, B, C, E, F, I. unfold lockedLocals. simpl.
  rewrite !app_nil_r. repeat split; reflexivity.
Qed.

(** The pairs (source uid, destination uid) of a response: the i-th
    selected row received the i-th uid counted from [uidNext]. *)
Lemma response_pairs (rows : list Messages.row) (u0 a da : Z) :
  staysExact u0 (List.length rows) ->
  In (a, da) (combine (rev (map Messages.uid rows))
                      (rev (upFrom u0 (List.length rows)))) ->
  exists i, (i < List.length rows)%nat
            /\ a = nth i (map Messages.uid rows) 0
            /\ da = u0 + Z.of_nat i.
Proof.
  intros Ex H.
  assert (List.length (rev (map Messages.uid rows))
          = List.length (rev (upFrom u0 (List.length rows)))) as EL.
  { rewrite !length_rev, length_map, upFrom_length. reflexivity. }
  apply (In_nth _ _ (0, 0)) in H. destruct H as (n & Hn & E).
  rewrite combine_nth in E by exact EL.
  rewrite length_combine, <- EL, Nat.min_id, length_rev, length_map in Hn.
  inversion E as [[Ea Eb]]. clear E.
  rewrite rev_nth by (rewrite length_map; lia).
  rewrite rev_nth by (rewrite upFrom_length; lia).
  rewrite length_map, upFrom_length.
  exists (List.length rows - S n)%nat. split; [lia|]. split; [reflexivity|].
  apply upFrom_nth; [exact Ex | lia].
Qed.

Lemma tail_counts (t : list Event) :
  forallb isTailEvent t = true ->
  countEv isMailboxWrite t = O
  /\ countEv isAcquire t = O
  /\ countEv isStorageAccess t = O.
Proof.
  unfold countEv.
  induction t as [|e t IH]; simpl; [auto|].
  intros H. apply andb_prop in H. destruct H as [He Ht].
  destruct e; simpl in He |- *; try discriminate; auto.
Qed.

Lemma find_setUidNext (p : string) (u : Z) (t : Mailboxes.row)
    (l : list Mailboxes.row) :
  find (by_path p) l = Some t ->
  find (by_path p) (map (setUidNext (Mailboxes._id t) u) l)
  = Some (Mailboxes.set_uidNext u t).
Proof.
  induction l as [|x l IH]; simpl; [discriminate|].
  assert (by_path p (setUidNext (Mailboxes._id t) u x) = by_path p x) as E.
  { unfold setUidNext, by_path.
    destruct (String.eqb (Mailboxes._id x) (Mailboxes._id t)); reflexivity. }
  rewrite E. destruct (by_path p x).
  - intros H. inversion H; subst. unfold setUidNext.
    rewrite String.eqb_refl. reflexivity.
  - exact IH.
Qed.

Lemma batchDb_tables (env : Env) (session : Session)
    (mailbox targetMailbox : Mailboxes.row) (rows : list Messages.row)
    (k : Lock) (d : Db) :
  let l := locAfter env targetMailbox 0 rows (lockedLocals targetMailbox k) in
  let d' := batchDb env session mailbox targetMailbox rows
                    (lockedLocals targetMailbox k) d in
  tMessages d'
  = map (markCopied (map Messages._id rows))
        (tMessages d
         ++ newRows env session mailbox targetMailbox 0
                    (Mailboxes.uidNext targetMailbox) rows)
  /\ tAttachments d' = map (bumped env 0 rows) (tAttachments d)
  /\ tMailboxes d'
     = map (setUidNext (Mailboxes._id targetMailbox)
                       (advance (Mailboxes.uidNext targetMailbox)
                                (List.length rows)))
           (tMailboxes d).
Proof.
  cbv zeta. unfold batchDb.
  pose proof (locked_response env targetMailbox rows k) as P.
  cbv zeta in P. destruct P as (A & _ & _ & _ & _ & U).
  rewrite A, U.
  pose proof (dbAfter_spec env session mailbox targetMailbox rows 0
                           (Mailboxes.uidNext targetMailbox) d) as Q.
  cbv zeta in Q. destruct Q as (M & T & B).
  cbn [exec tMessages tAttachments tMailboxes lockedLocals uidNext].
  rewrite M, T, B. repeat split; reflexivity.
Qed.

(** ** The claims *)

(** Shared step: a successful COPY with both mailboxes known. *)
Lemma success_known (env : Env) (mailboxId : string) (update : Update)
    (session : Session) (d : Db) (mailbox targetMailbox : Mailboxes.row)
    (r : Response) :
  findOne (by_id mailboxId) d = Some mailbox ->
  findOne (by_path (destination update)) d = Some targetMailbox ->
  succeeds env mailboxId update session d r ->
  exists k t,
    env_acquireLock env = inr k
    /\ r = responseOf targetMailbox
             (locAfter env targetMailbox 0 (selected env update mailbox d)
                       (lockedLocals targetMailbox k))
    /\ loc (runCopy env mailboxId update session d)
       = locAfter env targetMailbox 0 (selected env update mailbox d)
                  (lockedLocals targetMailbox k)
    /\ db (runCopy env mailboxId update session d)
       = match selected env update mailbox d with
         | [] => d
         | rows => batchDb env session mailbox targetMailbox rows
                           (lockedLocals targetMailbox k) d
         end
    /\ trace (runCopy env mailboxId update session d)
       = [EvRefreshSession; EvIsOverQuota 0; EvAcquireLock;
          EvSelect (condition env update mailbox)]
         ++ match selected env update mailbox d with
            | [] => []
            | rows => EvBegin
                      :: batchTrace env session mailbox targetMailbox rows
                                    (lockedLocals targetMailbox k)
                      ++ [EvCommit]
            end
         ++ t
    /\ forallb isTailEvent t = true
    /\ countEv isRelease t = (if success k then 1%nat else O).
Proof.
  intros A B [W S].
  destruct (success_shape env mailboxId update session d true r W S)
    as (mb & tg & k & t & A' & B' & AL & _ & R & L & D & T & TE & TR).
  rewrite A in A'. rewrite B in B'.
  inversion A'; inversion B'; subst mb tg.
  exists k, t. repeat split; assumption.
Qed.

(** C1 (as amended).  For every successful COPY the response lists the
    source uids of the selected rows newest first, that is in descending
    order (the reverse of the ascending order in which the rows are read),
    and the destination uids as the parallel list of the values the counter
    took, newest first.  That list is strictly descending as long as the
    counter stays exact: it is a double, and from 2^53 on it no longer
    advances by one. *)
Theorem copy_response_lists_uids_in_reverse
    (env : Env) (mailboxId : string) (update : Update) (session : Session)
    (d : Db) (mailbox targetMailbox : Mailboxes.row) (r : Response) :
  findOne (by_id mailboxId) d = Some mailbox ->
  findOne (by_path (destination update)) d = Some targetMailbox ->
  succeeds env mailboxId update session d r ->
  let rows := selected env update mailbox d in
  ascending rows
  /\ Permutation rows
       (filter (matchesCondition (condition env update mailbox)) (tMessages d))
  /\ respSourceUid r = rev (map Messages.uid rows)
  /\ respDestinationUid r
     = rev (upFrom (Mailboxes.uidNext targetMailbox) (List.length rows))
  /\ respUidValidity r = Mailboxes.uidValidity targetMailbox
  /\ (forall i j, (i < j < List.length rows)%nat ->
                  nth j (respSourceUid r) 0 <= nth i (respSourceUid r) 0)
  /\ (staysExact (Mailboxes.uidNext targetMailbox) (List.length rows) ->
      forall i j, (i < j < List.length rows)%nat ->
                  nth j (respDestinationUid r) 0
                  < nth i (respDestinationUid r) 0).
Proof.
  intros A B S.
  destruct (success_known _ _ _ _ _ _ _ _ A B S) as (k & t & _ & R & _).
  pose proof (locked_response env targetMailbox
                (selected env update mailbox d) k) as P.
  cbv zeta in P |- *. destruct P as (_ & SU & DU & _).
  subst r. unfold responseOf. cbn [respSourceUid respDestinationUid
                                    respUidValidity].
  rewrite SU, DU.
  assert (ascending (selected env update mailbox d)) as Asc
    by apply sortByUid_ascending.
  repeat split; try reflexivity.
  - exact Asc.
  - apply sortByUid_perm.
  - intros i j Hij.
    rewrite !rev_nth by (rewrite length_map; lia).
    rewrite length_map. apply ascending_uids; [exact Asc|lia|lia].
  - intros Ex i j Hij. rewrite !rev_upFrom_nth by (assumption || lia). lia.
Qed.

Lemma copy_response_lists_uids_in_reverse_witness :
  succeeds Scenario.quiet "A" Scenario.copyAll Scenario.sess Scenario.account
           (mkResponse 77 [9; 7; 5] [102; 101; 100])
  /\ respSourceUid (mkResponse 77 [9; 7; 5] [102; 101; 100])
     = rev (map Messages.uid
                (selected Scenario.quiet Scenario.copyAll Scenario.boxA
                          Scenario.account)).
Proof.
  assert (succeeds Scenario.quiet "A" Scenario.copyAll Scenario.sess
                   Scenario.account (mkResponse 77 [9; 7; 5] [102; 101; 100]))
    as H by (split; reflexivity).
  split; [exact H|].
  exact (proj1 (proj2 (proj2
    (copy_response_lists_uids_in_reverse
       Scenario.quiet "A" Scenario.copyAll Scenario.sess Scenario.account
       Scenario.boxA Scenario.boxB _ eq_refl eq_refl H)))).
Defined.

(** C1 as stated fails: copying the rows with uids 5, 7, 9 into a mailbox
    whose [uidNext] is 100 does not return [5,7,9] and [100,101,102]. *)
Lemma copy_response_not_ascending :
  ~ (forall r,
        succeeds Scenario.quiet "A" Scenario.copyAll Scenario.sess
                 Scenario.account r ->
        respSourceUid r = [5; 7; 9]
        /\ respDestinationUid r = [100; 101; 102]).
Proof.
  intros H.
  assert (succeeds Scenario.quiet "A" Scenario.copyAll Scenario.sess
                   Scenario.account (mkResponse 77 [9; 7; 5] [102; 101; 100]))
    as S by (split; reflexivity).
  destruct (H _ S) as [E _]. discriminate E.
Qed.

(** The run behind it: mailbox A holds uids 5, 7, 9 and B starts with
    [uidNext] 100. *)
Example copy_5_7_9_run :
  callbacks (trace (runCopy Scenario.quiet "A" Scenario.copyAll Scenario.sess
                            Scenario.account))
  = [FnResponse true (mkResponse 77 [9; 7; 5] [102; 101; 100])]
  /\ findOne (by_path "Archive")
             (db (runCopy Scenario.quiet "A" Scenario.copyAll Scenario.sess
                          Scenario.account))
     = Some (Mailboxes.set_uidNext 103 Scenario.boxB)
  /\ map Messages.uid
         (selected Scenario.quiet Scenario.copyAll Scenario.boxA
                   Scenario.account)
     = [5; 7; 9].
Proof. repeat split; reflexivity. Qed.

(** C4 (as amended).  As long as the counter stays exact, the assignment
    of destination uids preserves order: of two copied rows, the one with
    the smaller source uid has the smaller destination uid. *)
Theorem destination_uids_preserve_order
    (env : Env) (mailboxId : string) (update : Update) (session : Session)
    (d : Db) (targetMailbox : Mailboxes.row) (r : Response)
    (a da b db' : Z) :
  findOne (by_path (destination update)) d = Some targetMailbox ->
  staysExact (Mailboxes.uidNext targetMailbox)
             (List.length (respDestinationUid r)) ->
  succeeds env mailboxId update session d r ->
  In (a, da) (combine (respSourceUid r) (respDestinationUid r)) ->
  In (b, db') (combine (respSourceUid r) (respDestinationUid r)) ->
  a < b -> da < db'.
Proof.
  intros B Ex [W S] Ha Hb Hlt.
  destruct (success_shape env mailboxId update session d true r W S)
    as (mb & tg & k & t & _ & B' & _ & _ & R & _).
  rewrite B in B'. inversion B'; subst tg. clear B'.
  pose proof (locked_response env targetMailbox (selected env update mb d) k)
    as P.
  cbv zeta in P. destruct P as (_ & SU & DU & _).
  subst r. unfold responseOf in Ha, Hb, Ex.
  cbn [respSourceUid respDestinationUid] in Ha, Hb, Ex.
  rewrite SU, DU in Ha, Hb. rewrite DU, length_rev, upFrom_length in Ex.
  apply (response_pairs _ _ _ _ Ex) in Ha.
  apply (response_pairs _ _ _ _ Ex) in Hb.
  destruct Ha as (i & Hi & -> & ->). destruct Hb as (j & Hj & -> & ->).
  destruct (Nat.lt_ge_cases i j) as [Hij|Hji]; [lia|].
  pose proof (ascending_uids _ (sortByUid_ascending _) j i Hji Hi) as Hle.
  unfold selected, selectMessages in Hlt. lia.
Qed.

Lemma destination_uids_preserve_order_witness :
  succeeds Scenario.quiet "A" Scenario.copyAll Scenario.sess Scenario.account
           (mkResponse 77 [9; 7; 5] [102; 101; 100])
  /\ 100 < 102.
Proof.
  assert (succeeds Scenario.quiet "A" Scenario.copyAll Scenario.sess
                   Scenario.account (mkResponse 77 [9; 7; 5] [102; 101; 100]))
    as H by (split; reflexivity).
  split; [exact H|].
  apply (destination_uids_preserve_order
           Scenario.quiet "A" Scenario.copyAll Scenario.sess Scenario.account
           Scenario.boxB (mkResponse 77 [9; 7; 5] [102; 101; 100])
           5 100 9 102 eq_refl).
  - unfold staysExact. simpl. lia.
  - exact H.
  - simpl. right. right. left. reflexivity.
  - simpl. left. reflexivity.
  - lia.
Defined.

(** C4 as stated fails: from 2^53 on the counter no longer advances, and
    the copies of the rows with uids 5 and 7 get the same uid. *)
Lemma destination_uids_collide_at_2_53 :
  ~ (forall r a da b db',
        succeeds Scenario.quiet "A" Scenario.copyToHuge Scenario.sess
                 Scenario.edgeAccount r ->
        In (a, da) (combine (respSourceUid r) (respDestinationUid r)) ->
        In (b, db') (combine (respSourceUid r) (respDestinationUid r)) ->
        a < b -> da < db').
Proof.
  intros H.
  assert (succeeds Scenario.quiet "A" Scenario.copyToHuge Scenario.sess
                   Scenario.edgeAccount
                   (mkResponse 9 [9; 7; 5]
                      [9007199254740992; 9007199254740992;
                       9007199254740992]))
    as S by (split; vm_compute; reflexivity).
  pose proof (H _ 5 9007199254740992 7 9007199254740992 S) as X.
  cbn [respSourceUid respDestinationUid combine] in X.
  assert (9007199254740992 < 9007199254740992) as Y.
  { apply X.
    - right. right. left. reflexivity.
    - right. left. reflexivity.
    - lia. }
  lia.
Qed.

Lemma countEv_none (p : Event -> bool) (t : list Event) (e : Event) :
  countEv p t = O -> In e t -> p e = false.
Proof.
  unfold countEv. induction t as [|x t IH]; simpl; [tauto|].
  destruct (p x) eqn:Px; simpl; [discriminate|].
  intros H [<-|Hin]; [exact Px | apply IH; assumption].
Qed.

(** C3 (as amended).  After a successful COPY during which the counter
    stays exact, the destination mailbox's stored [uidNext] is its former
    value plus the number of copied messages; the mailbox row is written
    once by a batch (and not at all when no row was selected and no batch
    ran), never once per copied row, and what is written is that final
    value. *)
Theorem uidNext_advances_by_copied_count
    (env : Env) (mailboxId : string) (update : Update) (session : Session)
    (d : Db) (mailbox targetMailbox : Mailboxes.row) (r : Response) :
  findOne (by_id mailboxId) d = Some mailbox ->
  findOne (by_path (destination update)) d = Some targetMailbox ->
  staysExact (Mailboxes.uidNext targetMailbox)
             (List.length (respDestinationUid r)) ->
  succeeds env mailboxId update session d r ->
  let final := runCopy env mailboxId update session d in
  let n := List.length (respDestinationUid r) in
  n = List.length (respSourceUid r)
  /\ copiedMessages (loc final) = Z.of_nat n
  /\ (exists t',
         findOne (by_path (destination update)) (db final) = Some t'
         /\ Mailboxes.uidNext t'
            = Mailboxes.uidNext targetMailbox + Z.of_nat n)
  /\ countEv isMailboxWrite (trace final)
     = (if (0 <? n)%nat then 1%nat else O)
  /\ (forall e, In e (trace final) -> isMailboxWrite e = true ->
                e = EvRun (SetUidNext (Mailboxes._id targetMailbox)
                                      (Mailboxes.uidNext targetMailbox
                                       + Z.of_nat n))).
Proof.
  intros A B Ex S.
  destruct (success_known _ _ _ _ _ _ _ _ A B S)
    as (k & t & _ & R & L & D & T & TE & _).
  pose proof (locked_response env targetMailbox
                (selected env update mailbox d) k) as P.
  cbv zeta in P |- *. destruct P as (_ & SU & DU & CM & _ & UN).
  pose proof (tail_counts t TE) as (TW & _ & _).
  assert (List.length (respDestinationUid r)
          = List.length (selected env update mailbox d)) as EN.
  { subst r. unfold responseOf. cbn [respDestinationUid].
    rewrite DU, length_rev, upFrom_length. reflexivity. }
  assert (List.length (respSourceUid r)
          = List.length (selected env update mailbox d)) as ES.
  { subst r. unfold responseOf. cbn [respSourceUid].
    rewrite SU, length_rev, length_map. reflexivity. }
  rewrite EN in Ex. apply advance_exact in Ex. rewrite Ex in UN.
  rewrite EN, L, D, T, CM. clear L D T.
  destruct (selected env update mailbox d) as [|m rest] eqn:Sel.
  - cbn [List.length app]. repeat split.
    + symmetry. exact ES.
    + exists targetMailbox. split; [exact B | simpl; lia].
    + unfold countEv in TW |- *. simpl. exact TW.
    + intros e [<-|[<-|[<-|[<-|Hin]]]] He; try discriminate.
      rewrite (countEv_none _ _ _ TW Hin) in He. discriminate.
  - pose proof (batchDb_tables env session mailbox targetMailbox (m :: rest)
                               k d) as Q.
    cbv zeta in Q. destruct Q as (_ & _ & MB).
    pose proof (loopTrace_guarded env session mailbox targetMailbox
                                  (m :: rest) 0
                                  (Mailboxes.uidNext targetMailbox))
      as [_ LW].
    rewrite Ex in MB.
    unfold batchTrace. rewrite UN.
    cbn [lockedLocals uidNext].
    repeat split.
    + symmetry. exact ES.
    + exists (Mailboxes.set_uidNext
                (Mailboxes.uidNext targetMailbox
                 + Z.of_nat (List.length (m :: rest))) targetMailbox).
      split; [|reflexivity].
      unfold findOne. rewrite MB. apply find_setUidNext. exact B.
    + rewrite !countEv_app. cbn [app].
      change (countEv isMailboxWrite (EvBegin :: ?x))
        with (countEv isMailboxWrite x).
      rewrite !countEv_app, LW, TW. reflexivity.
    + intros e Hin He.
      apply in_app_or in Hin. destruct Hin as [Hin|Hin].
      { simpl in Hin. destruct Hin as [<-|[<-|[<-|[<-|[]]]]]; discriminate. }
      apply in_app_or in Hin. destruct Hin as [Hin|Hin].
      2:{ rewrite (countEv_none _ _ _ TW Hin) in He. discriminate. }
      destruct Hin as [<-|Hin]; [discriminate|].
      apply in_app_or in Hin. destruct Hin as [Hin|[<-|[]]]; [|discriminate].
      apply in_app_or in Hin. destruct Hin as [Hin|Hin].
      { rewrite (countEv_none _ _ _ LW Hin) in He. discriminate. }
      destruct Hin as [<-|[<-|[]]]; [discriminate|reflexivity].
Qed.

Lemma uidNext_advances_by_copied_count_witness :
  succeeds Scenario.quiet "A" Scenario.copyAll Scenario.sess Scenario.account
           (mkResponse 77 [9; 7; 5] [102; 101; 100])
  /\ countEv isMailboxWrite
       (trace (runCopy Scenario.quiet "A" Scenario.copyAll Scenario.sess
                       Scenario.account))
     = 1%nat.
Proof.
  assert (succeeds Scenario.quiet "A" Scenario.copyAll Scenario.sess
                   Scenario.account (mkResponse 77 [9; 7; 5] [102; 101; 100]))
    as H by (split; reflexivity).
  split; [exact H|].
  assert (staysExact (Mailboxes.uidNext Scenario.boxB)
            (List.length
               (respDestinationUid
                  (mkResponse 77 [9; 7; 5] [102; 101; 100])))) as Ex
    by (unfold staysExact; simpl; lia).
  exact (proj1 (proj2 (proj2 (proj2
    (uidNext_advances_by_copied_count
       Scenario.quiet "A" Scenario.copyAll Scenario.sess Scenario.account
       Scenario.boxA Scenario.boxB _ eq_refl eq_refl Ex H))))).
Defined.

(** C3 as stated fails: a counter that has reached 2^53 stays there, so
    after three rows are copied the stored [uidNext] is still 2^53. *)
Lemma uidNext_stalls_at_2_53 :
  ~ (forall r,
        succeeds Scenario.quiet "A" Scenario.copyToHuge Scenario.sess
                 Scenario.edgeAccount r ->
        exists t',
          findOne (by_path "Huge")
                  (db (runCopy Scenario.quiet "A" Scenario.copyToHuge
                               Scenario.sess Scenario.edgeAccount))
          = Some t'
          /\ Mailboxes.uidNext t'
             = Mailboxes.uidNext Scenario.boxH
               + Z.of_nat (List.length (respDestinationUid r))).
Proof.
  intros H.
  assert (succeeds Scenario.quiet "A" Scenario.copyToHuge Scenario.sess
                   Scenario.edgeAccount
                   (mkResponse 9 [9; 7; 5]
                      [9007199254740992; 9007199254740992;
                       9007199254740992]))
    as S by (split; vm_compute; reflexivity).
  destruct (H _ S) as (t' & F & U).
  vm_compute in F. injection F as <-. vm_compute in U. discriminate U.
Qed.

Lemma Forall2_map_same {A : Type} (R : A -> A -> Prop) (f : A -> A)
    (l : list A) :
  (forall a, R a (f a)) -> Forall2 R l (map f l).
Proof.
  intros H. induction l as [|a l IH]; simpl; constructor; auto.
Qed.

Lemma tail_runs_nothing (t : list Event) (st : Statement) :
  forallb isTailEvent t = true -> ~ In (EvRun st) t.
Proof.
  intros TE Hin.
  destruct (tail_counts t TE) as (_ & _ & SA).
  pose proof (countEv_none _ _ _ SA Hin) as H. discriminate H.
Qed.

(** C5.  After a successful COPY every stored attachment counter is its
    former value plus the number of copied rows whose body tree references
    the hash (a row counts once, however often it references the hash), the
    magic value has grown by the magic of those rows, and the stamp is that
    of the last such row.  Each row's attachment update directly follows
    that row's insert, between the begin and the commit of the one
    transaction; outside it the handler runs no statement. *)
Theorem attachment_counters_count_referencing_rows
    (env : Env) (mailboxId : string) (update : Update) (session : Session)
    (d : Db) (mailbox targetMailbox : Mailboxes.row) (r : Response) :
  findOne (by_id mailboxId) d = Some mailbox ->
  findOne (by_path (destination update)) d = Some targetMailbox ->
  succeeds env mailboxId update session d r ->
  let final := runCopy env mailboxId update session d in
  let rows := selected env update mailbox d in
  map Messages.uid rows = rev (respSourceUid r)
  /\ Forall2
       (fun a a' =>
          Attachments.hash a' = Attachments.hash a
          /\ Attachments.counter a'
             = Attachments.counter a + refCount env (Attachments.hash a) rows
          /\ Attachments.magic a'
             = Attachments.magic a + magicSum env (Attachments.hash a) rows
          /\ Attachments.counterUpdated a'
             = lastStamp env (Attachments.hash a) 0 rows
                         (Attachments.counterUpdated a))
       (tAttachments d) (tAttachments (db final))
  /\ exists pre post,
      trace final
      = pre
        ++ match rows with
           | [] => []
           | _ =>
               EvBegin
               :: loopTrace env session mailbox targetMailbox 0
                            (Mailboxes.uidNext targetMailbox) rows
               ++ [EvRun (SetCopied (map Messages._id rows));
                   EvRun (SetUidNext (Mailboxes._id targetMailbox)
                                     (advance
                                        (Mailboxes.uidNext targetMailbox)
                                        (List.length rows)));
                   EvCommit]
           end
        ++ post
      /\ (forall st, ~ In (EvRun st) pre)
      /\ (forall st, ~ In (EvRun st) post).
Proof.
  intros A B S.
  destruct (success_known _ _ _ _ _ _ _ _ A B S)
    as (k & t & _ & R & _ & D & T & TE & _).
  pose proof (locked_response env targetMailbox
                (selected env update mailbox d) k) as P.
  cbv zeta in P |- *. destruct P as (SI & SU & _ & _ & _ & UN).
  split; [|split].
  - subst r. unfold responseOf. cbn [respSourceUid].
    rewrite SU, rev_involutive. reflexivity.
  - assert (tAttachments (db (runCopy env mailboxId update session d))
            = map (bumped env 0 (selected env update mailbox d))
                  (tAttachments d)) as E.
    { rewrite D. destruct (selected env update mailbox d) as [|m rest].
      - rewrite <- (map_id (tAttachments d)) at 1.
        apply map_ext. intros a. symmetry. apply bumped_nil.
      - pose proof (batchDb_tables env session mailbox targetMailbox
                                   (m :: rest) k d) as Q.
        cbv zeta in Q. destruct Q as (_ & Q & _). exact Q. }
    rewrite E. apply Forall2_map_same. intros a.
    unfold bumped. cbn. repeat split; reflexivity.
  - exists [EvRefreshSession; EvIsOverQuota 0; EvAcquireLock;
            EvSelect (condition env update mailbox)], t.
    split; [|split].
    + rewrite T. f_equal. f_equal.
      destruct (selected env update mailbox d) as [|m rest]; [reflexivity|].
      unfold batchTrace. rewrite SI, UN. cbn [lockedLocals uidNext].
      rewrite <- app_assoc. reflexivity.
    + intros st [H|[H|[H|[H|[]]]]]; discriminate H.
    + intros st. apply tail_runs_nothing. exact TE.
Qed.

Lemma attachment_counters_count_referencing_rows_witness :
  succeeds Scenario.quiet "A" Scenario.copyAll Scenario.sess Scenario.account
           (mkResponse 77 [9; 7; 5] [102; 101; 100])
  /\ map Messages.uid
         (selected Scenario.quiet Scenario.copyAll Scenario.boxA
                   Scenario.account)
     = rev [9; 7; 5].
Proof.
  assert (succeeds Scenario.quiet "A" Scenario.copyAll Scenario.sess
                   Scenario.account (mkResponse 77 [9; 7; 5] [102; 101; 100]))
    as H by (split; reflexivity).
  split; [exact H|].
  exact (proj1
    (attachment_counters_count_referencing_rows
       Scenario.quiet "A" Scenario.copyAll Scenario.sess Scenario.account
       Scenario.boxA Scenario.boxB _ eq_refl eq_refl H)).
Defined.

(** Two copied rows reference "h1" (twice each) and "h2": both counters go
    from 2 to 4, not to 6, and "h3" is left alone. *)
Example attachment_counters_run :
  tAttachments
    (db (runCopy Scenario.quiet "A" Scenario.copyAll Scenario.sess
                 Scenario.account))
  = [Attachments.mk "h1" 4 12 2001; Attachments.mk "h2" 4 12 2001;
     Attachments.mk "h3" 1 3 0].
Proof. reflexivity. Qed.

(** C10.  With an empty list of messages in the request the query carries
    no uid condition, selects every row of the source mailbox, and a
    successful COPY copies each of them. *)
Theorem empty_filter_copies_all
    (env : Env) (mailboxId : string) (update : Update) (session : Session)
    (d : Db) (mailbox targetMailbox : Mailboxes.row) (r : Response) :
  messages update = [] ->
  findOne (by_id mailboxId) d = Some mailbox ->
  findOne (by_path (destination update)) d = Some targetMailbox ->
  succeeds env mailboxId update session d r ->
  let final := runCopy env mailboxId update session d in
  let inSource := fun m =>
    String.eqb (Messages.mailbox m) (Mailboxes._id mailbox) in
  condition env update mailbox = mkCondition (Mailboxes._id mailbox) None
  /\ In (EvSelect (mkCondition (Mailboxes._id mailbox) None)) (trace final)
  /\ Permutation (selected env update mailbox d)
                 (filter inSource (tMessages d))
  /\ Permutation (respSourceUid r)
                 (map Messages.uid (filter inSource (tMessages d)))
  /\ List.length (tMessages (db final))
     = (List.length (tMessages d)
        + List.length (filter inSource (tMessages d)))%nat.
Proof.
  intros E A B S.
  destruct (success_known _ _ _ _ _ _ _ _ A B S)
    as (k & t & _ & R & _ & D & T & _ & _).
  pose proof (locked_response env targetMailbox
                (selected env update mailbox d) k) as P.
  cbv zeta in P |- *. destruct P as (_ & SU & _).
  assert (condition env update mailbox
          = mkCondition (Mailboxes._id mailbox) None) as C.
  { unfold condition. rewrite E. reflexivity. }
  assert (Permutation (selected env update mailbox d)
            (filter (fun m => String.eqb (Messages.mailbox m)
                                         (Mailboxes._id mailbox))
                    (tMessages d))) as PS.
  { unfold selected, selectMessages. rewrite C.
    eapply Permutation_trans; [apply sortByUid_perm|].
    erewrite filter_ext; [apply Permutation_refl|].
    intros m. unfold matchesCondition. cbn. apply andb_true_r. }
  repeat split.
  - exact C.
  - rewrite T, C. simpl. right. right. right. left. reflexivity.
  - exact PS.
  - subst r. unfold responseOf. cbn [respSourceUid]. rewrite SU.
    eapply Permutation_trans; [apply Permutation_sym, Permutation_rev|].
    apply Permutation_map. exact PS.
  - rewrite D. apply Permutation_length in PS. rewrite <- PS.
    destruct (selected env update mailbox d) as [|m rest]; [simpl; lia|].
    pose proof (batchDb_tables env session mailbox targetMailbox (m :: rest)
                               k d) as Q.
    cbv zeta in Q. destruct Q as (Q & _). rewrite Q.
    rewrite length_map, length_app, newRows_length. reflexivity.
Qed.

Lemma empty_filter_copies_all_witness :
  succeeds Scenario.quiet "A" Scenario.copyAll Scenario.sess Scenario.account
           (mkResponse 77 [9; 7; 5] [102; 101; 100])
  /\ condition Scenario.quiet Scenario.copyAll Scenario.boxA
     = mkCondition "A" None.
Proof.
  assert (succeeds Scenario.quiet "A" Scenario.copyAll Scenario.sess
                   Scenario.account (mkResponse 77 [9; 7; 5] [102; 101; 100]))
    as H by (split; reflexivity).
  split; [exact H|].
  exact (proj1
    (empty_filter_copies_all
       Scenario.quiet "A" Scenario.copyAll Scenario.sess Scenario.account
       Scenario.boxA Scenario.boxB _ eq_refl eq_refl eq_refl H)).
Defined.

(** ** Errors raised before the lock *)

(** C9.  When the pre-flight check reports the account over quota the
    handler calls back with the over-quota error; the lock is never asked
    for, no row is read or written, and the database is as before. *)
Theorem over_quota_stops_before_lock
    (env : Env) (mailboxId : string) (update : Update) (session : Session)
    (d : Db) :
  env_wsp env = None ->
  env_refreshSession env = None ->
  env_isOverQuota env 0 = inr true ->
  let final := runCopy env mailboxId update session d in
  let overQuota :=
    IMAPError (env_translate env "IMAP_MAILBOX_OVER_QUOTA"
                             (locale (user session)))
              "OVERQUOTA" in
  trace final
  = [EvRefreshSession; EvIsOverQuota 0;
     EvCallback (FnError (env_refineAndLogError env overQuota))]
  /\ callbacks (trace final) = [FnError (env_refineAndLogError env overQuota)]
  /\ countEv isAcquire (trace final) = O
  /\ countEv isStorageAccess (trace final) = O
  /\ db final = d.
Proof.
  intros W R Q. cbv zeta.
  unfold runCopy, onCopy, onCopyFn. rewrite W.
  unfold try_catch, copyLocal, copyLocalFn, callFn, returns, bind, call_, call, putLoc, getDb, throw, ret,
    log, set_loc, emit.
  rewrite R, Q. cbn. repeat split; reflexivity.
Qed.

Lemma over_quota_stops_before_lock_witness :
  countEv isAcquire
    (trace (runCopy (with_isOverQuota (fun _ => inr true) Scenario.quiet)
                    "A" Scenario.copyAll Scenario.sess Scenario.account))
  = O
  /\ db (runCopy (with_isOverQuota (fun _ => inr true) Scenario.quiet)
                 "A" Scenario.copyAll Scenario.sess Scenario.account)
     = Scenario.account.
Proof.
  pose proof (over_quota_stops_before_lock
                (with_isOverQuota (fun _ => inr true) Scenario.quiet)
                "A" Scenario.copyAll Scenario.sess Scenario.account
                eq_refl eq_refl eq_refl) as H.
  cbv zeta in H. destruct H as (_ & _ & A & _ & D).
  split; [exact A | exact D].
Defined.

(** C7.  A source identifier that resolves to no mailbox fails the COPY
    with an error whose response code is NONEXISTENT; a destination path
    that resolves to no mailbox (the source being found) fails it with an
    error whose response code is TRYCREATE; the two codes differ.  Either
    way nothing is locked or written. *)
Theorem missing_mailbox_error_kinds
    (env : Env) (mailboxId : string) (update : Update) (session : Session)
    (d : Db) :
  env_wsp env = None ->
  env_refreshSession env = None ->
  env_isOverQuota env 0 = inr false ->
  let final := runCopy env mailboxId update session d in
  let doesNotExist :=
    env_translate env "IMAP_MAILBOX_DOES_NOT_EXIST" (locale (user session)) in
  (findOne (by_id mailboxId) d = None ->
   callbacks (trace final)
   = [FnError (env_refineAndLogError env
                 (IMAPError doesNotExist "NONEXISTENT"))]
   /\ countEv isAcquire (trace final) = O /\ db final = d)
  /\ (forall mailbox,
         findOne (by_id mailboxId) d = Some mailbox ->
         findOne (by_path (destination update)) d = None ->
         callbacks (trace final)
         = [FnError (env_refineAndLogError env
                       (IMAPError doesNotExist "TRYCREATE"))]
         /\ countEv isAcquire (trace final) = O /\ db final = d)
  /\ imapResponse (IMAPError doesNotExist "NONEXISTENT")
     <> imapResponse (IMAPError doesNotExist "TRYCREATE").
Proof.
  intros W R Q. cbv zeta.
  unfold runCopy, onCopy, onCopyFn. rewrite W.
  unfold try_catch, copyLocal, copyLocalFn, callFn, returns, bind, call_, call, putLoc, getDb, throw, ret,
    log, set_loc, emit.
  rewrite R, Q. cbn [fst snd trace loc db stmtNo app].
  split; [|split].
  - intros A. rewrite A. cbn. repeat split; reflexivity.
  - intros mailbox A B. rewrite A, B. cbn. repeat split; reflexivity.
  - cbn. discriminate.
Qed.

Lemma missing_mailbox_error_kinds_witness :
  callbacks (trace (runCopy Scenario.quiet "Z" Scenario.copyAll Scenario.sess
                            Scenario.account))
  = [FnError (IMAPError "IMAP_MAILBOX_DOES_NOT_EXIST" "NONEXISTENT")]
  /\ callbacks (trace (runCopy Scenario.quiet "A" (mkUpdate "Nowhere" [])
                               Scenario.sess Scenario.account))
     = [FnError (IMAPError "IMAP_MAILBOX_DOES_NOT_EXIST" "TRYCREATE")].
Proof.
  split.
  - exact (proj1 (proj1
      (missing_mailbox_error_kinds
         Scenario.quiet "Z" Scenario.copyAll Scenario.sess Scenario.account
         eq_refl eq_refl eq_refl) eq_refl)).
  - exact (proj1 (proj1 (proj2
      (missing_mailbox_error_kinds
         Scenario.quiet "A" (mkUpdate "Nowhere" []) Scenario.sess
         Scenario.account eq_refl eq_refl eq_refl)) Scenario.boxA
      eq_refl eq_refl)).
Defined.

(** ** Rows written by the handler *)

Lemma inserts_are_rewrites
    (env : Env) (mailboxId : string) (update : Update) (session : Session)
    (d : Db) (m' : Messages.row) :
  In (EvRun (InsertMessage m'))
     (trace (runCopy env mailboxId update session d)) ->
  exists mailbox targetMailbox i u m,
    findOne (by_id mailboxId) d = Some mailbox
    /\ findOne (by_path (destination update)) d = Some targetMailbox
    /\ m' = rewriteRow env session mailbox targetMailbox i u m.
Proof.
  destruct (env_wsp env) as [reply|] eqn:W.
  { unfold runCopy, onCopy, onCopyFn. rewrite W.
    unfold copyRemote, copyRemoteFn, try_catch, bind, call, callFn, returns, emit.
    destruct reply as [e|[b resp]]; [destruct (truthy_string _)|];
      simpl; intros H; decompose [or] H; try discriminate; contradiction. }
  destruct (env_refreshSession env) as [e|] eqn:R.
  { unfold runCopy, onCopy, onCopyFn. rewrite W.
    unfold try_catch, copyLocal, copyLocalFn, callFn, returns, bind, call_, log, emit. rewrite R.
    simpl; intros H; decompose [or] H; try discriminate; contradiction. }
  destruct (env_isOverQuota env 0) as [e|[]] eqn:Q.
  1,2: unfold runCopy, onCopy, onCopyFn; rewrite W;
    unfold try_catch, copyLocal, copyLocalFn, callFn, returns, bind, call_, call, throw, log, emit;
    rewrite R, Q;
    simpl; intros H; decompose [or] H; try discriminate; contradiction.
  destruct (findOne (by_id mailboxId) d) as [mailbox|] eqn:A.
  2:{ unfold runCopy, onCopy, onCopyFn. rewrite W.
      unfold try_catch, copyLocal, copyLocalFn, callFn, returns, bind, call_, call, putLoc, getDb, throw,
        ret, log, set_loc, emit.
      rewrite R, Q. cbn [fst snd trace loc db stmtNo app]. rewrite A.
      simpl; intros H; decompose [or] H; try discriminate; contradiction. }
  destruct (findOne (by_path (destination update)) d) as [target|] eqn:B.
  2:{ unfold runCopy, onCopy, onCopyFn. rewrite W.
      unfold try_catch, copyLocal, copyLocalFn, callFn, returns, bind, call_, call, putLoc, getDb, throw,
        ret, log, set_loc, emit.
      rewrite R, Q. cbn [fst snd trace loc db stmtNo app]. rewrite A, B.
      simpl; intros H; decompose [or] H; try discriminate; contradiction. }
  rewrite (runCopy_reach env mailboxId update session d mailbox target
                         W R Q A B).
  destruct (copyInto env update session mailbox target (started d))
    as [r s'] eqn:C.
  destruct (guarded env update session mailbox target (started d))
    as [g s1] eqn:G.
  pose proof (guarded_any env update session mailbox target (started d)) as GA.
  cbv zeta in GA. rewrite G in GA. cbn [fst snd] in GA.
  destruct GA as ([tg [Tg Gg]] & _).
  pose proof (copyInto_inv env update session mailbox target
                           (started d) s1 s' g r eq_refl G C) as I.
  destruct I as (_ & _ & _ & t & T & TE & _).
  intros H.
  assert (In (EvRun (InsertMessage m')) (trace s')) as H'.
  { destruct r as [e|u]; cbn [finish emit trace] in H; [|exact H].
    apply in_app_or in H. destruct H as [H|[H|[]]]; [exact H|discriminate]. }
  rewrite T, Tg in H'.
  apply in_app_or in H'. destruct H' as [H'|H'].
  2:{ exfalso. exact (tail_runs_nothing t _ TE H'). }
  apply in_app_or in H'. destruct H' as [H'|H'].
  { simpl in H'. decompose [or] H'; try discriminate; contradiction. }
  rewrite Forall_forall in Gg. specialize (Gg _ H'). simpl in Gg.
  destruct Gg as (i & u & m & ->).
  exists mailbox, target, i, u, m. repeat split.
Qed.

(** The expiry flag of an inserted row, as the handler computes it. *)
Lemma inserted_row_expiry
    (env : Env) (mailboxId : string) (update : Update) (session : Session)
    (d : Db) (targetMailbox : Mailboxes.row) (m' : Messages.row) :
  findOne (by_path (destination update)) d = Some targetMailbox ->
  In (EvRun (InsertMessage m'))
     (trace (runCopy env mailboxId update session d)) ->
  Messages.exp m'
  = match Mailboxes.retention targetMailbox with
    | JsNumber n => if Z.eqb n 0 then 0 else 1
    | _ => 0
    end.
Proof.
  intros B H.
  apply inserts_are_rewrites in H.
  destruct H as (mailbox & tg & i & u & m & _ & B' & ->).
  rewrite B in B'. inversion B'; subst tg. clear B'.
  unfold rewriteRow. cbn [Messages.exp].
  destruct (Mailboxes.retention targetMailbox) as [| |n|s];
    cbn [typeof_number strict_neq_number]; try reflexivity.
  destruct (Z.eqb n 0); reflexivity.
Qed.

(** C8 (as amended).  Every row the handler inserts has its expiry flag
    set exactly when the destination mailbox's retention is a number other
    than zero; a retention of zero and a retention that is not a number
    both leave it unset.  The handler does not look at the sign: a
    negative retention sets the flag as a positive one does. *)
Theorem expiry_flag_follows_retention
    (env : Env) (mailboxId : string) (update : Update) (session : Session)
    (d : Db) (targetMailbox : Mailboxes.row) (m' : Messages.row) :
  findOne (by_path (destination update)) d = Some targetMailbox ->
  In (EvRun (InsertMessage m'))
     (trace (runCopy env mailboxId update session d)) ->
  (Messages.exp m' = 1
   <-> exists n, Mailboxes.retention targetMailbox = JsNumber n /\ n <> 0)
  /\ (Messages.exp m' = 1 \/ Messages.exp m' = 0)
  /\ (Mailboxes.retention targetMailbox = JsNumber 0 -> Messages.exp m' = 0)
  /\ (typeof_number (Mailboxes.retention targetMailbox) = false ->
      Messages.exp m' = 0)
  /\ (forall n, Mailboxes.retention targetMailbox = JsNumber n -> n < 0 ->
                Messages.exp m' = 1).
Proof.
  intros B H.
  rewrite (inserted_row_expiry _ _ _ _ _ _ _ B H).
  destruct (Mailboxes.retention targetMailbox) as [| |n|s] eqn:E;
    cbn [typeof_number].
  1,2,4: repeat split; auto; try discriminate;
    try (intros (n & Hn & _); discriminate Hn);
    intros n Hn; discriminate Hn.
  destruct (Z.eqb_spec n 0) as [->|Hne].
  - repeat split; auto; try discriminate.
    + intros (k & Hk & Hnz). inversion Hk; subst. contradiction.
    + intros k Hk Hlt. inversion Hk; subst. lia.
  - repeat split; auto; try discriminate.
    + intros _. exists n. split; [reflexivity|exact Hne].
    + intros Hz. inversion Hz; subst. contradiction.
Qed.

Lemma expiry_flag_follows_retention_witness :
  Messages.exp
    (Messages.mk "n0" "C" 1 1 2592001000 4 false "192.0.2.1" "COPY" false
                 Scenario.twice 3 10)
  = 1
  <-> exists n, Mailboxes.retention Scenario.boxC = JsNumber n /\ n <> 0.
Proof.
  refine (proj1
    (expiry_flag_follows_retention
       Scenario.quiet "A" Scenario.copyToTrash Scenario.sess Scenario.account
       Scenario.boxC _ eq_refl _)).
  vm_compute. do 5 right. left. reflexivity.
Defined.

(** C8 as stated fails: with a retention of -5, which is no positive
    duration, the copied row has its expiry flag set. *)
Lemma negative_retention_sets_expiry :
  ~ (forall m',
        In (EvRun (InsertMessage m'))
           (trace (runCopy Scenario.quiet "A" Scenario.copyToNegative
                           Scenario.sess Scenario.edgeAccount)) ->
        (Messages.exp m' = 1
         <-> exists n, Mailboxes.retention Scenario.boxN = JsNumber n
                       /\ 0 < n)).
Proof.
  intros H.
  assert (In (EvRun (InsertMessage
                       (Messages.mk "n0" "N" 1 1 995 4 false "192.0.2.1"
                                    "COPY" false Scenario.twice 3 10)))
             (trace (runCopy Scenario.quiet "A" Scenario.copyToNegative
                             Scenario.sess Scenario.edgeAccount))) as I
    by (vm_compute; do 5 right; left; reflexivity).
  destruct (proj1 (H _ I) eq_refl) as (n & E & Pos).
  injection E as <-. lia.
Qed.

(** ** A batch without faults runs through *)

Section Progress.
Variable env : Env.
Variable update : Update.
Variable session : Session.
Variable mailbox : Mailboxes.row.
Variable targetMailbox : Mailboxes.row.

Lemma copyMessage_progress (i : nat) (m : Messages.row) (s : St) :
  (forall k, (stmtNo s <= k < stmtNo s + rowStmts env m)%nat ->
             env_sqlFault env k = None) ->
  validTime (expiryTime env targetMailbox i) = true ->
  fst (copyMessage env session mailbox targetMailbox i m s) = inr tt.
Proof.
  intros F V.
  assert (env_sqlFault env (stmtNo s) = None) as F0.
  { apply F. unfold rowStmts. destruct (hasAttachments env m); lia. }
  unfold copyMessage, bind, getLoc, putLoc, toISOString, throw, run, ret,
    set_loc, set_db, tick, emit.
  simpl. rewrite V. simpl. rewrite F0. simpl.
  unfold rowStmts, hasAttachments, attachmentIdsOf in F.
  destruct (0 <? List.length (env_getAttachments env (Messages.mimeTree m)))%nat.
  - simpl. rewrite (F (S (stmtNo s))) by lia. reflexivity.
  - reflexivity.
Qed.

Lemma forEachMessage_progress (rows : list Messages.row) :
  forall i s,
    (forall k, (stmtNo s <= k < stmtNo s + loopStmts env rows)%nat ->
               env_sqlFault env k = None) ->
    (forall j, (i <= j < i + List.length rows)%nat ->
               validTime (expiryTime env targetMailbox j) = true) ->
    fst (forEachMessage env session mailbox targetMailbox i rows s) = inr tt.
Proof.
  induction rows as [|m rest IH]; intros i s F V; [reflexivity|].
  cbn [forEachMessage loopStmts List.length] in F, V |- *. unfold bind.
  pose proof (copyMessage_progress i m s) as P.
  destruct (copyMessage env session mailbox targetMailbox i m s)
    as [[e|[]] s1] eqn:C.
  - cbn [fst] in P. rewrite P; [reflexivity| |apply V; lia].
    intros k Hk. apply F. lia.
  - apply copyMessage_ok in C. destruct C as (-> & _ & _).
    apply IH; [|intros j Hj; apply V; lia].
    cbn [stmtNo]. intros k Hk. apply F. lia.
Qed.

Lemma batch_progress (rows : list Messages.row) (s : St) :
  (forall k, (stmtNo s <= k < stmtNo s + batchStmts env rows)%nat ->
             env_sqlFault env k = None) ->
  (forall j, (j < List.length rows)%nat ->
             validTime (expiryTime env targetMailbox j) = true) ->
  fst (batch env session mailbox targetMailbox rows s) = inr tt.
Proof.
  intros F V. unfold batchStmts in F. unfold batch, bind, getLoc.
  pose proof (forEachMessage_progress rows 0 s) as P.
  destruct (forEachMessage env session mailbox targetMailbox 0 rows s)
    as [[e|[]] s1] eqn:L.
  - cbn [fst] in P. rewrite P; [reflexivity| |intros j Hj; apply V; lia].
    intros k Hk. apply F. lia.
  - apply forEachMessage_ok in L. destruct L as (-> & _ & _).
    unfold run, set_db, tick, emit. cbn [stmtNo db loc trace].
    rewrite (F (stmtNo s + loopStmts env rows)%nat) by lia.
    cbn [stmtNo db loc trace].
    rewrite (F (S (stmtNo s + loopStmts env rows))) by lia.
    reflexivity.
Qed.

Lemma guarded_progress (k : Lock) (s : St) :
  env_acquireLock env = inr k ->
  env_select env = None ->
  ~ batchFails env targetMailbox (selected env update mailbox (db s)) ->
  stmtNo s = O ->
  fst (guarded env update session mailbox targetMailbox s) = inr tt.
Proof.
  intros A Sel NF Z0.
  unfold guarded, bind, call, call_, getLoc, putLoc, getDb, ret,
    set_loc, emit.
  rewrite A. cbn [fst snd trace loc db stmtNo]. rewrite Sel.
  cbn [fst snd trace loc db stmtNo].
  fold (selected env update mailbox (db s)).
  destruct (0 <? List.length (selected env update mailbox (db s)))%nat;
    [|reflexivity].
  unfold batchFails in NF. unfold transaction.
  destruct (env_begin env) as [e|] eqn:B.
  { exfalso. apply NF. left. discriminate. }
  match goal with
  | |- context [batch env session mailbox targetMailbox ?rows ?x] =>
      pose proof (batch_progress rows x) as P;
      destruct (batch env session mailbox targetMailbox rows x)
        as [[e|[]] s1]
  end.
  - cbn [fst] in P. rewrite P; [reflexivity| |].
    + unfold emit. cbn [stmtNo]. rewrite Z0. intros n Hn.
      destruct (env_sqlFault env n) eqn:Fn; [|reflexivity].
      exfalso. apply NF. right. left. exists n. split; [lia|].
      rewrite Fn. discriminate.
    + intros j Hj.
      destruct (validTime (expiryTime env targetMailbox j)) eqn:Vj;
        [reflexivity|].
      exfalso. apply NF. right. right. right. exists j. split; assumption.
  - destruct (env_commit env) as [e|] eqn:C; [|reflexivity].
    exfalso. apply NF. right. right. left. discriminate.
Qed.
End Progress.

(** ** Atomicity of the batch *)

(** C2.  Whenever the batch fails at some step (its begin, any one of its
    statements, its commit, the expiry date of a row that is no valid
    date) the account database after the COPY is the database before it: no inserted row, no changed attachment counter, no
    copied mark, no new [uidNext]; the failure is what the callback gets.
    When no step fails all writes of the batch are there together. *)
Theorem failed_batch_leaves_storage_unchanged
    (env : Env) (mailboxId : string) (update : Update) (session : Session)
    (d : Db) (mailbox targetMailbox : Mailboxes.row) (k : Lock) :
  env_wsp env = None ->
  env_refreshSession env = None ->
  env_isOverQuota env 0 = inr false ->
  findOne (by_id mailboxId) d = Some mailbox ->
  findOne (by_path (destination update)) d = Some targetMailbox ->
  env_acquireLock env = inr k ->
  env_select env = None ->
  selected env update mailbox d <> [] ->
  let rows := selected env update mailbox d in
  let final := runCopy env mailboxId update session d in
  (batchFails env targetMailbox rows ->
   db final = d
   /\ exists e,
       err (loc final) = Some e
       /\ callbacks (trace final) = [FnError (env_refineAndLogError env e)])
  /\ (~ batchFails env targetMailbox rows ->
      db final = batchDb env session mailbox targetMailbox rows
                         (lockedLocals targetMailbox k) d).
Proof.
  intros W R Q A B AL SL NE. cbv zeta.
  rewrite (runCopy_reach env mailboxId update session d mailbox targetMailbox
                         W R Q A B).
  pose proof (callbacks_finish env update session d mailbox targetMailbox)
    as CF.
  cbv zeta in CF.
  destruct (copyInto env update session mailbox targetMailbox (started d))
    as [r s'] eqn:C.
  destruct (guarded env update session mailbox targetMailbox (started d))
    as [g s1] eqn:G.
  pose proof (guarded_any env update session mailbox targetMailbox (started d))
    as GA.
  cbv zeta in GA. rewrite G in GA. cbn [fst snd] in GA.
  destruct GA as (_ & _ & _ & GD).
  pose proof (copyInto_inv env update session mailbox targetMailbox
                           (started d) s1 s' g r eq_refl G C) as I.
  destruct I as (D & _ & L & t & _ & _ & _ & K).
  assert (db (finish env (r, s')) = db s') as DF.
  { destruct r; reflexivity. }
  assert (loc (finish env (r, s')) = loc s') as LF.
  { destruct r; reflexivity. }
  rewrite DF, LF, D. cbn [fst] in CF.
  split.
  - intros BF. destruct g as [e|[]].
    + destruct K as [-> _]. split; [exact (GD e eq_refl)|].
      exists e. split; [exact L | exact CF].
    + exfalso. apply guarded_ok in G; [|reflexivity].
      destruct G as (k' & _ & _ & G). cbn [started db stmtNo] in G.
      destruct (selected env update mailbox d) as [|m rest];
        [apply NE; reflexivity|].
      destruct G as (Bg & Cm & F & V & _).
      destruct BF as [BF|[(n & Hn & BF)|[BF|(j & Hj & BF)]]].
      * apply BF. exact Bg.
      * apply BF, F. cbn [started stmtNo]. lia.
      * apply BF. exact Cm.
      * rewrite (V j Hj) in BF. discriminate BF.
  - intros NF.
    pose proof (guarded_progress env update session mailbox targetMailbox
                                 k (started d) AL SL NF eq_refl) as P.
    rewrite G in P. cbn [fst] in P. subst g.
    apply guarded_ok in G; [|reflexivity].
    destruct G as (k' & AL' & _ & G). cbn [started db stmtNo] in G.
    rewrite AL in AL'. inversion AL'; subst k'.
    destruct (selected env update mailbox d) as [|m rest];
      [exfalso; apply NE; reflexivity|].
    destruct G as (_ & _ & _ & _ & ->). reflexivity.
Qed.

Lemma failed_batch_leaves_storage_unchanged_witness :
  batchFails
    (with_sqlFault
       (fun n => if Nat.eqb n 3 then Some Scenario.storageError else None)
       Scenario.quiet)
    Scenario.boxB
    (selected Scenario.quiet Scenario.copyAll Scenario.boxA Scenario.account)
  /\ db (runCopy
           (with_sqlFault
              (fun n => if Nat.eqb n 3 then Some Scenario.storageError
                        else None)
              Scenario.quiet)
           "A" Scenario.copyAll Scenario.sess Scenario.account)
     = Scenario.account.
Proof.
  assert (batchFails
            (with_sqlFault
               (fun n => if Nat.eqb n 3 then Some Scenario.storageError
                         else None)
               Scenario.quiet)
            Scenario.boxB
            (selected Scenario.quiet Scenario.copyAll Scenario.boxA
                      Scenario.account)) as BF.
  { right. left. exists 3%nat. split.
    - vm_compute. repeat constructor.
    - simpl. discriminate. }
  split; [exact BF|].
  refine (proj1 (proj1
    (failed_batch_leaves_storage_unchanged
       (with_sqlFault
          (fun n => if Nat.eqb n 3 then Some Scenario.storageError else None)
          Scenario.quiet)
       "A" Scenario.copyAll Scenario.sess Scenario.account
       Scenario.boxA Scenario.boxB (mkLock true)
       eq_refl eq_refl eq_refl eq_refl eq_refl eq_refl eq_refl _) BF)).
  simpl. discriminate.
Defined.

(** ** Releasing the lock *)

Section Release.
Variable env : Env.
Variable update : Update.
Variable session : Session.
Variable mailbox : Mailboxes.row.
Variable targetMailbox : Mailboxes.row.

Lemma copyInto_release (s s1 : St) (g : Error + unit) :
  err (loc s) = None ->
  guarded env update session mailbox targetMailbox s = (g, s1) ->
  lockSuccess (lock (loc s1)) = true ->
  exists t',
    trace (snd (copyInto env update session mailbox targetMailbox s))
    = trace s1
      ++ EvReleaseLock
         :: match env_releaseLock env with
            | Some e => [EvFatal e]
            | None => []
            end
         ++ t'.
Proof.
  intros E0 G LS.
  pose proof (guarded_any env update session mailbox targetMailbox s) as A.
  cbv zeta in A. rewrite G in A. cbn [fst snd] in A.
  destruct A as (_ & _ & E1 & _). rewrite E0 in E1.
  unfold copyInto, copyIntoFn, callFn, returns, bind, try_catch, getLoc, putLoc, call_, log, throw, ret,
    set_loc, emit.
  rewrite G. destruct g as [e|[]]; cbn [fst snd trace loc db stmtNo lock err];
    rewrite LS.
  - destruct (env_releaseLock env); cbn [fst snd trace loc db stmtNo err];
      eexists; rewrite <- ?app_assoc; cbn [app]; reflexivity.
  - rewrite E1.
    destruct (env_releaseLock env); cbn [fst snd trace loc db stmtNo err];
      split_oracles; eexists; rewrite <- ?app_assoc; cbn [app]; reflexivity.
Qed.

Lemma release_outcome_irrelevant (r' : option Error) (s : St) :
  let o' := copyInto (with_releaseLock r' env) update session mailbox
                     targetMailbox s in
  let o := copyInto env update session mailbox targetMailbox s in
  fst o' = fst o /\ db (snd o') = db (snd o) /\ loc (snd o') = loc (snd o).
Proof.
  cbv zeta.
  unfold copyInto, copyIntoFn, callFn, returns, bind, try_catch, getLoc, putLoc, call_, log, throw, ret,
    set_loc, emit.
  change (guarded (with_releaseLock r' env) update session mailbox
                  targetMailbox s)
    with (guarded env update session mailbox targetMailbox s).
  cbn [with_releaseLock env_releaseLock env_walCheckpoint
       env_updateStorageUsed env_addEntries].
  destruct (guarded env update session mailbox targetMailbox s)
    as [[e|[]] s1]; cbn [fst snd trace loc db stmtNo lock err].
  - destruct (lockSuccess (lock (loc s1))); [|repeat split; reflexivity].
    destruct r', (env_releaseLock env); repeat split; reflexivity.
  - destruct (lockSuccess (lock (loc s1))).
    + destruct r', (env_releaseLock env);
        cbn [fst snd trace loc db stmtNo lock err];
        split_oracles; repeat split; reflexivity.
    + split_oracles; repeat split; reflexivity.
Qed.
End Release.

(** C6.  Once the lock is held, the handler asks for its release exactly
    once, whether the batch succeeded or threw.  A release that fails is
    logged as fatal and changes neither the callback's arguments nor the
    database: they are what they are when the release succeeds.  An error
    of the guarded section reaches the callback after the release. *)
Theorem lock_released_once_on_every_path
    (env : Env) (mailboxId : string) (update : Update) (session : Session)
    (d : Db) (mailbox targetMailbox : Mailboxes.row) (k : Lock) :
  env_wsp env = None ->
  env_refreshSession env = None ->
  env_isOverQuota env 0 = inr false ->
  findOne (by_id mailboxId) d = Some mailbox ->
  findOne (by_path (destination update)) d = Some targetMailbox ->
  env_acquireLock env = inr k ->
  success k = true ->
  let final := runCopy env mailboxId update session d in
  countEv isRelease (trace final) = 1%nat
  /\ List.length (callbacks (trace final)) = 1%nat
  /\ (forall e, env_releaseLock env = Some e -> In (EvFatal e) (trace final))
  /\ (forall r',
         let final' :=
           runCopy (with_releaseLock r' env) mailboxId update session d in
         callbacks (trace final') = callbacks (trace final)
         /\ db final' = db final)
  /\ (forall e,
         err (loc final) = Some e ->
         callbacks (trace final) = [FnError (env_refineAndLogError env e)]
         /\ exists t1 t2,
             trace final
             = t1 ++ EvReleaseLock
                  :: t2
                  ++ [EvCallback (FnError (env_refineAndLogError env e))]).
Proof.
  intros W R Q A B AL SK. cbv zeta.
  rewrite (runCopy_reach env mailboxId update session d mailbox targetMailbox
                         W R Q A B).
  pose proof (callbacks_finish env update session d mailbox targetMailbox)
    as CF.
  pose proof (release_outcome_irrelevant env update session mailbox
                                         targetMailbox) as RI.
  cbv zeta in CF, RI.
  destruct (copyInto env update session mailbox targetMailbox (started d))
    as [r s'] eqn:C.
  destruct (guarded env update session mailbox targetMailbox (started d))
    as [g s1] eqn:G.
  pose proof (guarded_any env update session mailbox targetMailbox (started d))
    as GA.
  cbv zeta in GA. rewrite G in GA. cbn [fst snd] in GA.
  destruct GA as ([tg [Tg Gg]] & LK & _).
  rewrite AL in LK.
  apply guardedEvent_callbacks in Gg. destruct Gg as [_ Rg].
  pose proof (copyInto_inv env update session mailbox targetMailbox
                           (started d) s1 s' g r eq_refl G C) as I.
  destruct I as (_ & _ & L & t & T & _ & TR & K).
  rewrite LK in TR. cbn [lockSuccess] in TR. rewrite SK in TR.
  pose proof (copyInto_release env update session mailbox targetMailbox
                               (started d) s1 g eq_refl G) as CR.
  rewrite LK in CR. specialize (CR SK). rewrite C in CR. cbn [snd] in CR.
  destruct CR as [t' CR].
  cbn [fst snd] in CF.
  assert (loc (finish env (r, s')) = loc s') as LF.
  { destruct r; reflexivity. }
  split; [|split; [|split; [|split]]].
  - destruct r as [e|u]; cbn [finish emit trace];
      rewrite T, Tg, !countEv_app, Rg, TR; reflexivity.
  - rewrite CF. destruct r; reflexivity.
  - intros e RL. rewrite RL in CR.
    assert (In (EvFatal e) (trace s')) as H.
    { rewrite CR. apply in_or_app. right. right. left. reflexivity. }
    destruct r; cbn [finish emit trace]; [apply in_or_app; left|]; exact H.
  - intros r'.
    rewrite (runCopy_reach (with_releaseLock r' env) mailboxId update session
                           d mailbox targetMailbox W R Q A B).
    pose proof (callbacks_finish (with_releaseLock r' env) update session d
                                 mailbox targetMailbox) as CF'.
    cbv zeta in CF'. specialize (RI r' (started d)). rewrite C in RI.
    destruct (copyInto (with_releaseLock r' env) update session mailbox
                       targetMailbox (started d)) as [r2 s2].
    cbn [fst snd] in RI, CF'. destruct RI as (-> & D2 & _).
    split.
    + rewrite CF', CF.
      change (guarded (with_releaseLock r' env) update session mailbox
                      targetMailbox (started d))
        with (guarded env update session mailbox targetMailbox (started d)).
      rewrite G. reflexivity.
    + destruct r; exact D2.
  - intros e. rewrite LF. intros E.
    destruct g as [e0|[]].
    + rewrite L in E. inversion E; subst e0.
      destruct K as [-> _]. split; [exact CF|].
      cbn [finish emit trace]. rewrite CR.
      exists (trace s1). eexists. rewrite <- app_assoc. reflexivity.
    + destruct L as [L0 L1]. rewrite L0, L1 in E. discriminate.
Qed.

Lemma lock_released_once_on_every_path_witness :
  countEv isRelease
    (trace (runCopy (with_releaseLock (Some Scenario.lockError) Scenario.quiet)
                    "A" Scenario.copyAll Scenario.sess Scenario.account))
  = 1%nat
  /\ In (EvFatal Scenario.lockError)
        (trace (runCopy
                  (with_releaseLock (Some Scenario.lockError) Scenario.quiet)
                  "A" Scenario.copyAll Scenario.sess Scenario.account)).
Proof.
  pose proof (lock_released_once_on_every_path
                (with_releaseLock (Some Scenario.lockError) Scenario.quiet)
                "A" Scenario.copyAll Scenario.sess Scenario.account
                Scenario.boxA Scenario.boxB (mkLock true)
                eq_refl eq_refl eq_refl eq_refl eq_refl eq_refl eq_refl) as H.
  cbv zeta in H. destruct H as (A & _ & F & _).
  split; [exact A | exact (F _ eq_refl)].
Defined.

(** A failed release does not spoil a successful COPY, and a failed batch
    is reported after the one release. *)
Example release_failure_keeps_success :
  callbacks
    (trace (runCopy (with_releaseLock (Some Scenario.lockError) Scenario.quiet)
                    "A" Scenario.copyAll Scenario.sess Scenario.account))
  = [FnResponse true (mkResponse 77 [9; 7; 5] [102; 101; 100])].
Proof. reflexivity. Qed.

Example batch_failure_after_release :
  trace (runCopy
           (with_sqlFault
              (fun n => if Nat.eqb n 0 then Some Scenario.storageError
                        else None)
              Scenario.quiet)
           "A" Scenario.copyToTrash Scenario.sess Scenario.account)
  = [EvRefreshSession; EvIsOverQuota 0; EvAcquireLock;
     EvSelect (mkCondition "A" (Some (QEq 7))); EvBegin;
     EvRun (InsertMessage
              (Messages.mk "n0" "C" 1 1 2592001000 4 false "192.0.2.1"
                           "COPY" false Scenario.twice 3 10));
     EvRollback; EvReleaseLock;
     EvCallback (FnError Scenario.storageError)].
Proof. reflexivity. Qed.

(** A retention that carries the expiry date beyond the last valid date
    makes the date conversion throw inside the transaction: nothing is
    inserted, the batch is rolled back and the error is reported. *)
Example expiry_date_out_of_range_rolls_back :
  trace (runCopy Scenario.quiet "A" Scenario.copyToForever Scenario.sess
                 Scenario.edgeAccount)
  = [EvRefreshSession; EvIsOverQuota 0; EvAcquireLock;
     EvSelect (mkCondition "A" (Some (QEq 7))); EvBegin;
     EvRollback; EvReleaseLock;
     EvCallback (FnError invalidTime)]
  /\ db (runCopy Scenario.quiet "A" Scenario.copyToForever Scenario.sess
                 Scenario.edgeAccount)
     = Scenario.edgeAccount.
Proof. split; vm_compute; reflexivity. Qed.

(** From 2^53 on the counter stays where it is: three rows are copied
    with the same uid, and the stored [uidNext] is the old one. *)
Example counter_stalls_at_2_53 :
  callbacks
    (trace (runCopy Scenario.quiet "A" Scenario.copyToHuge Scenario.sess
                    Scenario.edgeAccount))
  = [FnResponse true
       (mkResponse 9 [9; 7; 5]
          [9007199254740992; 9007199254740992; 9007199254740992])]
  /\ findOne (by_path "Huge")
             (db (runCopy Scenario.quiet "A" Scenario.copyToHuge
                          Scenario.sess Scenario.edgeAccount))
     = Some Scenario.boxH
  /\ increment 9007199254740994 = 9007199254740996.
Proof. repeat split; vm_compute; reflexivity. Qed.


(** ** Further properties of the handler *)

Section Events.
Variable env : Env.
Variable update : Update.
Variable session : Session.
Variable mailbox : Mailboxes.row.
Variable targetMailbox : Mailboxes.row.

Lemma copyMessage_events (i : nat) (m : Messages.row) (s : St) :
  exists t,
    trace (snd (copyMessage env session mailbox targetMailbox i m s))
    = trace s ++ t
    /\ forallb isBatchEvent t = true.
Proof.
  unfold copyMessage, bind, getLoc, putLoc, toISOString, throw, run, ret,
    set_loc, set_db, tick, emit.
  simpl.
  destruct (validTime (expiryTime env targetMailbox i)); simpl.
  2:{ exists []. rewrite app_nil_r. split; reflexivity. }
  destruct (env_sqlFault env (stmtNo s)); simpl.
  - eexists; split; reflexivity.
  - destruct (0 <? List.length (env_getAttachments env (Messages.mimeTree m)))%nat;
      simpl.
    + destruct (env_sqlFault env (S (stmtNo s))); simpl;
        eexists; (split; [rewrite <- app_assoc; reflexivity | reflexivity]).
    + eexists; split; reflexivity.
Qed.

Lemma forEachMessage_events (rows : list Messages.row) :
  forall i s,
    exists t,
      trace (snd (forEachMessage env session mailbox targetMailbox i rows s))
      = trace s ++ t
      /\ forallb isBatchEvent t = true.
Proof.
  induction rows as [|m rest IH]; intros i s; simpl.
  - exists []. rewrite app_nil_r. split; reflexivity.
  - unfold bind.
    destruct (copyMessage_events i m s) as (t1 & T1 & B1).
    destruct (copyMessage env session mailbox targetMailbox i m s)
      as [[e|[]] s1]; cbn [snd] in T1 |- *.
    + exists t1. split; assumption.
    + destruct (IH (S i) s1) as (t2 & T2 & B2).
      exists (t1 ++ t2). split.
      * rewrite T2, T1, app_assoc. reflexivity.
      * rewrite forallb_app, B1, B2. reflexivity.
Qed.

Lemma batch_events (rows : list Messages.row) (s : St) :
  exists t,
    trace (snd (batch env session mailbox targetMailbox rows s))
    = trace s ++ t
    /\ forallb isBatchEvent t = true.
Proof.
  unfold batch, bind, getLoc.
  destruct (forEachMessage_events rows 0 s) as (t1 & T1 & B1).
  destruct (forEachMessage env session mailbox targetMailbox 0 rows s)
    as [[e|[]] s1]; cbn [snd] in T1 |- *.
  - exists t1. split; assumption.
  - match goal with
    | |- context [run env ?st s1] =>
        pose proof (run_any env st s1) as [T2 _];
        destruct (run env st s1) as [[e|[]] s2]; cbn [snd] in T2 |- *
    end.
    + eexists (t1 ++ [_]). split.
      * rewrite T2, T1, app_assoc. reflexivity.
      * rewrite forallb_app, B1. reflexivity.
    + match goal with
      | |- context [run env ?st s2] => pose proof (run_any env st s2) as [T3 _]
      end.
      eexists (t1 ++ [_; _]). split.
      * rewrite T3, T2, T1, <- !app_assoc. reflexivity.
      * rewrite forallb_app, B1. reflexivity.
Qed.

Lemma transaction_events (body : M unit) (s : St) :
  (forall s0, exists t, trace (snd (body s0)) = trace s0 ++ t
                        /\ forallb isBatchEvent t = true) ->
  exists t,
    trace (snd (transaction env body s)) = trace s ++ t
    /\ forallb isBatchEvent t = true.
Proof.
  intros B. unfold transaction.
  destruct (env_begin env).
  - exists [EvBegin]. split; reflexivity.
  - destruct (B (emit EvBegin s)) as (t & T & Bt).
    destruct (body (emit EvBegin s)) as [[e|u] s1]; cbn [snd] in T |- *;
      cbn [emit trace] in T.
    + exists ([EvBegin] ++ t ++ [EvRollback]). split.
      * unfold emit, set_db. cbn [trace]. rewrite T, <- !app_assoc.
        reflexivity.
      * cbn [app forallb isBatchEvent andb]. rewrite forallb_app, Bt.
        reflexivity.
    + destruct (env_commit env); unfold emit, set_db; cbn [snd trace].
      * exists ([EvBegin] ++ t ++ [EvCommit; EvRollback]). split.
        -- rewrite T, <- !app_assoc. reflexivity.
        -- cbn [app forallb isBatchEvent andb]. rewrite forallb_app, Bt.
           reflexivity.
      * exists ([EvBegin] ++ t ++ [EvCommit]). split.
        -- rewrite T, <- !app_assoc. reflexivity.
        -- cbn [app forallb isBatchEvent andb]. rewrite forallb_app, Bt.
           reflexivity.
Qed.

(** The guarded section asks for the lock first, selects next, and only
    then runs the batch. *)
Lemma guarded_shape (s : St) :
  exists tb,
    trace (snd (guarded env update session mailbox targetMailbox s))
    = trace s
      ++ EvAcquireLock
         :: match env_acquireLock env with
            | inl _ => []
            | inr _ => EvSelect (condition env update mailbox) :: tb
            end
    /\ forallb isBatchEvent tb = true.
Proof.
  unfold guarded, bind, call, call_, getLoc, putLoc, getDb, ret,
    set_loc, emit.
  destruct (env_acquireLock env) as [e|k]; cbn [fst snd trace loc db].
  - exists []. split; reflexivity.
  - destruct (env_select env) as [e|]; cbn [fst snd trace loc db].
    + exists []. split; [rewrite <- app_assoc; reflexivity | reflexivity].
    + destruct (0 <? List.length
                       (selectMessages (condition env update mailbox) (db s)))%nat.
      * match goal with
        | |- context [transaction env ?b ?x] =>
            destruct (transaction_events b x
                        (batch_events _)) as (t & T & Bt)
        end.
        exists t. split; [|exact Bt].
        rewrite T. cbn [trace]. rewrite <- !app_assoc. reflexivity.
      * exists []. cbn [snd trace].
        split; [rewrite <- app_assoc; reflexivity | reflexivity].
Qed.

(** What follows a guarded section that threw. *)
Lemma copyInto_after_throw (s s1 : St) (e : Error) :
  guarded env update session mailbox targetMailbox s = (inl e, s1) ->
  copyInto env update session mailbox targetMailbox s
  = (inl e,
     mkSt (db s1) (set_err e (loc s1))
          (trace s1 ++ releaseTrace env (loc s1)) (stmtNo s1)).
Proof.
  intros G.
  unfold copyInto, copyIntoFn, callFn, returns, bind, try_catch, getLoc, putLoc, call_, log, throw, ret,
    set_loc, emit, releaseTrace, set_err.
  rewrite G. cbn [fst snd trace loc db stmtNo lock err].
  destruct (lockSuccess (lock (loc s1))).
  - destruct (env_releaseLock env); cbn [fst snd trace loc db stmtNo err];
      rewrite <- ?app_assoc; reflexivity.
  - rewrite app_nil_r. reflexivity.
Qed.

(** What follows a guarded section that returned. *)
Lemma copyInto_after_return (s s1 : St) :
  err (loc s) = None ->
  guarded env update session mailbox targetMailbox s = (inr tt, s1) ->
  copyInto env update session mailbox targetMailbox s
  = (match notifyError env (loc s1) with
     | Some e => inl e
     | None => inr tt
     end,
     mkSt (db s1) (loc s1)
          (trace s1
           ++ releaseTrace env (loc s1)
           ++ recheckTrace (loc s1)
           ++ refreshTrace env
           ++ notifyTrace env (loc s1)
           ++ match notifyError env (loc s1) with
              | Some _ => []
              | None =>
                  [EvCallback
                     (FnResponse true (responseOf targetMailbox (loc s1)))]
              end)
          (stmtNo s1)).
Proof.
  intros E0 G.
  pose proof (guarded_any env update session mailbox targetMailbox s) as A.
  cbv zeta in A. rewrite G in A. cbn [fst snd] in A.
  destruct A as (_ & _ & E1 & _). rewrite E0 in E1.
  unfold copyInto, copyIntoFn, callFn, returns, bind, try_catch, getLoc, putLoc, call_, log, throw, ret,
    set_loc, emit, releaseTrace, recheckTrace, refreshTrace, notifyTrace,
    notifyError, responseOf.
  rewrite G. cbn [fst snd trace loc db stmtNo lock err]. rewrite E1.
  destruct (lockSuccess (lock (loc s1)));
    split_oracles; cbn [app]; rewrite <- ?app_assoc; reflexivity.
Qed.
End Events.

Lemma batch_events_no_callback (t : list Event) :
  forallb isBatchEvent t = true ->
  callbacks t = []
  /\ forallb isStorageAccess t = true
  /\ countEv isAcquire t = O
  /\ countEv isRelease t = O
  /\ countEv isNotify t = O
  /\ countEv isRecheck t = O.
Proof.
  unfold countEv.
  induction t as [|e t IH]; simpl; [repeat split; reflexivity|].
  intros H. apply andb_prop in H. destruct H as [He Ht].
  destruct (IH Ht) as (A & B & C & D & E & F).
  destruct e; simpl in He |- *; try discriminate; repeat split; assumption.
Qed.

Section Runs.
Variable env : Env.
Variable mailboxId : string.
Variable update : Update.
Variable session : Session.
Variable d : Db.

Let final := runCopy env mailboxId update session d.

(** A run either reaches the guarded section or ends early, having called
    back once and touched nothing. *)
Lemma runCopy_early :
  (exists mailbox targetMailbox,
      env_wsp env = None
      /\ env_refreshSession env = None
      /\ env_isOverQuota env 0 = inr false
      /\ findOne (by_id mailboxId) d = Some mailbox
      /\ findOne (by_path (destination update)) d = Some targetMailbox)
  \/ (db final = d
      /\ exists pre a,
          trace final = pre ++ [EvCallback a]
          /\ forallb isEarlyEvent pre = true).
Proof.
  unfold final.
  destruct (env_wsp env) as [reply|] eqn:W.
  { right. unfold runCopy, onCopy, onCopyFn. rewrite W.
    unfold copyRemote, copyRemoteFn, try_catch, bind, call, callFn, returns, emit.
    destruct reply as [e|[b resp]]; [destruct (truthy_string _)|];
      cbn [fst snd db trace app]; (split; [reflexivity|]);
      exists [EvWspRequest]; eexists; split; reflexivity. }
  destruct (env_refreshSession env) as [e|] eqn:R.
  { right. unfold runCopy, onCopy, onCopyFn. rewrite W.
    unfold try_catch, copyLocal, copyLocalFn, callFn, returns, bind, call_, log, emit. rewrite R.
    cbn [fst snd db trace app]. split; [reflexivity|].
    exists [EvRefreshSession]. eexists. split; reflexivity. }
  destruct (env_isOverQuota env 0) as [e|[]] eqn:Q.
  1,2: right; unfold runCopy, onCopy, onCopyFn; rewrite W;
    unfold try_catch, copyLocal, copyLocalFn, callFn, returns, bind, call_, call, throw, log, emit;
    rewrite R, Q; cbn [fst snd db trace app]; (split; [reflexivity|]);
    exists [EvRefreshSession; EvIsOverQuota 0]; eexists; split; reflexivity.
  destruct (findOne (by_id mailboxId) d) as [mailbox|] eqn:A.
  2:{ right. unfold runCopy, onCopy, onCopyFn. rewrite W.
      unfold try_catch, copyLocal, copyLocalFn, callFn, returns, bind, call_, call, putLoc, getDb, throw,
        ret, log, set_loc, emit.
      rewrite R, Q. cbn [fst snd trace loc db stmtNo app]. rewrite A.
      cbn [fst snd db trace app]. split; [reflexivity|].
      exists [EvRefreshSession; EvIsOverQuota 0]. eexists.
      split; reflexivity. }
  destruct (findOne (by_path (destination update)) d) as [target|] eqn:B.
  2:{ right. unfold runCopy, onCopy, onCopyFn. rewrite W.
      unfold try_catch, copyLocal, copyLocalFn, callFn, returns, bind, call_, call, putLoc, getDb, throw,
        ret, log, set_loc, emit.
      rewrite R, Q. cbn [fst snd trace loc db stmtNo app]. rewrite A, B.
      cbn [fst snd db trace app]. split; [reflexivity|].
      exists [EvRefreshSession; EvIsOverQuota 0]. eexists.
      split; reflexivity. }
  left. exists mailbox, target. repeat split; reflexivity.
Qed.

(** The whole trace of a run that reaches the guarded section. *)
Lemma runCopy_reach_trace (mailbox targetMailbox : Mailboxes.row) :
  env_wsp env = None ->
  env_refreshSession env = None ->
  env_isOverQuota env 0 = inr false ->
  findOne (by_id mailboxId) d = Some mailbox ->
  findOne (by_path (destination update)) d = Some targetMailbox ->
  let g := guarded env update session mailbox targetMailbox (started d) in
  exists tb,
    forallb isBatchEvent tb = true
    /\ db final = db (snd g)
    /\ lock (loc (snd g))
       = match env_acquireLock env with
         | inr k => Some k
         | inl _ => None
         end
    /\ trace final
       = [EvRefreshSession; EvIsOverQuota 0; EvAcquireLock]
         ++ match env_acquireLock env with
            | inl _ => []
            | inr _ => EvSelect (condition env update mailbox) :: tb
            end
         ++ releaseTrace env (loc (snd g))
         ++ match fst g with
            | inl e => [EvCallback (FnError (env_refineAndLogError env e))]
            | inr _ =>
                recheckTrace (loc (snd g))
                ++ refreshTrace env
                ++ notifyTrace env (loc (snd g))
                ++ [EvCallback
                      match notifyError env (loc (snd g)) with
                      | Some e => FnError (env_refineAndLogError env e)
                      | None =>
                          FnResponse true
                            (responseOf targetMailbox (loc (snd g)))
                      end]
            end.
Proof.
  intros W R Q A B. cbv zeta. unfold final.
  rewrite (runCopy_reach env mailboxId update session d mailbox targetMailbox
                         W R Q A B).
  destruct (guarded_shape env update session mailbox targetMailbox (started d))
    as (tb & T & Bt).
  pose proof (guarded_any env update session mailbox targetMailbox (started d))
    as GA.
  cbv zeta in GA. destruct GA as (_ & LK & _).
  destruct (guarded env update session mailbox targetMailbox (started d))
    as [[e|[]] s1] eqn:G; cbn [fst snd] in T, LK |- *.
  - rewrite (copyInto_after_throw env update session mailbox targetMailbox
                                  _ _ _ G).
    exists tb. cbn [finish emit db trace]. rewrite T.
    cbn [started trace]. repeat split; try assumption.
    rewrite <- !app_assoc. reflexivity.
  - rewrite (copyInto_after_return env update session mailbox targetMailbox
                                   (started d) s1 eq_refl G).
    exists tb. repeat split; try assumption.
    + destruct (notifyError env (loc s1)); reflexivity.
    + destruct (notifyError env (loc s1)); cbn [finish emit db trace];
        rewrite T; cbn [started trace]; rewrite <- !app_assoc;
        cbn [app]; rewrite ?app_nil_r; reflexivity.
Qed.
End Runs.

Lemma early_events_silent (t : list Event) :
  forallb isEarlyEvent t = true ->
  callbacks t = []
  /\ countEv isAcquire t = O
  /\ countEv isRelease t = O
  /\ countEv isStorageAccess t = O.
Proof.
  unfold countEv.
  induction t as [|e t IH]; simpl; [repeat split; reflexivity|].
  intros H. apply andb_prop in H. destruct H as [He Ht].
  destruct (IH Ht) as (A & B & C & D).
  destruct e; simpl in He |- *; try discriminate; repeat split; assumption.
Qed.

Lemma step_traces_silent (env : Env) (l : Locals) :
  callbacks (releaseTrace env l) = []
  /\ callbacks (recheckTrace l) = []
  /\ callbacks (refreshTrace env) = []
  /\ callbacks (notifyTrace env l) = [].
Proof.
  unfold releaseTrace, recheckTrace, refreshTrace, notifyTrace.
  repeat split; split_oracles; reflexivity.
Qed.

Lemma step_traces_tail (env : Env) (l : Locals) :
  forallb isTailEvent (releaseTrace env l) = true
  /\ forallb isTailEvent (recheckTrace l) = true
  /\ forallb isTailEvent (refreshTrace env) = true
  /\ forallb isTailEvent (notifyTrace env l) = true.
Proof.
  unfold releaseTrace, recheckTrace, refreshTrace, notifyTrace.
  repeat split; split_oracles; reflexivity.
Qed.

(** With a callback that returns there is one call, the last event. *)
Lemma runCopy_calls_back_last
    (env : Env) (mailboxId : string) (update : Update) (session : Session)
    (d : Db) :
  exists pre a,
    trace (runCopy env mailboxId update session d) = pre ++ [EvCallback a]
    /\ callbacks pre = []
    /\ callbacks (trace (runCopy env mailboxId update session d)) = [a].
Proof.
  assert (forall pre a t, t = pre ++ [EvCallback a] -> callbacks pre = [] ->
            exists pre' a', t = pre' ++ [EvCallback a']
                            /\ callbacks pre' = [] /\ callbacks t = [a'])
    as K.
  { intros pre a t -> C. exists pre, a. repeat split; try assumption.
    rewrite callbacks_app, C. reflexivity. }
  destruct (runCopy_early env mailboxId update session d)
    as [(mailbox & target & W & R & Q & A & B) | (_ & pre & a & T & E)].
  2:{ apply (K pre a _ T). apply early_events_silent. exact E. }
  destruct (runCopy_reach_trace env mailboxId update session d mailbox target
                                W R Q A B) as (tb & Bt & _ & _ & T).
  cbv zeta in T.
  destruct (batch_events_no_callback tb Bt) as (Cb & _).
  set (l := loc (snd (guarded env update session mailbox target (started d))))
    in *.
  destruct (step_traces_silent env l) as (C1 & C2 & C3 & C4).
  destruct (fst (guarded env update session mailbox target (started d))).
  - eapply K; [rewrite T, !app_assoc; reflexivity|].
    rewrite !callbacks_app, C1.
    destruct (env_acquireLock env); cbn; rewrite ?Cb; reflexivity.
  - eapply K; [rewrite T, !app_assoc; reflexivity|].
    rewrite !callbacks_app, C1, C2, C3, C4.
    destruct (env_acquireLock env); cbn; rewrite ?Cb; reflexivity.
Qed.

Section Callback.
Variable env : Env.
Variable fn : FnArgs -> option Error.
Variable mailboxId : string.
Variable update : Update.
Variable session : Session.
Variable d : Db.

(** A throwing callback changes the outcome of [copyIntoFn] only. *)
Lemma copyIntoFn_result (mailbox targetMailbox : Mailboxes.row) (s : St) :
  copyIntoFn env update session mailbox targetMailbox fn s
  = match copyInto env update session mailbox targetMailbox s with
    | (inl e, s') => (inl e, s')
    | (inr _, s') =>
        (match fn (FnResponse true (responseOf targetMailbox (loc s'))) with
         | Some e => inl e
         | None => inr tt
         end, s')
    end.
Proof.
  unfold copyInto, copyIntoFn, callFn, returns, bind, try_catch, getLoc,
    putLoc, call_, log, throw, ret, set_loc, emit, responseOf.
  destruct (guarded env update session mailbox targetMailbox s)
    as [[e|[]] s1]; cbn [fst snd trace loc db stmtNo lock err];
    destruct (lockSuccess (lock (loc s1)));
    split_oracles; reflexivity.
Qed.

Lemma runCopyFn_reach (mailbox targetMailbox : Mailboxes.row) :
  env_wsp env = None ->
  env_refreshSession env = None ->
  env_isOverQuota env 0 = inr false ->
  findOne (by_id mailboxId) d = Some mailbox ->
  findOne (by_path (destination update)) d = Some targetMailbox ->
  runCopyFn env mailboxId update session fn d
  = finish env (copyIntoFn env update session mailbox targetMailbox fn
                           (started d)).
Proof.
  intros W R Q A B.
  unfold runCopyFn, onCopyFn. rewrite W.
  unfold try_catch, copyLocalFn, callFn, bind, call_, call, putLoc, getDb,
    throw, ret, log, set_loc, emit.
  rewrite R, Q. cbn [fst snd trace loc db stmtNo app].
  rewrite A, B.
  fold (started d).
  destruct (copyIntoFn env update session mailbox targetMailbox fn (started d))
    as [[e|u] s']; reflexivity.
Qed.

(** The run with [fn] is the run with a callback that returns, followed by
    the second call when the first reported success and threw. *)
Lemma runCopyFn_trace :
  exists pre a,
    callbacks pre = []
    /\ trace (runCopy env mailboxId update session d) = pre ++ [EvCallback a]
    /\ trace (runCopyFn env mailboxId update session fn d)
       = pre ++ EvCallback a :: retryTrace env fn a
    /\ db (runCopyFn env mailboxId update session fn d)
       = db (runCopy env mailboxId update session d).
Proof.
  destruct (env_wsp env) as [reply|] eqn:W.
  { unfold runCopy, runCopyFn, onCopy, onCopyFn, retryTrace, errorReport.
    rewrite W.
    unfold copyRemoteFn, try_catch, bind, call, callFn, returns, emit.
    exists [EvWspRequest].
    destruct reply as [e|[b resp]]; cbn [fst snd trace db app].
    - destruct (truthy_string (imapResponse e)); eexists;
        repeat split; reflexivity.
    - exists (FnResponse b resp).
      destruct (fn (FnResponse b resp)) as [e|];
        [destruct (truthy_string (imapResponse e))|];
        repeat split; reflexivity. }
  destruct (env_refreshSession env) as [e|] eqn:R.
  { unfold runCopy, runCopyFn, onCopy, onCopyFn. rewrite W.
    unfold try_catch, copyLocalFn, bind, call_, callFn, returns, emit.
    rewrite R. cbn [fst snd db trace app].
    exists [EvRefreshSession]. eexists. repeat split; reflexivity. }
  destruct (env_isOverQuota env 0) as [e|[]] eqn:Q.
  1,2: unfold runCopy, runCopyFn, onCopy, onCopyFn; rewrite W;
    unfold try_catch, copyLocalFn, bind, call_, call, callFn, returns,
      throw, emit;
    rewrite R, Q; cbn [fst snd db trace app];
    exists [EvRefreshSession; EvIsOverQuota 0]; eexists;
    repeat split; reflexivity.
  destruct (findOne (by_id mailboxId) d) as [mailbox|] eqn:A.
  2:{ unfold runCopy, runCopyFn, onCopy, onCopyFn. rewrite W.
      unfold try_catch, copyLocalFn, bind, call_, call, callFn, returns,
        putLoc, getDb, throw, ret, set_loc, emit.
      rewrite R, Q. cbn [fst snd trace loc db stmtNo app]. rewrite A.
      cbn [fst snd db trace app].
      exists [EvRefreshSession; EvIsOverQuota 0]. eexists.
      repeat split; reflexivity. }
  destruct (findOne (by_path (destination update)) d) as [target|] eqn:B.
  2:{ unfold runCopy, runCopyFn, onCopy, onCopyFn. rewrite W.
      unfold try_catch, copyLocalFn, bind, call_, call, callFn, returns,
        putLoc, getDb, throw, ret, set_loc, emit.
      rewrite R, Q. cbn [fst snd trace loc db stmtNo app]. rewrite A, B.
      cbn [fst snd db trace app].
      exists [EvRefreshSession; EvIsOverQuota 0]. eexists.
      repeat split; reflexivity. }
  destruct (runCopy_calls_back_last env mailboxId update session d)
    as (pre & a & T & C & _).
  exists pre, a. split; [exact C|]. split; [exact T|].
  rewrite (runCopyFn_reach mailbox target W R Q A B).
  rewrite (runCopy_reach env mailboxId update session d mailbox target
                         W R Q A B) in T |- *.
  rewrite copyIntoFn_result.
  destruct (guarded env update session mailbox target (started d))
    as [[e|[]] s1] eqn:G.
  - rewrite (copyInto_after_throw env update session mailbox target
                                  _ _ _ G) in T |- *.
    cbn [finish emit trace db] in T |- *.
    apply app_inj_tail in T. destruct T as [P T]. injection T as <-.
    cbn [retryTrace]. rewrite <- P. split; reflexivity.
  - rewrite (copyInto_after_return env update session mailbox target
                                   (started d) s1 eq_refl G) in T |- *.
    destruct (notifyError env (loc s1)) as [e|];
      cbn [finish emit trace db loc] in T |- *.
    + rewrite app_nil_r in T.
      apply app_inj_tail in T. destruct T as [P T]. injection T as <-.
      cbn [retryTrace]. rewrite <- P, app_nil_r. split; reflexivity.
    + rewrite !app_assoc in T.
      apply app_inj_tail in T. destruct T as [P T]. injection T as <-.
      unfold retryTrace, errorReport. rewrite W.
      destruct (fn (FnResponse true (responseOf target (loc s1)))) as [e|];
        cbn [finish emit trace db]; (split; [|reflexivity]).
      * rewrite <- P, <- !app_assoc. reflexivity.
      * rewrite <- P, <- !app_assoc. reflexivity.
Qed.
End Callback.

(** X1.  On every path, remote or local, the handler calls [fn] once and
    that call is its last step, unless the call that reports success
    throws: that call is inside the [try], so the [catch] calls [fn] a
    second time, with the error thrown (refined locally; with a worker
    pool, its response code or the error itself).  A call that reports an
    error is never repeated, and the database is what it is with a
    callback that returns. *)
Theorem callback_called_once_unless_it_throws
    (env : Env) (fn : FnArgs -> option Error) (mailboxId : string)
    (update : Update) (session : Session) (d : Db) :
  let t := trace (runCopyFn env mailboxId update session fn d) in
  exists pre a,
    callbacks pre = []
    /\ t = pre ++ EvCallback a :: retryTrace env fn a
    /\ (fn a = None -> callbacks t = [a])
    /\ (isSuccessCall a = false -> callbacks t = [a])
    /\ (forall e, isSuccessCall a = true -> fn a = Some e ->
                  callbacks t = [a; errorReport env e])
    /\ db (runCopyFn env mailboxId update session fn d)
       = db (runCopy env mailboxId update session d).
Proof.
  cbv zeta.
  destruct (runCopyFn_trace env fn mailboxId update session d)
    as (pre & a & C & _ & T & D).
  exists pre, a. rewrite T, callbacks_app, C. cbn [app callbacks].
  repeat split; try exact D.
  - intros N. unfold retryTrace. rewrite N. destruct a; reflexivity.
  - intros N. destruct a; [discriminate N|reflexivity|reflexivity].
  - intros e S F. unfold retryTrace. rewrite F.
    destruct a; [reflexivity|discriminate S|discriminate S].
Qed.

(** A callback that throws on success is called twice by a COPY that
    succeeded, and the rows stay copied. *)
Example throwing_callback_is_called_twice :
  callbacks
    (trace (runCopyFn Scenario.quiet "A" Scenario.copyAll Scenario.sess
                      Scenario.throwing Scenario.account))
  = [FnResponse true (mkResponse 77 [9; 7; 5] [102; 101; 100]);
     FnError Scenario.callbackError]
  /\ List.length
       (tMessages
          (db (runCopyFn Scenario.quiet "A" Scenario.copyAll Scenario.sess
                         Scenario.throwing Scenario.account)))
     = 6%nat.
Proof. split; vm_compute; reflexivity. Qed.

(** The two databases a run can leave. *)
Lemma runCopy_db_cases
    (env : Env) (mailboxId : string) (update : Update) (session : Session)
    (d : Db) :
  db (runCopy env mailboxId update session d) = d
  \/ exists mailbox targetMailbox k,
      findOne (by_id mailboxId) d = Some mailbox
      /\ findOne (by_path (destination update)) d = Some targetMailbox
      /\ env_acquireLock env = inr k
      /\ selected env update mailbox d <> []
      /\ ~ batchFails env targetMailbox (selected env update mailbox d)
      /\ db (runCopy env mailboxId update session d)
         = batchDb env session mailbox targetMailbox
                   (selected env update mailbox d)
                   (lockedLocals targetMailbox k) d.
Proof.
  destruct (runCopy_early env mailboxId update session d)
    as [(mailbox & target & W & R & Q & A & B) | (D & _)]; [|left; exact D].
  destruct (runCopy_reach_trace env mailboxId update session d mailbox target
                                W R Q A B) as (tb & _ & D & _ & _).
  cbv zeta in D. rewrite D.
  pose proof (guarded_any env update session mailbox target (started d)) as GA.
  cbv zeta in GA. destruct GA as (_ & _ & _ & GD).
  destruct (guarded env update session mailbox target (started d))
    as [[e|[]] s1] eqn:G; cbn [fst snd] in GD |- *.
  { left. exact (GD e eq_refl). }
  apply guarded_ok in G; [|reflexivity].
  destruct G as (k & AL & _ & G). cbn [started db stmtNo] in G.
  destruct (selected env update mailbox d) as [|m rest] eqn:Sel.
  { left. subst s1. reflexivity. }
  right. exists mailbox, target, k. rewrite Sel.
  destruct G as (Bg & Cm & F & V & ->).
  split; [exact A|]. split; [exact B|]. split; [exact AL|].
  split; [discriminate|]. split; [|reflexivity].
  intros [BF|[(n & Hn & BF)|[BF|(j & Hj & BF)]]].
  - apply BF. exact Bg.
  - apply BF, F. cbn [started stmtNo]. lia.
  - apply BF. exact Cm.
  - rewrite (V j Hj) in BF. discriminate BF.
Qed.

(** X2.  Whatever fails and wherever, the database a COPY leaves is either
    the one it found or that one with the whole batch applied; the latter
    only when rows were selected and no step of the batch failed. *)
Theorem copy_is_all_or_nothing
    (env : Env) (mailboxId : string) (update : Update) (session : Session)
    (d : Db) :
  db (runCopy env mailboxId update session d) = d
  \/ exists mailbox targetMailbox k,
      findOne (by_id mailboxId) d = Some mailbox
      /\ findOne (by_path (destination update)) d = Some targetMailbox
      /\ env_acquireLock env = inr k
      /\ selected env update mailbox d <> []
      /\ ~ batchFails env targetMailbox (selected env update mailbox d)
      /\ db (runCopy env mailboxId update session d)
         = batchDb env session mailbox targetMailbox
                   (selected env update mailbox d)
                   (lockedLocals targetMailbox k) d.
Proof.
  exact (runCopy_db_cases env mailboxId update session d).
Qed.

(** X3.  With a worker pool configured the handler only forwards: it hands
    the remote answer to the callback (an error that carries a response
    code as that code, any other error as it is) and neither refreshes the
    session, checks the quota, asks for the lock nor touches the database. *)
Theorem remote_copy_does_nothing_locally
    (env : Env) (mailboxId : string) (update : Update) (session : Session)
    (d : Db) (reply : Error + bool * Response) :
  env_wsp env = Some reply ->
  let final := runCopy env mailboxId update session d in
  trace final
  = [EvWspRequest;
     EvCallback
       match reply with
       | inr (b, response) => FnResponse b response
       | inl e =>
           match truthy_string (imapResponse e) with
           | Some code => FnCode code
           | None => FnError e
           end
       end]
  /\ db final = d
  /\ loc final = initLocals.
Proof.
  intros W. cbv zeta. unfold runCopy, onCopy, onCopyFn. rewrite W.
  unfold copyRemote, copyRemoteFn, try_catch, bind, call, callFn, returns, emit.
  destruct reply as [e|[b resp]]; [destruct (truthy_string _)|];
    repeat split; reflexivity.
Qed.

Lemma remote_copy_does_nothing_locally_witness :
  trace (runCopy
           (with_wsp (Some (inl (IMAPError "over quota" "OVERQUOTA")))
                     Scenario.quiet)
           "A" Scenario.copyAll Scenario.sess Scenario.account)
  = [EvWspRequest; EvCallback (FnCode "OVERQUOTA")].
Proof.
  exact (proj1
    (remote_copy_does_nothing_locally
       (with_wsp (Some (inl (IMAPError "over quota" "OVERQUOTA")))
                 Scenario.quiet)
       "A" Scenario.copyAll Scenario.sess Scenario.account _ eq_refl)).
Defined.

Lemma step_release_counts (env : Env) (l : Locals) :
  countEv isRelease (releaseTrace env l)
  = (if lockSuccess (lock l) then 1%nat else O)
  /\ countEv isRelease (recheckTrace l) = O
  /\ countEv isRelease (refreshTrace env) = O
  /\ countEv isRelease (notifyTrace env l) = O.
Proof.
  unfold releaseTrace, recheckTrace, refreshTrace, notifyTrace, countEv.
  repeat split; split_oracles; reflexivity.
Qed.

Lemma countEv_forallb_tail (t : list Event) :
  forallb isTailEvent t = true ->
  countEv isStorageAccess t = O /\ countEv isAcquire t = O.
Proof.
  intros H. destruct (tail_counts t H) as (_ & A & S). split; assumption.
Qed.

(** X4.  Under the reaching conditions the lock is asked for once, and its
    release is attempted exactly when a lock was returned that reports
    success.  When the lock helper throws, nothing is selected, written or
    released, and its error is what the callback gets. *)
Theorem release_follows_lock_success
    (env : Env) (mailboxId : string) (update : Update) (session : Session)
    (d : Db) (mailbox targetMailbox : Mailboxes.row) :
  env_wsp env = None ->
  env_refreshSession env = None ->
  env_isOverQuota env 0 = inr false ->
  findOne (by_id mailboxId) d = Some mailbox ->
  findOne (by_path (destination update)) d = Some targetMailbox ->
  let final := runCopy env mailboxId update session d in
  countEv isAcquire (trace final) = 1%nat
  /\ countEv isRelease (trace final)
     = match env_acquireLock env with
       | inr k => if success k then 1%nat else O
       | inl _ => O
       end
  /\ (forall e,
         env_acquireLock env = inl e ->
         trace final
         = [EvRefreshSession; EvIsOverQuota 0; EvAcquireLock;
            EvCallback (FnError (env_refineAndLogError env e))]
         /\ db final = d).
Proof.
  intros W R Q A B. cbv zeta.
  destruct (runCopy_reach_trace env mailboxId update session d mailbox
                                targetMailbox W R Q A B)
    as (tb & Bt & D & LK & T).
  cbv zeta in D, LK, T.
  pose proof (guarded_any env update session mailbox targetMailbox (started d))
    as GA.
  cbv zeta in GA. destruct GA as (_ & _ & _ & GD).
  destruct (batch_events_no_callback tb Bt) as (_ & _ & Ab & Rb & _).
  set (g := guarded env update session mailbox targetMailbox (started d)) in *.
  destruct (step_release_counts env (loc (snd g))) as (R1 & R2 & R3 & R4).
  destruct (step_traces_tail env (loc (snd g))) as (T1 & T2 & T3 & T4).
  apply countEv_forallb_tail in T1, T2, T3, T4.
  destruct T1 as [_ A1], T2 as [_ A2], T3 as [_ A3], T4 as [_ A4].
  rewrite LK in R1. cbn [lockSuccess] in R1.
  split; [|split].
  - rewrite T, !countEv_app, A1.
    destruct (env_acquireLock env), (fst g);
      rewrite ?countEv_app, ?A2, ?A3, ?A4;
      change (countEv isAcquire (EvSelect ?c :: tb))
        with (countEv isAcquire tb);
      rewrite ?Ab; reflexivity.
  - rewrite T, !countEv_app, R1.
    destruct (env_acquireLock env) as [e|k], (fst g);
      rewrite ?countEv_app, ?R2, ?R3, ?R4;
      change (countEv isRelease (EvSelect ?c :: tb))
        with (countEv isRelease tb);
      rewrite ?Rb; cbn [lockSuccess]; try reflexivity;
      destruct (success k); reflexivity.
  - intros e AL. rewrite D.
    assert (g = (inl e, emit EvAcquireLock (started d))) as G.
    { unfold g, guarded, bind, call. rewrite AL. reflexivity. }
    rewrite T, G, AL. cbn [fst snd]. unfold releaseTrace.
    cbn [emit loc started initLocals lock lockSuccess db]. split; reflexivity.
Qed.

Lemma release_follows_lock_success_witness :
  trace (runCopy
           (with_acquireLock (inl Scenario.lockError) Scenario.quiet)
           "A" Scenario.copyAll Scenario.sess Scenario.account)
  = [EvRefreshSession; EvIsOverQuota 0; EvAcquireLock;
     EvCallback (FnError Scenario.lockError)]
  /\ db (runCopy
           (with_acquireLock (inl Scenario.lockError) Scenario.quiet)
           "A" Scenario.copyAll Scenario.sess Scenario.account)
     = Scenario.account.
Proof.
  exact (proj2 (proj2
    (release_follows_lock_success
       (with_acquireLock (inl Scenario.lockError) Scenario.quiet)
       "A" Scenario.copyAll Scenario.sess Scenario.account
       Scenario.boxA Scenario.boxB eq_refl eq_refl eq_refl eq_refl eq_refl))
    Scenario.lockError eq_refl).
Defined.

(** X5.  With a lock that reports success, the select of the messages and
    every step of the transaction (begin, statements, commit, rollback)
    lie between the lock request and the one release; none comes before
    the first or after the second.  The two mailbox lookups of lines
    104-118 are made before the lock is asked for; they are the
    hypotheses on [findOne] and no event of the trace. *)
Theorem messages_accessed_only_under_lock
    (env : Env) (mailboxId : string) (update : Update) (session : Session)
    (d : Db) (mailbox targetMailbox : Mailboxes.row) (k : Lock) :
  env_wsp env = None ->
  env_refreshSession env = None ->
  env_isOverQuota env 0 = inr false ->
  findOne (by_id mailboxId) d = Some mailbox ->
  findOne (by_path (destination update)) d = Some targetMailbox ->
  env_acquireLock env = inr k ->
  success k = true ->
  exists mid post,
    trace (runCopy env mailboxId update session d)
    = [EvRefreshSession; EvIsOverQuota 0; EvAcquireLock]
      ++ mid ++ EvReleaseLock :: post
    /\ forallb isStorageAccess mid = true
    /\ countEv isStorageAccess post = O
    /\ countEv isAcquire post = O
    /\ countEv isRelease post = O.
Proof.
  intros W R Q A B AL SK.
  destruct (runCopy_reach_trace env mailboxId update session d mailbox
                                targetMailbox W R Q A B)
    as (tb & Bt & _ & LK & T).
  cbv zeta in LK, T. rewrite AL in LK, T.
  destruct (batch_events_no_callback tb Bt) as (_ & Sb & _).
  set (g := guarded env update session mailbox targetMailbox (started d)) in *.
  destruct (step_release_counts env (loc (snd g))) as (_ & R2 & R3 & R4).
  destruct (step_traces_tail env (loc (snd g))) as (_ & T2 & T3 & T4).
  apply tail_counts in T2, T3, T4.
  destruct T2 as (_ & A2 & S2), T3 as (_ & A3 & S3), T4 as (_ & A4 & S4).
  unfold releaseTrace in T. rewrite LK in T. cbn [lockSuccess] in T.
  rewrite SK in T.
  exists (EvSelect (condition env update mailbox) :: tb).
  eexists. split; [rewrite T; cbn [app]; reflexivity|].
  split; [cbn [forallb isStorageAccess andb]; exact Sb|].
  destruct (env_releaseLock env), (fst g); cbn [app];
    repeat split;
    repeat (change (countEv ?p (EvFatal ?e :: ?x)) with (countEv p x));
    rewrite ?countEv_app, ?R2, ?R3, ?R4, ?A2, ?A3, ?A4, ?S2, ?S3, ?S4;
    reflexivity.
Qed.

Lemma messages_accessed_only_under_lock_witness :
  exists mid post,
    trace (runCopy Scenario.quiet "A" Scenario.copyAll Scenario.sess
                   Scenario.account)
    = [EvRefreshSession; EvIsOverQuota 0; EvAcquireLock]
      ++ mid ++ EvReleaseLock :: post
    /\ forallb isStorageAccess mid = true
    /\ countEv isStorageAccess post = O
    /\ countEv isAcquire post = O
    /\ countEv isRelease post = O.
Proof.
  exact (messages_accessed_only_under_lock
           Scenario.quiet "A" Scenario.copyAll Scenario.sess Scenario.account
           Scenario.boxA Scenario.boxB (mkLock true)
           eq_refl eq_refl eq_refl eq_refl eq_refl eq_refl eq_refl).
Defined.

Section Returning.
Variable env : Env.
Variable update : Update.
Variable session : Session.
Variable mailbox : Mailboxes.row.
Variable targetMailbox : Mailboxes.row.

Lemma loopTrace_batch (rows : list Messages.row) :
  forall i u,
    forallb isBatchEvent
            (loopTrace env session mailbox targetMailbox i u rows) = true.
Proof.
  induction rows as [|m rest IH]; intros i u; simpl; [reflexivity|].
  unfold rowTrace. destruct (hasAttachments env m); simpl; apply IH.
Qed.

Lemma entries_closed (rows : list Messages.row) :
  forall i l,
    entries (locAfter env targetMailbox i rows l)
    = entries l ++ entriesFrom env targetMailbox i (uidNext l) rows.
Proof.
  induction rows as [|m rest IH]; intros i l; simpl.
  - rewrite app_nil_r. reflexivity.
  - rewrite IH. simpl. rewrite <- app_assoc. reflexivity.
Qed.

Lemma entriesFrom_uids (rows : list Messages.row) :
  forall i u,
    map entryUid (entriesFrom env targetMailbox i u rows)
    = upFrom u (List.length rows)
    /\ map entryMessage (entriesFrom env targetMailbox i u rows)
       = map Messages._id
             (newRows env session mailbox targetMailbox i u rows)
    /\ List.length (entriesFrom env targetMailbox i u rows)
       = List.length rows.
Proof.
  induction rows as [|m rest IH]; intros i u; simpl;
    [repeat split; reflexivity|].
  destruct (IH (S i) (increment u)) as (A & B & C).
  rewrite A, B, C. repeat split; reflexivity.
Qed.

Lemma guarded_returns (k : Lock) (d : Db) :
  env_acquireLock env = inr k ->
  env_select env = None ->
  selected env update mailbox d = []
  \/ ~ batchFails env targetMailbox (selected env update mailbox d) ->
  guarded env update session mailbox targetMailbox (started d)
  = (inr tt, returned env update session mailbox targetMailbox k d).
Proof.
  intros AL SL H.
  assert (fst (guarded env update session mailbox targetMailbox (started d))
          = inr tt) as P.
  { destruct H as [E|NF].
    - unfold guarded, bind, call, call_, getLoc, putLoc, getDb, ret,
        set_loc, emit.
      rewrite AL. cbn [fst snd trace loc db stmtNo]. rewrite SL.
      cbn [fst snd trace loc db stmtNo started].
      fold (selected env update mailbox d). rewrite E. reflexivity.
    - exact (guarded_progress env update session mailbox targetMailbox
                              k (started d) AL SL NF eq_refl). }
  destruct (guarded env update session mailbox targetMailbox (started d))
    as [g s1] eqn:G.
  cbn [fst] in P. subst g. f_equal.
  apply guarded_ok in G; [|reflexivity].
  destruct G as (k' & AL' & _ & G). rewrite AL in AL'. inversion AL'; subst k'.
  cbn [started db trace stmtNo] in G. unfold returned.
  destruct (selected env update mailbox d) as [|m rest].
  - subst s1. reflexivity.
  - destruct G as (_ & _ & _ & _ & ->). reflexivity.
Qed.
End Returning.

Section Steps.
Variable env : Env.
Variable mailboxId : string.
Variable update : Update.
Variable session : Session.
Variable d : Db.
Variable mailbox : Mailboxes.row.
Variable targetMailbox : Mailboxes.row.

Hypothesis W : env_wsp env = None.
Hypothesis R : env_refreshSession env = None.
Hypothesis Q : env_isOverQuota env 0 = inr false.
Hypothesis A : findOne (by_id mailboxId) d = Some mailbox.
Hypothesis B : findOne (by_path (destination update)) d = Some targetMailbox.

Let final := runCopy env mailboxId update session d.
Let g := guarded env update session mailbox targetMailbox (started d).

(** A run that reaches the guarded section, in terms of what that section
    leaves. *)
Lemma runCopy_reach_steps :
  db final = db (snd g)
  /\ loc final
     = match fst g with
       | inl e => set_err e (loc (snd g))
       | inr _ => loc (snd g)
       end
  /\ trace final
     = trace (snd g)
       ++ releaseTrace env (loc (snd g))
       ++ match fst g with
          | inl e => [EvCallback (FnError (env_refineAndLogError env e))]
          | inr _ =>
              recheckTrace (loc (snd g))
              ++ refreshTrace env
              ++ notifyTrace env (loc (snd g))
              ++ [EvCallback
                    match notifyError env (loc (snd g)) with
                    | Some e => FnError (env_refineAndLogError env e)
                    | None =>
                        FnResponse true
                          (responseOf targetMailbox (loc (snd g)))
                    end]
          end.
Proof.
  unfold final, g.
  rewrite (runCopy_reach env mailboxId update session d mailbox targetMailbox
                         W R Q A B).
  destruct (guarded env update session mailbox targetMailbox (started d))
    as [[e|[]] s1] eqn:G; cbn [fst snd].
  - rewrite (copyInto_after_throw env update session mailbox targetMailbox
                                  _ _ _ G).
    cbn [finish emit db loc trace]. repeat split.
    rewrite <- app_assoc. reflexivity.
  - rewrite (copyInto_after_return env update session mailbox targetMailbox
                                   (started d) s1 eq_refl G).
    destruct (notifyError env (loc s1)); cbn [finish emit db loc trace];
      repeat split; rewrite <- ?app_assoc; cbn [app];
      rewrite ?app_nil_r; reflexivity.
Qed.

(** The same, when the lock is granted, the select answers and the batch
    (if any) does not fail. *)
Lemma runCopy_returned (k : Lock) :
  env_acquireLock env = inr k ->
  env_select env = None ->
  selected env update mailbox d = []
  \/ ~ batchFails env targetMailbox (selected env update mailbox d) ->
  let s1 := returned env update session mailbox targetMailbox k d in
  db final = db s1
  /\ loc final = loc s1
  /\ trace final
     = trace s1
       ++ releaseTrace env (loc s1)
       ++ recheckTrace (loc s1)
       ++ refreshTrace env
       ++ notifyTrace env (loc s1)
       ++ [EvCallback
             match notifyError env (loc s1) with
             | Some e => FnError (env_refineAndLogError env e)
             | None => FnResponse true (responseOf targetMailbox (loc s1))
             end].
Proof.
  intros AL SL H. cbv zeta.
  pose proof runCopy_reach_steps as S. unfold g in S.
  rewrite (guarded_returns env update session mailbox targetMailbox k d
                           AL SL H) in S.
  exact S.
Qed.

(** A successful run is one whose guarded section returned and whose
    notifier did not fail. *)
Lemma success_returned (r : Response) :
  succeeds env mailboxId update session d r ->
  exists k,
    env_acquireLock env = inr k
    /\ env_select env = None
    /\ (selected env update mailbox d = []
        \/ ~ batchFails env targetMailbox (selected env update mailbox d))
    /\ notifyError env
         (loc (returned env update session mailbox targetMailbox k d)) = None
    /\ r = responseOf targetMailbox
             (loc (returned env update session mailbox targetMailbox k d)).
Proof.
  intros [_ S].
  pose proof (callbacks_finish env update session d mailbox targetMailbox)
    as CF.
  cbv zeta in CF.
  rewrite <- (runCopy_reach env mailboxId update session d mailbox
                            targetMailbox W R Q A B), S in CF.
  destruct (guarded env update session mailbox targetMailbox (started d))
    as [[e|[]] s1] eqn:G.
  { rewrite (copyInto_after_throw env update session mailbox targetMailbox
                                  _ _ _ G) in CF. discriminate CF. }
  rewrite (copyInto_after_return env update session mailbox targetMailbox
                                 (started d) s1 eq_refl G) in CF.
  cbn [fst snd] in CF.
  destruct (notifyError env (loc s1)) eqn:NE; [discriminate CF|].
  inversion CF as [CR]. clear CF.
  pose proof G as G'.
  apply guarded_ok in G'; [|reflexivity].
  destruct G' as (k & AL & SL & G'). cbn [started db trace stmtNo] in G'.
  assert (selected env update mailbox d = []
          \/ ~ batchFails env targetMailbox (selected env update mailbox d)) as H.
  { destruct (selected env update mailbox d) as [|m rest]; [left; reflexivity|].
    right. destruct G' as (Bg & Cm & F & V & _).
    intros [BF|[(n & Hn & BF)|[BF|(j & Hj & BF)]]].
    - apply BF. exact Bg.
    - apply BF, F. lia.
    - apply BF. exact Cm.
    - rewrite (V j Hj) in BF. discriminate BF. }
  rewrite (guarded_returns env update session mailbox targetMailbox k d
                           AL SL H) in G.
  inversion G; subst s1.
  exists k. repeat split; assumption.
Qed.
End Steps.

Lemma returned_loc (env : Env) (update : Update) (session : Session)
    (mailbox targetMailbox : Mailboxes.row) (k : Lock) (d : Db) :
  let l := loc (returned env update session mailbox targetMailbox k d) in
  let rows := selected env update mailbox d in
  l = locAfter env targetMailbox 0 rows (lockedLocals targetMailbox k)
  /\ lock l = Some k
  /\ sourceUid l = rev (map Messages.uid rows)
  /\ destinationUid l
     = rev (upFrom (Mailboxes.uidNext targetMailbox) (List.length rows))
  /\ copiedMessages l = Z.of_nat (List.length rows)
  /\ copiedStorage l = sumSizes rows
  /\ entries l
     = entriesFrom env targetMailbox 0 (Mailboxes.uidNext targetMailbox) rows.
Proof.
  cbv zeta.
  assert (loc (returned env update session mailbox targetMailbox k d)
          = locAfter env targetMailbox 0 (selected env update mailbox d)
                     (lockedLocals targetMailbox k)) as E.
  { unfold returned. destruct (selected env update mailbox d); reflexivity. }
  rewrite E.
  pose proof (locked_response env targetMailbox
                (selected env update mailbox d) k) as P.
  cbv zeta in P. destruct P as (_ & SU & DU & CM & CS & _).
  pose proof (locAfter_spec env targetMailbox (selected env update mailbox d)
                            0 (lockedLocals targetMailbox k)) as L.
  cbv zeta in L. destruct L as (_ & _ & _ & _ & _ & _ & _ & LK & _).
  rewrite entries_closed. repeat split; assumption.
Qed.

(** X6.  When the select finds no row the COPY is a successful no-op: the
    callback gets empty uid arrays, the database is untouched, no
    transaction is begun, no quota re-check is started and the notifier is
    not called. *)
Theorem empty_selection_is_noop
    (env : Env) (mailboxId : string) (update : Update) (session : Session)
    (d : Db) (mailbox targetMailbox : Mailboxes.row) (k : Lock) :
  env_wsp env = None ->
  env_refreshSession env = None ->
  env_isOverQuota env 0 = inr false ->
  findOne (by_id mailboxId) d = Some mailbox ->
  findOne (by_path (destination update)) d = Some targetMailbox ->
  env_acquireLock env = inr k ->
  env_select env = None ->
  selected env update mailbox d = [] ->
  let final := runCopy env mailboxId update session d in
  db final = d
  /\ trace final
     = [EvRefreshSession; EvIsOverQuota 0; EvAcquireLock;
        EvSelect (condition env update mailbox)]
       ++ releaseTrace env (lockedLocals targetMailbox k)
       ++ refreshTrace env
       ++ [EvCallback
             (FnResponse true
                (mkResponse (Mailboxes.uidValidity targetMailbox) [] []))]
  /\ countEv isBatchEvent (trace final) = O
  /\ countEv isNotify (trace final) = O
  /\ countEv isRecheck (trace final) = O.
Proof.
  intros W R Q A B AL SL E. cbv zeta.
  destruct (runCopy_returned env mailboxId update session d mailbox
              targetMailbox W R Q A B k AL SL (or_introl E)) as (D & _ & T).
  unfold returned in D, T. rewrite E in D, T.
  cbn [db loc trace locAfter] in D, T.
  unfold recheckTrace, notifyTrace, notifyError, responseOf in T.
  cbn [lockedLocals copiedMessages copiedStorage entries sourceUid
       destinationUid List.length Nat.ltb Nat.leb Z.ltb Z.compare andb app]
    in T.
  split; [exact D|]. split; [rewrite T; reflexivity|].
  rewrite T. unfold releaseTrace, refreshTrace, countEv.
  cbn [lockedLocals lock lockSuccess].
  repeat split; split_oracles; reflexivity.
Qed.

Lemma empty_selection_is_noop_witness :
  db (runCopy Scenario.quiet "B" (mkUpdate "INBOX" []) Scenario.sess
              Scenario.account)
  = Scenario.account
  /\ callbacks (trace (runCopy Scenario.quiet "B" (mkUpdate "INBOX" [])
                               Scenario.sess Scenario.account))
     = [FnResponse true (mkResponse 1 [] [])].
Proof.
  pose proof (empty_selection_is_noop
                Scenario.quiet "B" (mkUpdate "INBOX" []) Scenario.sess
                Scenario.account Scenario.boxB Scenario.boxA (mkLock true)
                eq_refl eq_refl eq_refl eq_refl eq_refl eq_refl eq_refl
                eq_refl) as H.
  cbv zeta in H. destruct H as (D & T & _).
  split; [exact D|]. rewrite T. reflexivity.
Defined.

(** X7.  A COPY calls back with success whenever the session refreshes,
    the account is within quota, both mailboxes exist, the lock is granted,
    the select answers, no step of the batch fails (its begin, its
    statements, its commit, and the expiry date of each row, which must be
    a valid date) and the notifier accepts the entries; whether the
    release, the checkpoint or the storage-usage refresh fail makes no
    difference. *)
Theorem copy_succeeds_when_nothing_fails
    (env : Env) (mailboxId : string) (update : Update) (session : Session)
    (d : Db) (mailbox targetMailbox : Mailboxes.row) (k : Lock) :
  env_wsp env = None ->
  env_refreshSession env = None ->
  env_isOverQuota env 0 = inr false ->
  findOne (by_id mailboxId) d = Some mailbox ->
  findOne (by_path (destination update)) d = Some targetMailbox ->
  env_acquireLock env = inr k ->
  env_select env = None ->
  ~ batchFails env targetMailbox (selected env update mailbox d) ->
  env_addEntries env = None ->
  succeeds env mailboxId update session d
    (mkResponse (Mailboxes.uidValidity targetMailbox)
       (rev (map Messages.uid (selected env update mailbox d)))
       (rev (upFrom (Mailboxes.uidNext targetMailbox)
                    (List.length (selected env update mailbox d))))).
Proof.
  intros W R Q A B AL SL NF AE. split; [exact W|].
  destruct (runCopy_returned env mailboxId update session d mailbox
              targetMailbox W R Q A B k AL SL (or_intror NF)) as (_ & _ & T).
  pose proof (returned_loc env update session mailbox targetMailbox k d) as L.
  cbv zeta in L. destruct L as (_ & _ & SU & DU & _).
  set (s1 := returned env update session mailbox targetMailbox k d) in *.
  assert (notifyError env (loc s1) = None) as NE.
  { unfold notifyError. rewrite AE. destruct (0 <? _)%nat; reflexivity. }
  rewrite NE in T. rewrite T.
  destruct (step_traces_silent env (loc s1)) as (C1 & C2 & C3 & C4).
  assert (callbacks (trace s1) = []) as C0.
  { unfold s1, returned.
    destruct (selected env update mailbox d) as [|m rest]; [reflexivity|].
    cbn [trace]. rewrite !callbacks_app. cbn [callbacks app].
    unfold batchTrace. rewrite callbacks_app.
    pose proof (loopTrace_batch env session mailbox targetMailbox (m :: rest)
                                0 (uidNext (lockedLocals targetMailbox k)))
      as LB.
    apply batch_events_no_callback in LB. destruct LB as (LB & _).
    rewrite LB. reflexivity. }
  rewrite !callbacks_app, C0, C1, C2, C3, C4.
  unfold responseOf. rewrite SU, DU. reflexivity.
Qed.

Lemma copy_succeeds_when_nothing_fails_witness :
  succeeds
    (with_storageRefresh (Some Scenario.storageError) None
       (with_releaseLock (Some Scenario.lockError) Scenario.quiet))
    "A" Scenario.copyAll Scenario.sess Scenario.account
    (mkResponse 77 [9; 7; 5] [102; 101; 100]).
Proof.
  refine (copy_succeeds_when_nothing_fails
            (with_storageRefresh (Some Scenario.storageError) None
               (with_releaseLock (Some Scenario.lockError) Scenario.quiet))
            "A" Scenario.copyAll Scenario.sess Scenario.account
            Scenario.boxA Scenario.boxB (mkLock true)
            eq_refl eq_refl eq_refl eq_refl eq_refl eq_refl eq_refl _
            eq_refl).
  intros [H|[(n & Hn & H)|[H|(i & Hi & H)]]].
  - apply H. reflexivity.
  - apply H. reflexivity.
  - apply H. reflexivity.
  - vm_compute in Hi.
    do 3 (destruct i as [|i]; [vm_compute in H; discriminate H|]). lia.
Defined.

Lemma returned_silent (env : Env) (update : Update) (session : Session)
    (mailbox targetMailbox : Mailboxes.row) (k : Lock) (d : Db) :
  let t := trace (returned env update session mailbox targetMailbox k d) in
  callbacks t = []
  /\ countEv isNotify t = O
  /\ countEv isRecheck t = O
  /\ countEv isRelease t = O.
Proof.
  cbv zeta. unfold returned.
  destruct (selected env update mailbox d) as [|m rest];
    [repeat split; reflexivity|].
  cbn [trace]. unfold batchTrace.
  pose proof (loopTrace_batch env session mailbox targetMailbox (m :: rest)
                              0 (uidNext (lockedLocals targetMailbox k)))
    as LB.
  apply batch_events_no_callback in LB.
  destruct LB as (C & _ & _ & Rl & N & Rc).
  rewrite !callbacks_app, !countEv_app, C, N, Rc, Rl.
  repeat split; reflexivity.
Qed.

(** X8.  A notifier that rejects the entries makes the COPY call back with
    that error although the batch is committed: the copied rows stay, the
    wake-up signal is not fired. *)
Theorem notifier_failure_reported_after_commit
    (env : Env) (mailboxId : string) (update : Update) (session : Session)
    (d : Db) (mailbox targetMailbox : Mailboxes.row) (k : Lock) (e : Error) :
  env_wsp env = None ->
  env_refreshSession env = None ->
  env_isOverQuota env 0 = inr false ->
  findOne (by_id mailboxId) d = Some mailbox ->
  findOne (by_path (destination update)) d = Some targetMailbox ->
  env_acquireLock env = inr k ->
  env_select env = None ->
  selected env update mailbox d <> [] ->
  ~ batchFails env targetMailbox (selected env update mailbox d) ->
  env_addEntries env = Some e ->
  let final := runCopy env mailboxId update session d in
  let rows := selected env update mailbox d in
  callbacks (trace final) = [FnError (env_refineAndLogError env e)]
  /\ db final
     = batchDb env session mailbox targetMailbox rows
               (lockedLocals targetMailbox k) d
  /\ exists pre,
      trace final
      = pre
        ++ [EvAddEntries
              (entriesFrom env targetMailbox 0
                           (Mailboxes.uidNext targetMailbox) rows);
            EvCallback (FnError (env_refineAndLogError env e))]
      /\ countEv isNotify pre = O
      /\ In EvCommit pre.
Proof.
  intros W R Q A B AL SL NE NF AE. cbv zeta.
  destruct (runCopy_returned env mailboxId update session d mailbox
              targetMailbox W R Q A B k AL SL (or_intror NF)) as (D & _ & T).
  pose proof (returned_loc env update session mailbox targetMailbox k d) as L.
  cbv zeta in L. destruct L as (_ & _ & _ & _ & _ & _ & EN).
  set (s1 := returned env update session mailbox targetMailbox k d) in *.
  assert ((0 <? List.length (entries (loc s1)))%nat = true) as Pos.
  { rewrite EN.
    destruct (entriesFrom_uids env session mailbox targetMailbox
                (selected env update mailbox d) 0
                (Mailboxes.uidNext targetMailbox)) as (_ & _ & Len).
    rewrite Len. destruct (selected env update mailbox d);
      [exfalso; apply NE; reflexivity | reflexivity]. }
  unfold notifyError, notifyTrace in T. rewrite Pos, AE, EN in T.
  destruct (returned_silent env update session mailbox targetMailbox k d)
    as (S0 & N0 & _).
  fold s1 in S0, N0.
  destruct (step_traces_silent env (loc s1)) as (C1 & C2 & C3 & _).
  split; [|split].
  - rewrite T, !callbacks_app, S0, C1, C2, C3. reflexivity.
  - rewrite D. unfold s1, returned.
    destruct (selected env update mailbox d);
      [exfalso; apply NE; reflexivity | reflexivity].
  - exists (trace s1 ++ releaseTrace env (loc s1) ++ recheckTrace (loc s1)
                    ++ refreshTrace env).
    split; [rewrite T, <- !app_assoc; reflexivity|].
    split.
    + rewrite !countEv_app, N0.
      unfold releaseTrace, recheckTrace, refreshTrace, countEv.
      split_oracles; reflexivity.
    + apply in_or_app. left. unfold s1, returned.
      destruct (selected env update mailbox d) as [|m rest];
        [exfalso; apply NE; reflexivity|].
      cbn [trace]. apply in_or_app. right. apply in_or_app. right.
      left. reflexivity.
Qed.

Lemma notifier_failure_reported_after_commit_witness :
  callbacks
    (trace (runCopy (with_addEntries (Some Scenario.storageError)
                                     Scenario.quiet)
                    "A" Scenario.copyAll Scenario.sess Scenario.account))
  = [FnError Scenario.storageError]
  /\ List.length
       (tMessages
          (db (runCopy (with_addEntries (Some Scenario.storageError)
                                        Scenario.quiet)
                       "A" Scenario.copyAll Scenario.sess Scenario.account)))
     = 6%nat.
Proof.
  assert (~ batchFails (with_addEntries (Some Scenario.storageError)
                                        Scenario.quiet)
            Scenario.boxB
            (selected Scenario.quiet Scenario.copyAll Scenario.boxA
                      Scenario.account)) as NF.
  { intros [H|[(n & Hn & H)|[H|(i & Hi & H)]]];
      [apply H; reflexivity ..|].
    vm_compute in Hi.
    do 3 (destruct i as [|i]; [vm_compute in H; discriminate H|]). lia. }
  pose proof (notifier_failure_reported_after_commit
                (with_addEntries (Some Scenario.storageError) Scenario.quiet)
                "A" Scenario.copyAll Scenario.sess Scenario.account
                Scenario.boxA Scenario.boxB (mkLock true)
                Scenario.storageError
                eq_refl eq_refl eq_refl eq_refl eq_refl eq_refl eq_refl
                ltac:(simpl; discriminate) NF eq_refl) as H.
  cbv zeta in H. destruct H as (C & D & _).
  split; [exact C|]. rewrite D. reflexivity.
Defined.

Lemma refresh_outcome_irrelevant (env : Env) (update : Update)
    (session : Session) (mailbox targetMailbox : Mailboxes.row)
    (c u : option Error) (s : St) :
  err (loc s) = None ->
  let o' := copyInto (with_storageRefresh c u env) update session mailbox
                     targetMailbox s in
  let o := copyInto env update session mailbox targetMailbox s in
  fst o' = fst o /\ db (snd o') = db (snd o) /\ loc (snd o') = loc (snd o).
Proof.
  intros E0. cbv zeta.
  destruct (guarded env update session mailbox targetMailbox s)
    as [[e|[]] s1] eqn:G.
  - rewrite (copyInto_after_throw env update session mailbox targetMailbox
                                  s s1 e G).
    rewrite (copyInto_after_throw (with_storageRefresh c u env) update session
                                  mailbox targetMailbox s s1 e G).
    repeat split; reflexivity.
  - rewrite (copyInto_after_return env update session mailbox targetMailbox
                                   s s1 E0 G).
    rewrite (copyInto_after_return (with_storageRefresh c u env) update
                                   session mailbox targetMailbox s s1 E0 G).
    repeat split; reflexivity.
Qed.

(** X9.  What the checkpoint and the storage-usage refresh do after the
    commit has no influence on the outcome: with any other behaviour of the
    two the callback gets the same arguments and the database is the
    same. *)
Theorem storage_refresh_outcome_is_ignored
    (env : Env) (mailboxId : string) (update : Update) (session : Session)
    (d : Db) (c u : option Error) :
  callbacks (trace (runCopy (with_storageRefresh c u env) mailboxId update
                            session d))
  = callbacks (trace (runCopy env mailboxId update session d))
  /\ db (runCopy (with_storageRefresh c u env) mailboxId update session d)
     = db (runCopy env mailboxId update session d).
Proof.
  destruct (env_wsp env) as [reply|] eqn:W.
  { unfold runCopy, onCopy, onCopyFn.
    cbn [with_storageRefresh env_wsp]. rewrite W. split; reflexivity. }
  destruct (env_refreshSession env) as [e|] eqn:R.
  { unfold runCopy, onCopy, onCopyFn, try_catch, copyLocal, copyLocalFn, callFn, returns, bind, call_, log, emit.
    cbn [with_storageRefresh env_wsp env_refreshSession
         env_refineAndLogError].
    rewrite W, R. split; reflexivity. }
  destruct (env_isOverQuota env 0) as [e|[]] eqn:Q.
  1,2: unfold runCopy, onCopy, onCopyFn, try_catch, copyLocal, copyLocalFn, callFn, returns, bind, call_, call, throw,
         log, emit;
    cbn [with_storageRefresh env_wsp env_refreshSession env_isOverQuota
         env_refineAndLogError env_translate];
    rewrite W, R, Q; split; reflexivity.
  destruct (findOne (by_id mailboxId) d) as [mailbox|] eqn:A.
  2:{ unfold runCopy, onCopy, onCopyFn, try_catch, copyLocal, copyLocalFn, callFn, returns, bind, call_, call, putLoc,
        getDb, throw, ret, log, set_loc, emit.
      cbn [with_storageRefresh env_wsp env_refreshSession env_isOverQuota
           env_refineAndLogError env_translate].
      rewrite W, R, Q. cbn [fst snd trace loc db stmtNo app]. rewrite A.
      split; reflexivity. }
  destruct (findOne (by_path (destination update)) d) as [target|] eqn:B.
  2:{ unfold runCopy, onCopy, onCopyFn, try_catch, copyLocal, copyLocalFn, callFn, returns, bind, call_, call, putLoc,
        getDb, throw, ret, log, set_loc, emit.
      cbn [with_storageRefresh env_wsp env_refreshSession env_isOverQuota
           env_refineAndLogError env_translate].
      rewrite W, R, Q. cbn [fst snd trace loc db stmtNo app]. rewrite A, B.
      split; reflexivity. }
  rewrite (runCopy_reach env mailboxId update session d mailbox target
                         W R Q A B).
  rewrite (runCopy_reach (with_storageRefresh c u env) mailboxId update
                         session d mailbox target W R Q A B).
  pose proof (callbacks_finish env update session d mailbox target) as CF.
  pose proof (callbacks_finish (with_storageRefresh c u env) update session d
                               mailbox target) as CF'.
  pose proof (refresh_outcome_irrelevant env update session mailbox target
                                         c u (started d) eq_refl) as RI.
  cbv zeta in CF, CF', RI. destruct RI as (F & D & _).
  rewrite CF, CF', F. split; [reflexivity|].
  destruct (copyInto env update session mailbox target (started d))
    as [r s'].
  destruct (copyInto (with_storageRefresh c u env) update session mailbox
                     target (started d)) as [r' s''].
  cbn [fst snd] in F, D. subst r'. destruct r; exact D.
Qed.

(** X10.  The notifier is given one EXISTS entry per copied row, in the
    order the rows were copied: the entries' uids are the uids assigned,
    the values the counter took (the reverse of the response's list), and
    their message ids are the ids of the inserted rows; the wake-up signal
    follows.  With no row copied the notifier is not called. *)
Theorem notifier_entries_follow_copied_rows
    (env : Env) (mailboxId : string) (update : Update) (session : Session)
    (d : Db) (mailbox targetMailbox : Mailboxes.row) (r : Response) :
  findOne (by_id mailboxId) d = Some mailbox ->
  findOne (by_path (destination update)) d = Some targetMailbox ->
  succeeds env mailboxId update session d r ->
  let final := runCopy env mailboxId update session d in
  let rows := selected env update mailbox d in
  let es := entriesFrom env targetMailbox 0
                        (Mailboxes.uidNext targetMailbox) rows in
  entries (loc final) = es
  /\ map entryUid es = rev (respDestinationUid r)
  /\ map entryMessage es
     = map Messages._id
           (newRows env session mailbox targetMailbox 0
                    (Mailboxes.uidNext targetMailbox) rows)
  /\ Forall (fun x => command x = "EXISTS"
                      /\ entryMailbox x = Mailboxes._id targetMailbox) es
  /\ match rows with
     | [] => countEv isNotify (trace final) = O
     | _ =>
         exists pre,
           trace final
           = pre ++ [EvAddEntries es; EvFire;
                     EvCallback (FnResponse true r)]
           /\ countEv isNotify pre = O
           /\ In EvCommit pre
     end.
Proof.
  intros A B S. cbv zeta.
  pose proof S as [W S'].
  destruct (success_reach env mailboxId update session d true r W S')
    as (R & Q & _).
  destruct (success_returned env mailboxId update session d mailbox
              targetMailbox W R Q A B r S) as (k & AL & SL & H & NE & ->).
  destruct (runCopy_returned env mailboxId update session d mailbox
              targetMailbox W R Q A B k AL SL H) as (_ & L & T).
  pose proof (returned_loc env update session mailbox targetMailbox k d)
    as RL.
  cbv zeta in RL. destruct RL as (_ & _ & _ & DU & _ & _ & EN).
  destruct (returned_silent env update session mailbox targetMailbox k d)
    as (_ & N0 & _).
  destruct (entriesFrom_uids env session mailbox targetMailbox
              (selected env update mailbox d) 0
              (Mailboxes.uidNext targetMailbox)) as (EU & EM & Len).
  set (s1 := returned env update session mailbox targetMailbox k d) in *.
  rewrite NE in T.
  split; [rewrite L; exact EN|].
  split; [unfold responseOf; cbn [respDestinationUid];
          rewrite DU, rev_involutive; exact EU|].
  split; [exact EM|].
  split.
  { generalize 0%nat (Mailboxes.uidNext targetMailbox).
    clear. induction (selected env update mailbox d) as [|m rest IH];
      intros i u0; simpl;
      [constructor | constructor; [split; reflexivity | apply IH]]. }
  unfold notifyTrace, notifyError in T, NE. rewrite EN, Len in T, NE.
  destruct (selected env update mailbox d) as [|m rest] eqn:Sel.
  - rewrite T, !countEv_app, N0. cbn [List.length Nat.ltb Nat.leb app].
    unfold releaseTrace, recheckTrace, refreshTrace, countEv.
    split_oracles; reflexivity.
  - cbn [List.length Nat.ltb Nat.leb] in T, NE. rewrite NE in T.
    exists (trace s1 ++ releaseTrace env (loc s1) ++ recheckTrace (loc s1)
                     ++ refreshTrace env).
    split; [rewrite T, <- !app_assoc; reflexivity|].
    split.
    + rewrite !countEv_app, N0.
      unfold releaseTrace, recheckTrace, refreshTrace, countEv.
      split_oracles; reflexivity.
    + apply in_or_app. left. unfold s1, returned. rewrite Sel.
      cbn [trace]. apply in_or_app. right. apply in_or_app. right.
      left. reflexivity.
Qed.

Lemma notifier_entries_follow_copied_rows_witness :
  succeeds Scenario.quiet "A" Scenario.copyAll Scenario.sess Scenario.account
           (mkResponse 77 [9; 7; 5] [102; 101; 100])
  /\ map entryUid
         (entriesFrom Scenario.quiet Scenario.boxB 0 100
            (selected Scenario.quiet Scenario.copyAll Scenario.boxA
                      Scenario.account))
     = rev [102; 101; 100].
Proof.
  assert (succeeds Scenario.quiet "A" Scenario.copyAll Scenario.sess
                   Scenario.account (mkResponse 77 [9; 7; 5] [102; 101; 100]))
    as H by (split; reflexivity).
  split; [exact H|].
  exact (proj1 (proj2
    (notifier_entries_follow_copied_rows
       Scenario.quiet "A" Scenario.copyAll Scenario.sess Scenario.account
       Scenario.boxA Scenario.boxB _ eq_refl eq_refl H))).
Defined.

Lemma loopTrace_runs (env : Env) (session : Session)
    (mailbox targetMailbox : Mailboxes.row) (rows : list Messages.row) :
  forall i u e,
    In e (loopTrace env session mailbox targetMailbox i u rows) ->
    exists st, e = EvRun st.
Proof.
  induction rows as [|m rest IH]; intros i u e H; simpl in H; [tauto|].
  destruct H as [<-|H]; [eauto|].
  apply in_app_or in H. destruct H as [H|H]; [|eapply IH; exact H].
  destruct (hasAttachments env m); simpl in H; [|tauto].
  destruct H as [<-|[]]. eauto.
Qed.

(** X11.  A successful COPY starts the quota re-check once, after the
    commit, with the total size of the copied rows, and only when that
    total is positive; otherwise not at all.  The pre-flight check is made
    with a delta of zero. *)
Theorem quota_recheck_uses_copied_size
    (env : Env) (mailboxId : string) (update : Update) (session : Session)
    (d : Db) (mailbox targetMailbox : Mailboxes.row) (r : Response) :
  findOne (by_id mailboxId) d = Some mailbox ->
  findOne (by_path (destination update)) d = Some targetMailbox ->
  succeeds env mailboxId update session d r ->
  let final := runCopy env mailboxId update session d in
  let rows := selected env update mailbox d in
  copiedStorage (loc final) = sumSizes rows
  /\ countEv isRecheck (trace final)
     = (if Z.ltb 0 (Z.of_nat (List.length rows)) && Z.ltb 0 (sumSizes rows)
        then 1%nat else O)
  /\ (forall delta,
         In (EvQuotaRecheck delta) (trace final) ->
         delta = sumSizes rows /\ 0 < delta /\ rows <> [])
  /\ (forall delta, In (EvIsOverQuota delta) (trace final) -> delta = 0).
Proof.
  intros A B S. cbv zeta.
  pose proof S as [W S'].
  destruct (success_reach env mailboxId update session d true r W S')
    as (R & Q & _).
  destruct (success_returned env mailboxId update session d mailbox
              targetMailbox W R Q A B r S) as (k & AL & SL & H & NE & ->).
  destruct (runCopy_returned env mailboxId update session d mailbox
              targetMailbox W R Q A B k AL SL H) as (_ & L & T).
  pose proof (returned_loc env update session mailbox targetMailbox k d)
    as RL.
  cbv zeta in RL. destruct RL as (_ & _ & _ & _ & CM & CS & _).
  destruct (returned_silent env update session mailbox targetMailbox k d)
    as (_ & _ & R0 & _).
  set (s1 := returned env update session mailbox targetMailbox k d) in *.
  rewrite NE in T.
  assert (countEv isRecheck (releaseTrace env (loc s1)) = O
          /\ countEv isRecheck (refreshTrace env) = O
          /\ countEv isRecheck (notifyTrace env (loc s1)) = O) as (Z1 & Z2 & Z3).
  { unfold releaseTrace, refreshTrace, notifyTrace, countEv.
    repeat split; split_oracles; reflexivity. }
  assert (forall delta,
             In (EvQuotaRecheck delta)
                (trace (runCopy env mailboxId update session d)) ->
             In (EvQuotaRecheck delta) (recheckTrace (loc s1))) as Only.
  { intros delta Hin. rewrite T in Hin.
    apply in_app_or in Hin. destruct Hin as [Hin|Hin].
    { pose proof (countEv_none _ _ _ R0 Hin) as X. discriminate X. }
    apply in_app_or in Hin. destruct Hin as [Hin|Hin].
    { pose proof (countEv_none _ _ _ Z1 Hin) as X. discriminate X. }
    apply in_app_or in Hin. destruct Hin as [Hin|Hin]; [exact Hin|].
    apply in_app_or in Hin. destruct Hin as [Hin|Hin].
    { pose proof (countEv_none _ _ _ Z2 Hin) as X. discriminate X. }
    apply in_app_or in Hin. destruct Hin as [Hin|Hin].
    { pose proof (countEv_none _ _ _ Z3 Hin) as X. discriminate X. }
    destruct Hin as [Hin|[]]. discriminate Hin. }
  split; [rewrite L; exact CS|]. split; [|split].
  - rewrite T, !countEv_app, R0, Z1, Z2, Z3.
    unfold recheckTrace. rewrite CM, CS.
    destruct (Z.ltb 0 (Z.of_nat _) && Z.ltb 0 _); reflexivity.
  - intros delta Hin. apply Only in Hin.
    unfold recheckTrace in Hin. rewrite CM, CS in Hin.
    destruct (Z.ltb_spec 0 (Z.of_nat (List.length
                                        (selected env update mailbox d))))
      as [Hn|Hn]; [|destruct Hin].
    destruct (Z.ltb_spec 0 (sumSizes (selected env update mailbox d)))
      as [Hs|Hs]; [|destruct Hin].
    destruct Hin as [Hin|[]]. inversion Hin; subst delta.
    repeat split; try assumption.
    intros E. rewrite E in Hn. simpl in Hn. lia.
  - intros delta Hin. rewrite T in Hin.
    apply in_app_or in Hin. destruct Hin as [Hin|Hin].
    + unfold s1, returned in Hin.
      destruct (selected env update mailbox d) as [|m rest]; cbn [trace] in Hin.
      * simpl in Hin. decompose [or] Hin; try discriminate; try contradiction.
        match goal with X : EvIsOverQuota _ = _ |- _ => inversion X end.
        reflexivity.
      * apply in_app_or in Hin. destruct Hin as [Hin|Hin].
        { simpl in Hin.
          decompose [or] Hin; try discriminate; try contradiction.
          match goal with X : EvIsOverQuota _ = _ |- _ => inversion X end.
          reflexivity. }
        apply in_app_or in Hin. destruct Hin as [Hin|[Hin|[]]];
          [|discriminate Hin].
        unfold batchTrace in Hin.
        apply in_app_or in Hin. destruct Hin as [Hin|Hin].
        { apply loopTrace_runs in Hin. destruct Hin as [st X].
          discriminate X. }
        simpl in Hin. decompose [or] Hin; try discriminate; contradiction.
    + exfalso. revert Hin.
      unfold releaseTrace, recheckTrace, refreshTrace, notifyTrace.
      split_oracles; simpl; intros Hin;
        decompose [or] Hin; try discriminate; try contradiction.
Qed.

Lemma quota_recheck_uses_copied_size_witness :
  succeeds Scenario.quiet "A" Scenario.copyAll Scenario.sess Scenario.account
           (mkResponse 77 [9; 7; 5] [102; 101; 100])
  /\ copiedStorage
       (loc (runCopy Scenario.quiet "A" Scenario.copyAll Scenario.sess
                     Scenario.account))
     = sumSizes (selected Scenario.quiet Scenario.copyAll Scenario.boxA
                          Scenario.account).
Proof.
  assert (succeeds Scenario.quiet "A" Scenario.copyAll Scenario.sess
                   Scenario.account (mkResponse 77 [9; 7; 5] [102; 101; 100]))
    as H by (split; reflexivity).
  split; [exact H|].
  exact (proj1
    (quota_recheck_uses_copied_size
       Scenario.quiet "A" Scenario.copyAll Scenario.sess Scenario.account
       Scenario.boxA Scenario.boxB _ eq_refl eq_refl H)).
Defined.

(** X12.  A batch that is rolled back leaves no trace outside the log: the
    database is as before, the notifier is not called, no quota re-check
    is started, and the callback gets the error that caused the
    rollback. *)
Theorem rolled_back_batch_publishes_nothing
    (env : Env) (mailboxId : string) (update : Update) (session : Session)
    (d : Db) :
  In EvRollback (trace (runCopy env mailboxId update session d)) ->
  let final := runCopy env mailboxId update session d in
  db final = d
  /\ countEv isNotify (trace final) = O
  /\ countEv isRecheck (trace final) = O
  /\ exists e,
      err (loc final) = Some e
      /\ callbacks (trace final) = [FnError (env_refineAndLogError env e)].
Proof.
  intros Hin. cbv zeta.
  destruct (runCopy_early env mailboxId update session d)
    as [(mailbox & target & W & R & Q & A & B) | (_ & pre & a & T & E)].
  2:{ exfalso. rewrite T in Hin.
      apply in_app_or in Hin. destruct Hin as [Hin|[Hin|[]]];
        [|discriminate Hin].
      destruct (early_events_silent pre E) as (_ & _ & _ & S).
      pose proof (countEv_none _ _ _ S Hin) as X. discriminate X. }
  destruct (runCopy_reach_steps env mailboxId update session d mailbox target
                                W R Q A B) as (D & L & T).
  pose proof (guarded_any env update session mailbox target (started d)) as GA.
  cbv zeta in GA. destruct GA as (_ & _ & _ & GD).
  destruct (guarded_shape env update session mailbox target (started d))
    as (tb & Tg & Bt).
  destruct (batch_events_no_callback tb Bt) as (Cb & _ & _ & _ & Nb & Rb).
  destruct (guarded env update session mailbox target (started d))
    as [[e|[]] s1] eqn:G; cbn [fst snd] in D, L, T, GD, Tg.
  - rewrite D, L, T, Tg. split; [exact (GD e eq_refl)|].
    cbn [started trace].
    assert (countEv isNotify (releaseTrace env (loc s1)) = O
            /\ countEv isRecheck (releaseTrace env (loc s1)) = O
            /\ callbacks (releaseTrace env (loc s1)) = []) as (N1 & N2 & N3).
    { unfold releaseTrace, countEv. repeat split; split_oracles; reflexivity. }
    rewrite !countEv_app, !callbacks_app, N1, N2, N3.
    split; [|split].
    + destruct (env_acquireLock env); cbn [app];
        repeat (change (countEv isNotify (?x :: ?t))
                  with (countEv isNotify t));
        rewrite ?Nb; reflexivity.
    + destruct (env_acquireLock env); cbn [app];
        repeat (change (countEv isRecheck (?x :: ?t))
                  with (countEv isRecheck t));
        rewrite ?Rb; reflexivity.
    + exists e. split; [reflexivity|].
      destruct (env_acquireLock env); cbn [app callbacks];
        rewrite ?Cb; reflexivity.
  - exfalso. apply guarded_ok in G; [|reflexivity].
    destruct G as (k & _ & _ & G). cbn [started db trace stmtNo] in G.
    rewrite T in Hin.
    apply in_app_or in Hin. destruct Hin as [Hin|Hin].
    + destruct (selected env update mailbox d) as [|m rest].
      * subst s1. cbn [trace] in Hin. simpl in Hin.
        decompose [or] Hin; try discriminate; contradiction.
      * destruct G as (_ & _ & _ & _ & ->). cbn [trace] in Hin.
        apply in_app_or in Hin. destruct Hin as [Hin|Hin].
        { simpl in Hin. decompose [or] Hin; try discriminate; contradiction. }
        apply in_app_or in Hin. destruct Hin as [Hin|Hin].
        { simpl in Hin. decompose [or] Hin; try discriminate; contradiction. }
        apply in_app_or in Hin. destruct Hin as [Hin|[Hin|[]]];
          [|discriminate Hin].
        unfold batchTrace in Hin.
        apply in_app_or in Hin. destruct Hin as [Hin|Hin].
        { apply loopTrace_runs in Hin. destruct Hin as [st X].
          discriminate X. }
        simpl in Hin. decompose [or] Hin; try discriminate; contradiction.
    + revert Hin.
      unfold releaseTrace, recheckTrace, refreshTrace, notifyTrace.
      split_oracles; simpl; intros Hin;
        decompose [or] Hin; try discriminate; try contradiction.
Qed.

Lemma rolled_back_batch_publishes_nothing_witness :
  In EvRollback
     (trace (runCopy
               (with_sqlFault
                  (fun n => if Nat.eqb n 3 then Some Scenario.storageError
                            else None)
                  Scenario.quiet)
               "A" Scenario.copyAll Scenario.sess Scenario.account))
  /\ countEv isNotify
       (trace (runCopy
                 (with_sqlFault
                    (fun n => if Nat.eqb n 3 then Some Scenario.storageError
                              else None)
                    Scenario.quiet)
                 "A" Scenario.copyAll Scenario.sess Scenario.account))
     = O.
Proof.
  assert (In EvRollback
            (trace (runCopy
                      (with_sqlFault
                         (fun n => if Nat.eqb n 3
                                   then Some Scenario.storageError else None)
                         Scenario.quiet)
                      "A" Scenario.copyAll Scenario.sess Scenario.account)))
    as H.
  { vm_compute. do 9 right. left. reflexivity. }
  split; [exact H|].
  exact (proj1 (proj2
    (rolled_back_batch_publishes_nothing
       (with_sqlFault
          (fun n => if Nat.eqb n 3 then Some Scenario.storageError else None)
          Scenario.quiet)
       "A" Scenario.copyAll Scenario.sess Scenario.account H))).
Defined.

(** X13.  Whatever row the handler inserts belongs to the destination
    mailbox, is tagged as written by COPY from the session's remote
    address, carries the source mailbox's modification index, and is junk
    exactly when the destination is the Junk mailbox, whatever the source
    row said. *)
Theorem inserted_rows_take_destination_attributes
    (env : Env) (mailboxId : string) (update : Update) (session : Session)
    (d : Db) (mailbox targetMailbox : Mailboxes.row) (m' : Messages.row) :
  findOne (by_id mailboxId) d = Some mailbox ->
  findOne (by_path (destination update)) d = Some targetMailbox ->
  In (EvRun (InsertMessage m'))
     (trace (runCopy env mailboxId update session d)) ->
  Messages.mailbox m' = Mailboxes._id targetMailbox
  /\ Messages.junk m'
     = strict_eq_string (Mailboxes.specialUse targetMailbox) "\Junk"
  /\ Messages.transaction m' = "COPY"
  /\ Messages.remoteAddress m' = sessionRemoteAddress session
  /\ Messages.modseq m' = Mailboxes.modifyIndex mailbox.
Proof.
  intros A B H.
  apply inserts_are_rewrites in H.
  destruct H as (mb & tg & i & u & m & A' & B' & ->).
  rewrite A in A'. rewrite B in B'. inversion A'; inversion B'; subst mb tg.
  repeat split; reflexivity.
Qed.

Lemma inserted_rows_take_destination_attributes_witness :
  Messages.junk
    (Messages.mk "n0" "C" 1 1 2592001000 4 false "192.0.2.1" "COPY" false
                 Scenario.twice 3 10)
  = strict_eq_string (Mailboxes.specialUse Scenario.boxC) "\Junk".
Proof.
  refine (proj1 (proj2
    (inserted_rows_take_destination_attributes
       Scenario.quiet "A" Scenario.copyToTrash Scenario.sess Scenario.account
       Scenario.boxA Scenario.boxC _ eq_refl eq_refl _))).
  vm_compute. do 5 right. left. reflexivity.
Defined.


Lemma markCopied_marks (ids : list string) (m : Messages.row) :
  (mem_string (Messages._id m) ids = true ->
   Messages.copied (markCopied ids m) = true)
  /\ (mem_string (Messages._id m) ids = false -> markCopied ids m = m).
Proof.
  unfold markCopied. destruct (mem_string (Messages._id m) ids);
    split; intros H; try discriminate; reflexivity.
Qed.

Lemma mem_string_ids (rows : list Messages.row) (m : Messages.row) :
  In m rows -> mem_string (Messages._id m) (map Messages._id rows) = true.
Proof.
  intros H. unfold mem_string. apply existsb_exists.
  exists (Messages._id m). split; [apply in_map; exact H|].
  apply String.eqb_refl.
Qed.

Lemma newRows_copy (env : Env) (session : Session)
    (mailbox targetMailbox : Mailboxes.row) (rows : list Messages.row) :
  forall i u,
    Forall2 (fun m m' =>
               Messages.mimeTree m' = Messages.mimeTree m
               /\ Messages.size m' = Messages.size m
               /\ Messages.magic m' = Messages.magic m
               /\ Messages.mailbox m' = Mailboxes._id targetMailbox)
            rows (newRows env session mailbox targetMailbox i u rows)
    /\ map Messages.uid (newRows env session mailbox targetMailbox i u rows)
       = upFrom u (List.length rows).
Proof.
  induction rows as [|m rest IH]; intros i u; simpl.
  - split; [constructor|reflexivity].
  - destruct (IH (S i) (increment u)) as [F U]. split.
    + constructor; [repeat split; reflexivity | exact F].
    + rewrite U. reflexivity.
Qed.

(** X14.  A successful COPY leaves the message table as the old rows
    followed by one new row per selected row, carrying that row's body
    tree, size and magic and the uid assigned to it; every selected source
    row is marked as copied, and a row whose id was not selected is exactly
    as before. *)
Theorem copy_marks_sources_and_appends_copies
    (env : Env) (mailboxId : string) (update : Update) (session : Session)
    (d : Db) (mailbox targetMailbox : Mailboxes.row) (r : Response) :
  findOne (by_id mailboxId) d = Some mailbox ->
  findOne (by_path (destination update)) d = Some targetMailbox ->
  succeeds env mailboxId update session d r ->
  let final := runCopy env mailboxId update session d in
  let rows := selected env update mailbox d in
  let ids := map Messages._id rows in
  let new := newRows env session mailbox targetMailbox 0
                     (Mailboxes.uidNext targetMailbox) rows in
  tMessages (db final) = map (markCopied ids) (tMessages d ++ new)
  /\ Forall2 (fun m m' =>
                Messages.mimeTree m' = Messages.mimeTree m
                /\ Messages.size m' = Messages.size m
                /\ Messages.magic m' = Messages.magic m
                /\ Messages.mailbox m' = Mailboxes._id targetMailbox)
             rows new
  /\ map Messages.uid new = rev (respDestinationUid r)
  /\ (forall m, In m rows ->
                In m (tMessages d)
                /\ Messages.copied (markCopied ids m) = true)
  /\ (forall m, mem_string (Messages._id m) ids = false ->
                markCopied ids m = m).
Proof.
  intros A B S. cbv zeta.
  destruct (success_known _ _ _ _ _ _ _ _ A B S)
    as (k & t & _ & R & _ & D & _).
  pose proof (locked_response env targetMailbox
                (selected env update mailbox d) k) as P.
  cbv zeta in P. destruct P as (_ & _ & DU & _).
  destruct (newRows_copy env session mailbox targetMailbox
              (selected env update mailbox d) 0
              (Mailboxes.uidNext targetMailbox)) as [F U].
  split; [|split; [exact F|split; [|split]]].
  - rewrite D.
    destruct (selected env update mailbox d) as [|m rest] eqn:Sel.
    + cbn [map newRows]. rewrite app_nil_r.
      rewrite <- (map_id (tMessages d)) at 1.
      apply map_ext. intros a. reflexivity.
    + pose proof (batchDb_tables env session mailbox targetMailbox
                                 (m :: rest) k d) as Qb.
      cbv zeta in Qb. destruct Qb as (Qb & _). exact Qb.
  - subst r. unfold responseOf. cbn [respDestinationUid].
    rewrite DU, rev_involutive. exact U.
  - intros m Hin. split.
    + unfold selected, selectMessages in Hin.
      apply (Permutation_in _ (sortByUid_perm _)) in Hin.
      apply filter_In in Hin. destruct Hin as [Hin _]. exact Hin.
    + apply markCopied_marks, mem_string_ids. exact Hin.
  - intros m. apply markCopied_marks.
Qed.

Lemma copy_marks_sources_and_appends_copies_witness :
  succeeds Scenario.quiet "A" Scenario.copyAll Scenario.sess Scenario.account
           (mkResponse 77 [9; 7; 5] [102; 101; 100])
  /\ map Messages.uid
         (newRows Scenario.quiet Scenario.sess Scenario.boxA Scenario.boxB 0
                  100
                  (selected Scenario.quiet Scenario.copyAll Scenario.boxA
                            Scenario.account))
     = rev [102; 101; 100].
Proof.
  assert (succeeds Scenario.quiet "A" Scenario.copyAll Scenario.sess
                   Scenario.account (mkResponse 77 [9; 7; 5] [102; 101; 100]))
    as H by (split; reflexivity).
  split; [exact H|].
  exact (proj1 (proj2 (proj2
    (copy_marks_sources_and_appends_copies
       Scenario.quiet "A" Scenario.copyAll Scenario.sess Scenario.account
       Scenario.boxA Scenario.boxB _ eq_refl eq_refl H)))).
Defined.



(** X15.  A COPY changes nothing of any mailbox row but the [uidNext] of
    the rows with the destination's id: paths, uid validity, modification
    index, retention and special use stay, and so does every other
    mailbox, the source included. *)
Theorem copy_changes_only_destination_uidNext
    (env : Env) (mailboxId : string) (update : Update) (session : Session)
    (d : Db) (targetMailbox : Mailboxes.row) :
  findOne (by_path (destination update)) d = Some targetMailbox ->
  Forall2
    (fun b b' =>
       Mailboxes._id b' = Mailboxes._id b
       /\ Mailboxes.path b' = Mailboxes.path b
       /\ Mailboxes.uidValidity b' = Mailboxes.uidValidity b
       /\ Mailboxes.modifyIndex b' = Mailboxes.modifyIndex b
       /\ Mailboxes.retention b' = Mailboxes.retention b
       /\ Mailboxes.specialUse b' = Mailboxes.specialUse b
       /\ (Mailboxes._id b <> Mailboxes._id targetMailbox -> b' = b))
    (tMailboxes d)
    (tMailboxes (db (runCopy env mailboxId update session d))).
Proof.
  intros B.
  assert (forall l, Forall2
            (fun b b' : Mailboxes.row =>
               Mailboxes._id b' = Mailboxes._id b
               /\ Mailboxes.path b' = Mailboxes.path b
               /\ Mailboxes.uidValidity b' = Mailboxes.uidValidity b
               /\ Mailboxes.modifyIndex b' = Mailboxes.modifyIndex b
               /\ Mailboxes.retention b' = Mailboxes.retention b
               /\ Mailboxes.specialUse b' = Mailboxes.specialUse b
               /\ (Mailboxes._id b <> Mailboxes._id targetMailbox -> b' = b))
            l l) as Same.
  { induction l; constructor; [repeat split; reflexivity | assumption]. }
  destruct (runCopy_db_cases env mailboxId update session d)
    as [-> | (mb & tg & k & _ & B' & _ & _ & _ & ->)]; [apply Same|].
  rewrite B in B'. inversion B'; subst tg.
  pose proof (batchDb_tables env session mb targetMailbox
                             (selected env update mb d) k d) as Q.
  cbv zeta in Q. destruct Q as (_ & _ & ->).
  apply Forall2_map_same. intros b. unfold setUidNext.
  destruct (String.eqb_spec (Mailboxes._id b) (Mailboxes._id targetMailbox))
    as [E|NE]; repeat split; try reflexivity.
  intros X. contradiction.
Qed.

Lemma copy_changes_only_destination_uidNext_witness :
  Forall2
    (fun b b' =>
       Mailboxes._id b' = Mailboxes._id b
       /\ Mailboxes.path b' = Mailboxes.path b
       /\ Mailboxes.uidValidity b' = Mailboxes.uidValidity b
       /\ Mailboxes.modifyIndex b' = Mailboxes.modifyIndex b
       /\ Mailboxes.retention b' = Mailboxes.retention b
       /\ Mailboxes.specialUse b' = Mailboxes.specialUse b
       /\ (Mailboxes._id b <> Mailboxes._id Scenario.boxB -> b' = b))
    (tMailboxes Scenario.account)
    (tMailboxes
       (db (runCopy Scenario.quiet "A" Scenario.copyAll Scenario.sess
                    Scenario.account))).
Proof.
  exact (copy_changes_only_destination_uidNext
           Scenario.quiet "A" Scenario.copyAll Scenario.sess
           Scenario.account Scenario.boxB eq_refl).
Defined.





(** ** Facts about the SMTP handlers *)

Section SmtpFacts.
Import Smtp.

Lemma validAdmin_earlier (t t' : Z) (d : Domain) (m : Member) :
  t' <= t -> validAdmin t d m = true -> validAdmin t' d m = true.
Proof.
  unfold validAdmin. intros Le H.
  destruct (planExpiresAt m) as [x|].
  - rewrite !andb_true_iff in *.
    destruct H as [[[[B V] P] E] G].
    apply Z.leb_le in E.
    assert (E' : Z.leb t' x = true) by (apply Z.leb_le; lia).
    rewrite B, V, P, E', G. repeat split.
  - rewrite !andb_true_iff in H. destruct H as [[_ E] _]. discriminate.
Qed.

Lemma validateDomain_ok (t : Z) (dom : option Domain) :
  validateDomain t dom = inr tt <->
  exists d, dom = Some d /\ is_global d = false /\ smtp_suspended d = false
            /\ has_smtp d = true
            /\ existsb (validAdmin t d) (members d) = true.
Proof.
  unfold validateDomain. split.
  - destruct dom as [d|]; [|discriminate].
    destruct (is_global d) eqn:G; [discriminate|].
    destruct (smtp_suspended d) eqn:S; [discriminate|].
    destruct (has_smtp d) eqn:H; [|discriminate]. simpl.
    destruct (existsb (validAdmin t d) (members d)) eqn:A; [|discriminate].
    intros _. exists d. repeat split; assumption.
  - intros (d & -> & G & S & H & A). rewrite G, S, H. simpl. rewrite A.
    reflexivity.
Qed.

Lemma validateAlias_ok (alias : option Alias) :
  validateAlias alias = inr tt <->
  exists a, alias = Some a /\ aliasUserBanned a = false
            /\ is_enabled a = true /\ aliasName a <> "*"
            /\ startsWithSlash (aliasName a) = false.
Proof.
  unfold validateAlias. split.
  - destruct alias as [a|]; [|discriminate].
    destruct (aliasUserBanned a) eqn:B; [discriminate|].
    destruct (is_enabled a) eqn:En; [|discriminate]. simpl.
    destruct (String.eqb (aliasName a) "*") eqn:E; [discriminate|].
    destruct (startsWithSlash (aliasName a)) eqn:S; [discriminate|].
    intros _. exists a. apply String.eqb_neq in E. repeat split; assumption.
  - intros (a & -> & B & En & N & S). rewrite B, En. simpl.
    apply String.eqb_neq in N. rewrite N, S. reflexivity.
Qed.

Lemma fnResults_app (t1 t2 : list Event) :
  fnResults (t1 ++ t2) = fnResults t1 ++ fnResults t2.
Proof.
  induction t1 as [|ev t1 IH]; [reflexivity|].
  destruct ev; simpl; rewrite IH; reflexivity.
Qed.

Lemma In_fnResults (r : FnResult) (t : list Event) :
  In (EvFn r) t <-> In r (fnResults t).
Proof.
  induction t as [|ev t IH]; [reflexivity|].
  destruct ev; simpl; rewrite <- IH;
    try (split; [intros [H|H]; [discriminate|exact H] | intros H; right; exact H]).
  split; (intros [H|H]; [left; congruence | right; exact H]).
Qed.

(** What [refineAndLogError] logs: log lines only. *)
Lemma refine_log_lines (w : World) (e : Err) :
  forall ev, In ev (snd (refineAndLogError w e)) ->
             exists x, ev = EvLogFatal x \/ ev = EvLogError x.
Proof.
  unfold refineAndLogError. intros ev.
  destruct (isCodeBug e) as [[|]|] eqn:C; simpl; try rewrite C; simpl.
  - intros [].
  - intros [<-|[]]. eexists. right. reflexivity.
  - destruct (isCodeBugOf w e) eqn:B; simpl.
    + intros [<-|[]]. eexists. left. reflexivity.
    + intros [<-|[]]. eexists. right. reflexivity.
Qed.

Lemma log_lines_silent (t : list Event) :
  (forall ev, In ev t -> exists x, ev = EvLogFatal x \/ ev = EvLogError x) ->
  fnResults t = [] /\ forall ev, In ev t -> isOutsideCall ev = false.
Proof.
  intros H. split.
  - induction t as [|ev t IH]; [reflexivity|].
    destruct (H ev (or_introl eq_refl)) as [x [-> | ->]]; simpl;
      apply IH; intros ev' I; apply H; right; exact I.
  - intros ev I. destruct (H ev I) as [x [-> | ->]]; reflexivity.
Qed.

Lemma fail_results (w : World) (e : Err) :
  fnResults (fail w e) = [FnFail (fst (refineAndLogError w e))].
Proof.
  unfold fail. rewrite fnResults_app.
  destruct (log_lines_silent _ (refine_log_lines w e)) as [-> _]. reflexivity.
Qed.

Lemma fail_no_lookup (w : World) (e : Err) :
  forall ev, In ev (fail w e) -> isOutsideCall ev = false.
Proof.
  unfold fail. intros ev I. apply in_app_or in I. destruct I as [I|[<-|[]]].
  - destruct (log_lines_silent _ (refine_log_lines w e)) as [_ H].
    apply H. exact I.
  - reflexivity.
Qed.

Lemma fail_no_queue (w : World) (e : Err) :
  forall ev, In ev (fail w e) -> isQueue ev = false.
Proof.
  unfold fail. intros ev I. apply in_app_or in I. destruct I as [I|[<-|[]]].
  - destruct (refine_log_lines w e ev I) as [x [-> | ->]]; reflexivity.
  - reflexivity.
Qed.

Lemma signalWorker_lines (w : World) (id : string) :
  fnResults (signalWorker w id) = []
  /\ forall ev, In ev (signalWorker w id) -> isQueue ev = false.
Proof.
  unfold signalWorker. destruct (bree w) as [| |[e|]]; simpl; split;
    try reflexivity; intros ev I;
    repeat (destruct I as [<-|I]; [reflexivity|]); destruct I.
Qed.

(** The [try] block of [onAuth] ends well only when every check passed. *)
Lemma authenticate_ok (w : World) (a : Auth) (x y : string) :
  snd (authenticate w a) = inr (x, y) ->
  exists u p records v dom al toks,
    username a = Some u /\ password a = Some p
    /\ validUsername w a = true /\ validPassword w a = true
    /\ resolveTxt w (snd (usernameParts w u)) = inr records
    /\ verificationsOf w records = [v]
    /\ findDomain w (snd (usernameParts w u)) v = inr (Some dom)
    /\ validateDomain (now w) (Some dom) = inr tt
    /\ findAlias w (fst (usernameParts w u)) (domainObjectId dom)
       = inr (Some al)
    /\ validateAlias (Some al) = inr tt
    /\ tokens al = Some toks /\ toks <> []
    /\ isValidPassword w toks p = true
    /\ x = aliasId al /\ y = domainId dom.
Proof.
  unfold authenticate.
  destruct (validUsername w a) eqn:VU; simpl; [|discriminate].
  destruct (validPassword w a) eqn:VP; simpl; [|discriminate].
  destruct (username a) as [u|] eqn:U; [|discriminate].
  destruct (password a) as [p|] eqn:P; [|discriminate].
  destruct (usernameParts w u) as [name dn] eqn:UP.
  destruct (resolveTxt w dn) as [e|records] eqn:R; [discriminate|].
  destruct (verificationsOf w records) as [|v [|v' vs]] eqn:V;
    try discriminate.
  destruct (findDomain w dn v) as [e|domain] eqn:FD; [discriminate|].
  destruct (validateDomain (now w) domain) as [e|[]] eqn:VD; [discriminate|].
  destruct domain as [d|]; [|discriminate].
  destruct (findAlias w name (domainObjectId d)) as [e|alias] eqn:FA;
    [discriminate|].
  destruct (validateAlias alias) as [e|[]] eqn:VA; [discriminate|].
  destruct alias as [al|]; [|discriminate].
  destruct (tokens al) as [[|t ts]|] eqn:T; try discriminate.
  destruct (isValidPassword w (t :: ts) p) eqn:IV; [|discriminate].
  cbn [snd]. intros E. assert (x = aliasId al /\ y = domainId d) as [-> ->]
    by (split; congruence).
  exists u, p, records, v, d, al, (t :: ts). rewrite UP. cbn [fst snd].
  repeat (split; [first [reflexivity | assumption]|]).
  split; [discriminate|]. repeat split. exact IV.
Qed.

(** The lookups of [onAuth] are not callbacks. *)
Lemma authenticate_events (w : World) (a : Auth) :
  fnResults (fst (authenticate w a)) = [].
Proof.
  unfold authenticate.
  destruct (validUsername w a); simpl; [|reflexivity].
  destruct (validPassword w a); simpl; [|reflexivity].
  destruct (username a) as [u|]; [|reflexivity].
  destruct (password a) as [p|]; [|reflexivity].
  destruct (usernameParts w u) as [name dn].
  destruct (resolveTxt w dn) as [e|records]; [reflexivity|].
  destruct (verificationsOf w records) as [|v [|v' vs]]; try reflexivity.
  destruct (findDomain w dn v) as [e|domain]; [reflexivity|].
  destruct (validateDomain (now w) domain) as [e|[]]; [reflexivity|].
  destruct domain as [d|]; [|reflexivity].
  destruct (findAlias w name (domainObjectId d)) as [e|alias]; [reflexivity|].
  destruct (validateAlias alias) as [e|[]]; [reflexivity|].
  destruct alias as [al|]; [|reflexivity].
  destruct (tokens al) as [[|t ts]|]; try reflexivity.
  destruct (isValidPassword w (t :: ts) p); reflexivity.
Qed.

(** What [onAuth] answers. *)
Lemma onAuth_results (w : World) (a : Auth) :
  fnResults (onAuth w a) =
  if closing w then [FnFail ServerShutdownError]
  else match snd (authenticate w a) with
       | inr (x, y) => [FnUser x y]
       | inl _ =>
           [FnFail (fst (refineAndLogError w
                           (SMTPError "Invalid username or password"
                                      (Some 535) true)))]
       end.
Proof.
  unfold onAuth. destruct (closing w); [reflexivity|].
  pose proof (authenticate_events w a) as Ev.
  destruct (authenticate w a) as [evs [e|[x y]]]; simpl in *.
  - rewrite fnResults_app, Ev. simpl. apply fail_results.
  - rewrite fnResults_app, Ev. reflexivity.
Qed.

(** The ways [onData] can run. *)
Lemma onData_shape (w : World) (s : Session) :
  (closing w = true /\ onData w s = [EvFn (FnFail ServerShutdownError)])
  \/ (closing w = false
      /\ ((exists pre e,
              onData w s = pre ++ fail w e
              /\ (pre = [EvReadStream]
                  \/ exists a d, pre = [EvReadStream; EvLookup a d]))
          \/ (exists a d q e,
                 passedChecks w s q /\ queue w q = inl e
                 /\ onData w s
                    = [EvReadStream; EvLookup a d; EvQueue q] ++ fail w e)
          \/ (exists a d q id,
                 passedChecks w s q /\ queue w q = inr id
                 /\ onData w s
                    = [EvReadStream; EvLookup a d; EvQueue q; EvLogInfo]
                      ++ signalWorker w id ++ [EvFn FnDone]))).
Proof.
  unfold onData. destruct (closing w); [left; split; reflexivity|].
  right. split; [reflexivity|].
  destruct (readStream w) as [e|raw] eqn:R.
  { left. exists [EvReadStream], e. split; [reflexivity|left; reflexivity]. }
  destruct (authenticated w s) as [e|[a d]] eqn:A.
  { left. exists [EvReadStream], e. split; [reflexivity|left; reflexivity]. }
  assert (U : sessionUser s = UserObj (Some a) (Some d)).
  { unfold authenticated in A.
    destruct (sessionUser s) as [| |[x|] [y|]]; try discriminate.
    injection A as <- <-. reflexivity. }
  destruct (lookup w a d) as [e|[alias domain]] eqn:L.
  { left. exists [EvReadStream; EvLookup a d], e.
    split; [reflexivity|right; exists a, d; reflexivity]. }
  destruct (validateDomain (now w) domain) as [e|[]] eqn:VD.
  { left. exists [EvReadStream; EvLookup a d], e.
    split; [reflexivity|right; exists a, d; reflexivity]. }
  destruct (validateAlias alias) as [e|[]] eqn:VA.
  { left. exists [EvReadStream; EvLookup a d], e.
    split; [reflexivity|right; exists a, d; reflexivity]. }
  destruct alias as [al|]; [|discriminate].
  destruct domain as [dom|]; [|discriminate].
  destruct (prepareEnvelope w s) as [e|envelope] eqn:P.
  { left. exists [EvReadStream; EvLookup a d], e.
    split; [reflexivity|right; exists a, d; reflexivity]. }
  assert (C : passedChecks w s (mkQueueRequest envelope raw al dom)).
  { exists a, d. cbn [qRaw qAlias qDomain qEnvelope].
    repeat split; assumption. }
  destruct (queue w (mkQueueRequest envelope raw al dom)) as [e|id] eqn:Q.
  - right. left. exists a, d, (mkQueueRequest envelope raw al dom), e.
    repeat split; assumption.
  - right. right. exists a, d, (mkQueueRequest envelope raw al dom), id.
    repeat split; assumption.
Qed.

(** What [onData] answers. *)
Lemma onData_results (w : World) (s : Session) :
  exists r, fnResults (onData w s) = [r]
            /\ (r = FnDone ->
                exists q id, passedChecks w s q /\ queue w q = inr id
                             /\ In (EvQueue q) (onData w s)).
Proof.
  destruct (onData_shape w s)
    as [[_ ->]|[_ [(pre & e & -> & Pre)|[(a & d & q & e & C & Q & ->)
                                        |(a & d & q & id & C & Q & ->)]]]].
  - eexists. split; [reflexivity|intros H; discriminate H].
  - exists (FnFail (fst (refineAndLogError w e))).
    split; [|intros H; discriminate H].
    rewrite fnResults_app, fail_results.
    destruct Pre as [->|(a & d & ->)]; reflexivity.
  - exists (FnFail (fst (refineAndLogError w e))).
    split; [|intros H; discriminate H].
    rewrite fnResults_app, fail_results. reflexivity.
  - exists FnDone. split.
    + rewrite !fnResults_app.
      destruct (signalWorker_lines w id) as [-> _]. reflexivity.
    + intros _. exists q, id. repeat split; try assumption.
      simpl. right. right. left. reflexivity.
Qed.

Lemma validRcpts_filter (w : World) (l to : list Rcpt) :
  validRcpts w l = inr to -> to = filter (validRcpt w) l.
Proof.
  revert to. induction l as [|r l IH]; intros to; simpl.
  - intros [= <-]. reflexivity.
  - unfold isEmailValue, validRcpt.
    destruct (rcptAddress r) as [x|]; [|discriminate].
    destruct (validRcpts w l) as [e|to']; [discriminate|].
    intros [= <-]. rewrite (IH to' eq_refl).
    destruct (isEmail w x); reflexivity.
Qed.

Lemma validRcpts_bree (b : Bree) (w : World) (l : list Rcpt) :
  validRcpts (with_bree b w) l = validRcpts w l.
Proof.
  induction l as [|r l IH]; [reflexivity|]. simpl. rewrite IH. reflexivity.
Qed.

Lemma splitSemi_head (a : ascii) (rest : string) :
  exists h t, splitSemi (String a rest) = h :: t
              /\ (h = EmptyString \/ exists h', h = String a h').
Proof.
  simpl. destruct rest as [|c' rest'].
  - exists (String a ""), []. split; [reflexivity|]. right. eexists.
    reflexivity.
  - destruct (Ascii.eqb a ";" && Ascii.eqb c' " ").
    + eexists _, _. split; [reflexivity|]. left. reflexivity.
    + destruct (splitSemi (String c' rest')) as [|h t].
      * eexists _, _. split; [reflexivity|]. right. eexists. reflexivity.
      * eexists _, _. split; [reflexivity|]. right. eexists. reflexivity.
Qed.

Lemma splitSemi_head_nonempty (s : string) :
  exists h t, splitSemi s = h :: t.
Proof.
  destruct s as [|a rest].
  - eexists _, _. reflexivity.
  - destruct (splitSemi_head a rest) as (h & t & E & _).
    exists h, t. exact E.
Qed.

(** No part of a split message contains the separator. *)
Lemma splitSemi_parts (s : string) :
  Forall (fun p => containsSemi p = false) (splitSemi s).
Proof.
  enough (H : Forall (fun p => containsSemi p = false) (splitSemi s)
              /\ forall c, Forall (fun p => containsSemi p = false)
                                  (splitSemi (String c s)))
    by apply H.
  induction s as [|a rest [IH1 IH2]].
  - split; [repeat constructor|]. intros c. repeat constructor.
  - split; [apply IH2|]. intros c.
    destruct (splitSemi_head a rest) as (h & t & E & Hh).
    pose proof (IH2 a) as P. rewrite E in P.
    apply Forall_cons_iff in P. destruct P as [Ph Pt].
    change (splitSemi (String c (String a rest)))
      with (if Ascii.eqb c ";" && Ascii.eqb a " "
            then EmptyString :: splitSemi rest
            else match splitSemi (String a rest) with
                 | h :: t => String c h :: t
                 | [] => [String c EmptyString]
                 end).
    destruct (Ascii.eqb c ";" && Ascii.eqb a " ") eqn:B.
    + constructor; [reflexivity|exact IH1].
    + rewrite E. constructor; [|exact Pt].
      destruct Hh as [->|[h' ->]]; [reflexivity|].
      change (containsSemi (String c (String a h')))
        with ((Ascii.eqb c ";" && Ascii.eqb a " ")
              || containsSemi (String a h')).
      rewrite B, Ph. reflexivity.
Qed.

Lemma splitSemi_single (e : string) :
  containsSemi e = false -> splitSemi e = [e].
Proof.
  induction e as [|c rest IH]; [reflexivity|].
  destruct rest as [|c' rest']; [reflexivity|].
  change (containsSemi (String c (String c' rest')))
    with ((Ascii.eqb c ";" && Ascii.eqb c' " ")
          || containsSemi (String c' rest')).
  intros H. apply orb_false_elim in H. destruct H as [B C].
  change (splitSemi (String c (String c' rest')))
    with (if Ascii.eqb c ";" && Ascii.eqb c' " "
          then EmptyString :: splitSemi rest'
          else match splitSemi (String c' rest') with
               | h :: t => String c h :: t
               | [] => [String c EmptyString]
               end).
  rewrite B, (IH C). reflexivity.
Qed.

Lemma splitSemi_append (e r : string) :
  containsSemi e = false ->
  splitSemi (e ++ "; " ++ r)%string = e :: splitSemi r.
Proof.
  induction e as [|c rest IH]; [reflexivity|].
  destruct rest as [|c' rest'].
  - intros _. cbn [String.append].
    change (splitSemi (String c (String ";" (String " " r))))
      with (if Ascii.eqb c ";" && Ascii.eqb ";" " "
            then EmptyString :: splitSemi (String " " r)
            else match splitSemi (String ";" (String " " r)) with
                 | h :: t => String c h :: t
                 | [] => [String c EmptyString]
                 end).
    rewrite andb_false_r. reflexivity.
  - change (containsSemi (String c (String c' rest')))
      with ((Ascii.eqb c ";" && Ascii.eqb c' " ")
            || containsSemi (String c' rest')).
    intros H. apply orb_false_elim in H. destruct H as [B C].
    specialize (IH C). cbn [String.append] in *.
    change (splitSemi (String c (String c' (rest' ++ String ";" (String " " r))%string)))
      with (if Ascii.eqb c ";" && Ascii.eqb c' " "
            then EmptyString :: splitSemi (rest' ++ String ";" (String " " r))%string
            else match splitSemi
                         (String c' (rest' ++ String ";" (String " " r))%string) with
                 | h :: t => String c h :: t
                 | [] => [String c EmptyString]
                 end).
    rewrite B, IH. reflexivity.
Qed.

(** Splitting undoes joining, for parts without the separator. *)
Lemma splitSemi_joinSemi (l : list string) :
  l <> [] -> Forall (fun p => containsSemi p = false) l ->
  splitSemi (joinSemi l) = l.
Proof.
  unfold joinSemi. induction l as [|x l IH]; [congruence|].
  intros _ F. apply Forall_cons_iff in F. destruct F as [Fx Fl].
  destruct l as [|y l].
  - simpl. apply splitSemi_single. exact Fx.
  - change (String.concat "; " (x :: y :: l))
      with (x ++ "; " ++ String.concat "; " (y :: l))%string.
    rewrite (splitSemi_append _ _ Fx), IH; [reflexivity|discriminate|exact Fl].
Qed.

Lemma uniq_In (x : string) (l : list string) : In x (uniq l) <-> In x l.
Proof.
  induction l as [|y l IH]; [reflexivity|]. simpl.
  rewrite filter_In, IH. split.
  - intros [H|[H _]]; [left|right]; exact H.
  - destruct (String.eqb_spec y x) as [E|N]; [left; exact E|].
    intros [H|H]; [left; exact H|]. right. split; [exact H|].
    reflexivity.
Qed.

Lemma uniq_NoDup (l : list string) : NoDup (uniq l).
Proof.
  induction l as [|y l IH]; [constructor|]. simpl. constructor.
  - rewrite filter_In. intros [_ H]. rewrite String.eqb_refl in H.
    discriminate.
  - apply NoDup_filter. exact IH.
Qed.

(** The message part of [refineAndLogError]'s result. *)
Lemma refine_message (w : World) (e : Err) :
  exists m,
    errMessage (fst (refineAndLogError w e))
    = joinSemi (uniq (splitSemi (joinSemi (splitLines w m))))
    /\ (m = errMessage e
        \/ m = "An internal server error has occurred, please try again later.").
Proof.
  unfold refineAndLogError.
  destruct (isCodeBug e) as [[|]|] eqn:C; simpl; try rewrite C; simpl.
  - eexists. split; [reflexivity|right; reflexivity].
  - eexists. split; [reflexivity|left; reflexivity].
  - destruct (isCodeBugOf w e); simpl.
    + eexists. split; [reflexivity|right; reflexivity].
    + eexists. split; [reflexivity|left; reflexivity].
Qed.


(** X18. A domain that [validateDomain] accepts at some time is accepted
    at every earlier time: with the same records, acceptance can only be
    lost as time passes, never gained. *)
Theorem accepted_domain_was_accepted_earlier (t t' : Z) (d : Domain) :
  t' <= t ->
  validateDomain t (Some d) = inr tt ->
  validateDomain t' (Some d) = inr tt.
Proof.
  intros Le. rewrite !validateDomain_ok.
  intros (d' & E & G & S & H & A). exists d'.
  repeat (split; [assumption|]).
  apply existsb_exists in A. destruct A as (m & I & V).
  apply existsb_exists. exists m. split; [exact I|].
  exact (validAdmin_earlier t t' d' m Le V).
Qed.

Lemma accepted_domain_was_accepted_earlier_witness :
  validateDomain 10 (Some SmtpScenario.example) = inr tt.
Proof.
  apply (accepted_domain_was_accepted_earlier 1000 10 SmtpScenario.example).
  - lia.
  - reflexivity.
Defined.

(** X19. [onAuth] answers with a user only when the server is not closing
    and every check passed: the user name is a non-blank e-mail address,
    the password is non-blank and at most 128 UTF-16 code units long (what
    [length] counts), the domain's TXT records hold exactly one
    verification string, the domain found with
    it passes [validateDomain], the alias found under that domain passes
    [validateAlias] and has at least one token, and the password matches
    the tokens.  The ids answered are those of that alias and domain. *)
Theorem auth_success_requires_every_check (w : World) (a : Auth)
    (x y : string) :
  In (EvFn (FnUser x y)) (onAuth w a) ->
  closing w = false
  /\ exists u p records v dom al toks,
       username a = Some u /\ password a = Some p
       /\ isSANB w u = true /\ isEmail w u = true
       /\ isSANB w p = true /\ (utf16Length p <= 128)%nat
       /\ resolveTxt w (snd (usernameParts w u)) = inr records
       /\ verificationsOf w records = [v]
       /\ findDomain w (snd (usernameParts w u)) v = inr (Some dom)
       /\ validateDomain (now w) (Some dom) = inr tt
       /\ findAlias w (fst (usernameParts w u)) (domainObjectId dom)
          = inr (Some al)
       /\ validateAlias (Some al) = inr tt
       /\ tokens al = Some toks /\ toks <> []
       /\ isValidPassword w toks p = true
       /\ x = aliasId al /\ y = domainId dom.
Proof.
  intros I. apply In_fnResults in I. rewrite onAuth_results in I.
  destruct (closing w); [destruct I as [I|[]]; discriminate|].
  split; [reflexivity|].
  destruct (snd (authenticate w a)) as [e|[x' y']] eqn:A;
    [destruct I as [I|[]]; discriminate|].
  destruct I as [I|[]]. injection I as -> ->.
  destruct (authenticate_ok w a x y A)
    as (u & p & records & v & dom & al & toks & U & P & VU & VP & R & V & FD
        & VD & FA & VA & T & N & IV & Ex & Ey).
  exists u, p, records, v, dom, al, toks.
  unfold validUsername in VU. rewrite U in VU.
  unfold validPassword in VP. rewrite P in VP.
  apply andb_true_iff in VU. destruct VU as [SU EU].
  apply andb_true_iff in VP. destruct VP as [SP LP].
  repeat (split; [assumption|]).
  split; [|repeat (split; [assumption|]); assumption].
  apply negb_true_iff in LP. apply Nat.ltb_ge in LP. exact LP.
Qed.

Lemma auth_success_requires_every_check_witness :
  closing SmtpScenario.world = false
  /\ exists u p records v dom al toks,
       username SmtpScenario.login = Some u
       /\ password SmtpScenario.login = Some p
       /\ isSANB SmtpScenario.world u = true
       /\ isEmail SmtpScenario.world u = true
       /\ isSANB SmtpScenario.world p = true
       /\ (utf16Length p <= 128)%nat
       /\ resolveTxt SmtpScenario.world
                     (snd (usernameParts SmtpScenario.world u)) = inr records
       /\ verificationsOf SmtpScenario.world records = [v]
       /\ findDomain SmtpScenario.world
                     (snd (usernameParts SmtpScenario.world u)) v
          = inr (Some dom)
       /\ validateDomain (now SmtpScenario.world) (Some dom) = inr tt
       /\ findAlias SmtpScenario.world
                    (fst (usernameParts SmtpScenario.world u))
                    (domainObjectId dom)
          = inr (Some al)
       /\ validateAlias (Some al) = inr tt
       /\ tokens al = Some toks /\ toks <> []
       /\ isValidPassword SmtpScenario.world toks p = true
       /\ "a1" = aliasId al /\ "d1" = domainId dom.
Proof.
  apply (auth_success_requires_every_check SmtpScenario.world
           SmtpScenario.login "a1" "d1").
  vm_compute. right. right. right. left. reflexivity.
Defined.

(** X20. A refused login is always answered the same way: whichever check
    of [onAuth] failed, and whatever error it raised, the callback gets
    the same error, so the answer does not tell a wrong password from an
    unknown alias or domain. *)
Theorem auth_failures_are_indistinguishable (w : World) (a1 a2 : Auth) :
  existsb isUserReply (onAuth w a1) = false ->
  existsb isUserReply (onAuth w a2) = false ->
  fnResults (onAuth w a1) = fnResults (onAuth w a2).
Proof.
  assert (H : forall a, existsb isUserReply (onAuth w a) = false ->
                        forall x y, ~ In (FnUser x y) (fnResults (onAuth w a))).
  { intros a E x y I. apply In_fnResults in I.
    assert (X : existsb isUserReply (onAuth w a) = true)
      by (apply existsb_exists; exists (EvFn (FnUser x y));
          split; [exact I|reflexivity]).
    congruence. }
  intros E1 E2. pose proof (H a1 E1) as N1. pose proof (H a2 E2) as N2.
  rewrite onAuth_results in N1, N2. rewrite !onAuth_results.
  destruct (closing w); [reflexivity|].
  destruct (snd (authenticate w a1)) as [e1|[x1 y1]];
    [|exfalso; apply (N1 x1 y1); left; reflexivity].
  destruct (snd (authenticate w a2)) as [e2|[x2 y2]];
    [|exfalso; apply (N2 x2 y2); left; reflexivity].
  reflexivity.
Qed.

Lemma auth_failures_are_indistinguishable_witness :
  fnResults (onAuth SmtpScenario.world SmtpScenario.wrongPassword)
  = fnResults (onAuth SmtpScenario.world SmtpScenario.noSuchDomain).
Proof.
  apply (auth_failures_are_indistinguishable SmtpScenario.world
           SmtpScenario.wrongPassword SmtpScenario.noSuchDomain);
    reflexivity.
Defined.

(** X21. When the user name is not a non-blank e-mail address, or the
    password is blank or longer than 128 UTF-16 code units, [onAuth]
    refuses the login without any DNS or database lookup. *)
Theorem malformed_credentials_cause_no_lookup (w : World) (a : Auth) :
  validUsername w a = false \/ validPassword w a = false ->
  filter isOutsideCall (onAuth w a) = [].
Proof.
  intros H. unfold onAuth. destruct (closing w); [reflexivity|].
  assert (A : exists e, authenticate w a = ([], inl e)).
  { unfold authenticate. destruct (validUsername w a); simpl.
    - destruct H as [H|H]; [discriminate|]. rewrite H. simpl.
      eexists. reflexivity.
    - eexists. reflexivity. }
  destruct A as [e ->]. cbn [app filter isOutsideCall].
  destruct (filter isOutsideCall (fail w _)) as [|ev t] eqn:E; [reflexivity|].
  assert (I : In ev (filter isOutsideCall
                       (fail w (SMTPError "Invalid username or password"
                                          (Some 535) true))))
    by (rewrite E; left; reflexivity).
  apply filter_In in I. destruct I as [I T].
  rewrite (fail_no_lookup _ _ ev I) in T. discriminate.
Qed.

(** A password of 65 two-byte characters is 130 bytes but 65 code units
    long: it passes the length check and the lookups are made. *)
Example two_byte_password_is_looked_up :
  String.length (SmtpScenario.accented 65) = 130%nat
  /\ validPassword SmtpScenario.world SmtpScenario.longLogin = true
  /\ existsb isOutsideCall (onAuth SmtpScenario.world SmtpScenario.longLogin)
     = true.
Proof. repeat split; vm_compute; reflexivity. Qed.

Lemma malformed_credentials_cause_no_lookup_witness :
  filter isOutsideCall
         (onAuth SmtpScenario.world (mkAuth (Some "hello") (Some "token")))
  = [].
Proof.
  apply (malformed_credentials_cause_no_lookup SmtpScenario.world
           (mkAuth (Some "hello") (Some "token"))).
  left. reflexivity.
Defined.

(** X22. [onAuth] and [onData] each call their callback exactly once, on
    every path: shutdown, a failed check, a failed lookup, success. *)
Theorem smtp_handlers_call_back_once (w : World) (a : Auth) (s : Session) :
  List.length (fnResults (onAuth w a)) = 1%nat
  /\ List.length (fnResults (onData w s)) = 1%nat.
Proof.
  split.
  - rewrite onAuth_results. destruct (closing w); [reflexivity|].
    destruct (snd (authenticate w a)) as [e|[x y]]; reflexivity.
  - destruct (onData_results w s) as (r & -> & _). reflexivity.
Qed.

(** X23. [onData] hands a message to the queue only when the server is
    not closing, the stream was read, the session carries the ids of an
    alias and a domain, both were found again in the database, the domain
    passes [validateDomain] and the alias [validateAlias] at the time of
    the command, and the envelope was prepared; the queued request holds
    exactly that alias, domain, raw message and envelope. *)
Theorem queued_message_passed_every_check (w : World) (s : Session)
    (q : QueueRequest) :
  In (EvQueue q) (onData w s) ->
  closing w = false /\ passedChecks w s q.
Proof.
  intros I.
  destruct (onData_shape w s)
    as [[_ E]|[C [(pre & e & E & Pre)|[(a & d & q' & e & P & Q & E)
                                      |(a & d & q' & id & P & Q & E)]]]];
    rewrite E in I.
  - destruct I as [I|[]]. discriminate.
  - exfalso. apply in_app_or in I. destruct I as [I|I].
    + destruct Pre as [->|(a & d & ->)]; simpl in I;
        repeat (destruct I as [I|I]; [discriminate|]); destruct I.
    + pose proof (fail_no_queue w e _ I) as F. discriminate.
  - split; [exact C|]. simpl in I.
    destruct I as [I|[I|[I|I]]]; try discriminate.
    + injection I as <-. exact P.
    + pose proof (fail_no_queue w e _ I) as F. discriminate.
  - split; [exact C|]. simpl in I.
    destruct I as [I|[I|[I|[I|I]]]]; try discriminate.
    + injection I as <-. exact P.
    + apply in_app_or in I. destruct I as [I|[I|[]]]; [|discriminate].
      destruct (signalWorker_lines w id) as [_ F].
      pose proof (F _ I) as F'. discriminate.
Qed.

Lemma queued_message_passed_every_check_witness :
  closing SmtpScenario.world = false
  /\ passedChecks SmtpScenario.world SmtpScenario.session
       (mkQueueRequest
          (mkEnvelope (Some "hello@example.com")
                      (Some [mkRcpt (Some "to@example.org");
                             mkRcpt (Some "cc@example.org")]))
          "Subject: hi" SmtpScenario.hello SmtpScenario.example).
Proof.
  apply (queued_message_passed_every_check SmtpScenario.world
           SmtpScenario.session).
  vm_compute. right. right. left. reflexivity.
Defined.

(** X24. [onData] acknowledges the DATA command (calls back without an
    error) exactly when it handed the message to the queue and the queue
    stored it. *)
Theorem data_acknowledged_iff_stored (w : World) (s : Session) :
  In (EvFn FnDone) (onData w s) <->
  exists q id, In (EvQueue q) (onData w s) /\ queue w q = inr id.
Proof.
  split.
  - intros I. apply In_fnResults in I.
    destruct (onData_results w s) as (r & E & H). rewrite E in I.
    destruct I as [->|[]].
    destruct (H eq_refl) as (q & id & _ & Q & Iq).
    exists q, id. split; assumption.
  - intros (q & id & I & Q).
    destruct (onData_shape w s)
      as [[_ E]|[C [(pre & e & E & Pre)|[(a & d & q' & e & P & Q' & E)
                                        |(a & d & q' & id' & P & Q' & E)]]]];
      rewrite E in *.
    + destruct I as [I|[]]. discriminate.
    + exfalso. apply in_app_or in I. destruct I as [I|I].
      * destruct Pre as [->|(a & d & ->)]; simpl in I;
          repeat (destruct I as [I|I]; [discriminate|]); destruct I.
      * pose proof (fail_no_queue w e _ I) as F. discriminate.
    + exfalso. simpl in I. destruct I as [I|[I|[I|I]]]; try discriminate.
      * injection I as <-. congruence.
      * pose proof (fail_no_queue w e _ I) as F. discriminate.
    + apply in_or_app. right. apply in_or_app. right. left. reflexivity.
Qed.

(** X25. Whether the send-emails worker is running, and whether posting to
    it throws, changes neither what [onData] queues nor what it answers. *)
Theorem worker_state_does_not_change_reply (b : Bree) (w : World)
    (s : Session) :
  fnResults (onData (with_bree b w) s) = fnResults (onData w s)
  /\ filter isQueue (onData (with_bree b w) s)
     = filter isQueue (onData w s).
Proof.
  assert (F : forall e, fail (with_bree b w) e = fail w e)
    by (intros e; reflexivity).
  assert (P : prepareEnvelope (with_bree b w) s = prepareEnvelope w s).
  { unfold prepareEnvelope, isEmailValue.
    cbn [with_bree isEmail notAString].
    destruct (mailFromAddress s) as [x|]; [|reflexivity].
    destruct (rcptTo s) as [[|r l]|]; try reflexivity.
    rewrite validRcpts_bree. reflexivity. }
  assert (S : forall t id,
             fnResults (signalWorker t id) = []
             /\ filter isQueue (signalWorker t id) = []).
  { intros t id. unfold signalWorker.
    destruct (bree t) as [| |[e|]]; split; reflexivity. }
  unfold onData. rewrite P.
  change (closing (with_bree b w)) with (closing w).
  change (readStream (with_bree b w)) with (readStream w).
  change (authenticated (with_bree b w) s) with (authenticated w s).
  change (lookup (with_bree b w)) with (lookup w).
  change (now (with_bree b w)) with (now w).
  change (queue (with_bree b w)) with (queue w).
  destruct (closing w); [split; reflexivity|].
  destruct (readStream w) as [e|raw]; [rewrite F; split; reflexivity|].
  destruct (authenticated w s) as [e|[a d]]; [rewrite F; split; reflexivity|].
  destruct (lookup w a d) as [e|[alias domain]];
    [rewrite F; split; reflexivity|].
  destruct (validateDomain (now w) domain) as [e|[]];
    [rewrite F; split; reflexivity|].
  destruct (validateAlias alias) as [e|[]]; [rewrite F; split; reflexivity|].
  destruct alias as [al|]; [|split; reflexivity].
  destruct domain as [dom|]; [|split; reflexivity].
  destruct (prepareEnvelope w s) as [e|envelope];
    [rewrite F; split; reflexivity|].
  destruct (queue w (mkQueueRequest envelope raw al dom)) as [e|id];
    [rewrite F; split; reflexivity|].
  cbn [fnResults filter isQueue].
  rewrite !fnResults_app, !filter_app.
  destruct (S (with_bree b w) id) as [-> ->].
  destruct (S w id) as [-> ->]. split; reflexivity.
Qed.

(** X26. The envelope [onData] queues names the sender only when the
    session's sender address is a valid e-mail address, and lists exactly
    the session's recipients with a valid address, in their order; when
    none is valid it has no recipient list at all. *)
Theorem envelope_keeps_valid_addresses (w : World) (s : Session)
    (envelope : Envelope) :
  prepareEnvelope w s = inr envelope ->
  (forall f, envFrom envelope = Some f <->
             mailFromAddress s = Some f /\ isEmail w f = true)
  /\ (forall to, envTo envelope = Some to <->
                 to <> []
                 /\ exists all, rcptTo s = Some all
                                /\ to = filter (validRcpt w) all).
Proof.
  unfold prepareEnvelope, isEmailValue.
  destruct (mailFromAddress s) as [x|]; [|discriminate].
  assert (Fr : forall f, (if isEmail w x then Some x else None) = Some f <->
                         Some x = Some f /\ isEmail w f = true).
  { intros f. destruct (isEmail w x) eqn:E; split.
    - intros [= <-]. split; [reflexivity|exact E].
    - intros [H _]. exact H.
    - discriminate.
    - intros [[= <-] H]. congruence. }
  destruct (rcptTo s) as [[|r l]|].
  - intros [= <-]. split; [exact Fr|]. intros to. cbn [envTo]. split.
    + discriminate.
    + intros (N & all & [= <-] & ->). contradiction N. reflexivity.
  - destruct (validRcpts w (r :: l)) as [e|to'] eqn:V; [discriminate|].
    apply validRcpts_filter in V.
    destruct to' as [|r' to'].
    + intros [= <-]. split; [exact Fr|]. intros to. cbn [envTo]. split.
      * discriminate.
      * intros (N & all & [= <-] & ->). contradiction N. symmetry. exact V.
    + intros [= <-]. split; [exact Fr|]. intros to. cbn [envTo]. split.
      * intros [= <-]. split; [discriminate|].
        exists (r :: l). split; [reflexivity|exact V].
      * intros (_ & all & [= <-] & ->). rewrite V. reflexivity.
  - intros [= <-]. split; [exact Fr|]. intros to. cbn [envTo]. split.
    + discriminate.
    + intros (_ & all & A & _). discriminate.
Qed.

Lemma envelope_keeps_valid_addresses_witness :
  (forall f, envFrom (mkEnvelope (Some "hello@example.com")
                        (Some [mkRcpt (Some "to@example.org");
                               mkRcpt (Some "cc@example.org")])) = Some f <->
             mailFromAddress SmtpScenario.session = Some f
             /\ isEmail SmtpScenario.world f = true)
  /\ (forall to, envTo (mkEnvelope (Some "hello@example.com")
                          (Some [mkRcpt (Some "to@example.org");
                                 mkRcpt (Some "cc@example.org")])) = Some to <->
                 to <> []
                 /\ exists all, rcptTo SmtpScenario.session = Some all
                                /\ to = filter (validRcpt SmtpScenario.world)
                                               all).
Proof.
  apply (envelope_keeps_valid_addresses SmtpScenario.world
           SmtpScenario.session).
  reflexivity.
Defined.

(** X27. When an error is a code bug (already flagged, or found to be one
    by the detector), [refineAndLogError] hands back the fixed internal
    server error message whatever the error said, flags it as a code bug,
    and never writes it to the error log: a newly found one is logged once
    as fatal, an already flagged one is not logged again. *)
Theorem code_bug_details_stay_private (w : World) (e : Err) :
  isCodeBug e = Some true \/ (isCodeBug e = None /\ isCodeBugOf w e = true) ->
  errMessage (fst (refineAndLogError w e)) = internalErrorMessage w
  /\ isCodeBug (fst (refineAndLogError w e)) = Some true
  /\ existsb isErrorLine (snd (refineAndLogError w e)) = false
  /\ List.length (snd (refineAndLogError w e))
     = match isCodeBug e with Some _ => 0%nat | None => 1%nat end.
Proof.
  unfold refineAndLogError, internalErrorMessage.
  intros [C|[C B]]; rewrite C; simpl; [rewrite C|rewrite B]; simpl;
    repeat split; assumption.
Qed.

Lemma code_bug_details_stay_private_witness :
  errMessage (fst (refineAndLogError SmtpScenario.world
                     (mkErr "TypeError" "x is not a function" None
                            (Some true) false)))
  = internalErrorMessage SmtpScenario.world.
Proof.
  apply (code_bug_details_stay_private SmtpScenario.world
           (mkErr "TypeError" "x is not a function" None (Some true) false)).
  left. reflexivity.
Defined.

(** X28. The message [refineAndLogError] hands back, split at its
    separator, lists no part twice, and its parts are exactly the parts
    of the joined lines of the message it started from (the error's own,
    or the internal server error text for a code bug). *)
Theorem refined_message_lists_each_part_once (w : World) (e : Err) :
  NoDup (splitSemi (errMessage (fst (refineAndLogError w e))))
  /\ exists m,
       (m = errMessage e
        \/ m = "An internal server error has occurred, please try again later.")
       /\ forall part,
            In part (splitSemi (errMessage (fst (refineAndLogError w e))))
            <-> In part (splitSemi (joinSemi (splitLines w m))).
Proof.
  destruct (refine_message w e) as (m & -> & M).
  assert (R : splitSemi (joinSemi (uniq (splitSemi (joinSemi (splitLines w m)))))
              = uniq (splitSemi (joinSemi (splitLines w m)))).
  { apply splitSemi_joinSemi.
    - intros E.
      destruct (splitSemi_head_nonempty (joinSemi (splitLines w m)))
        as (h & t & S).
      assert (I : In h (uniq (splitSemi (joinSemi (splitLines w m)))))
        by (apply (proj2 (uniq_In _ _)); rewrite S; left; reflexivity).
      rewrite E in I. destruct I.
    - apply Forall_forall. intros p I. apply (proj1 (uniq_In _ _)) in I.
      pose proof (splitSemi_parts (joinSemi (splitLines w m))) as F.
      rewrite Forall_forall in F. exact (F p I). }
  rewrite R. split; [apply uniq_NoDup|].
  exists m. split; [exact M|]. intros part. exact (uniq_In _ _).
Qed.

End SmtpFacts.

(** ** Facts about refunds *)

Section RefundFacts.
Import Refund.

(** X29. When [refund] returns a payment, that payment was found by its
    id, the provider refund went through (at Stripe when the payment has
    a Stripe intent, even if it also has a PayPal transaction; at PayPal
    otherwise), the payment returned is the one found with its refunded
    amount set to its full amount, and it was saved. *)
Theorem refund_success_means_refunded_and_saved (w : World) (id : string)
    (p : Payment) :
  snd (refund w id) = inr p ->
  exists payment,
    findById w id = inr (Some payment)
    /\ p = setRefunded payment
    /\ amount_refunded p = amount payment
    /\ save w p = None
    /\ match idOf (stripe_payment_intent_id payment) with
       | Some intent =>
           stripeRefundsCreate w intent = None
           /\ fst (refund w id)
              = [EvFindById id; EvStripeRefund intent; EvSave p]
       | None =>
           exists transaction,
             idOf (paypal_transaction_id payment) = Some transaction
             /\ paypalAgent w = None
             /\ agentPost w (refundUrl transaction) = None
             /\ fst (refund w id)
                = [EvFindById id; EvPaypalAgent;
                   EvPaypalPost (refundUrl transaction); EvSave p]
       end.
Proof.
  unfold refund, markAndSave.
  destruct (findById w id) as [e|[payment|]] eqn:F; try discriminate.
  destruct (idOf (stripe_payment_intent_id payment)) as [intent|] eqn:S.
  - destruct (stripeRefundsCreate w intent) as [e|] eqn:C; [discriminate|].
    destruct (save w (setRefunded payment)) as [e|] eqn:Sv; [discriminate|].
    cbn [fst snd]. intros E. injection E as <-.
    exists payment. rewrite S.
    repeat (split; [first [reflexivity|assumption]|]). reflexivity.
  - destruct (idOf (paypal_transaction_id payment)) as [tx|] eqn:P;
      [|discriminate].
    destruct (paypalAgent w) as [e|] eqn:A; [discriminate|].
    destruct (agentPost w (refundUrl tx)) as [e|] eqn:Po; [discriminate|].
    destruct (save w (setRefunded payment)) as [e|] eqn:Sv; [discriminate|].
    cbn [fst snd]. intros E. injection E as <-.
    exists payment. rewrite S.
    repeat (split; [first [reflexivity|assumption]|]).
    exists tx. repeat (split; [first [reflexivity|assumption]|]). reflexivity.
Qed.

Lemma refund_success_means_refunded_and_saved_witness :
  exists payment,
    findById shop "p1" = inr (Some payment)
    /\ setRefunded card = setRefunded payment
    /\ amount_refunded (setRefunded card) = amount payment
    /\ save shop (setRefunded card) = None
    /\ match idOf (stripe_payment_intent_id payment) with
       | Some intent =>
           stripeRefundsCreate shop intent = None
           /\ fst (refund shop "p1")
              = [EvFindById "p1"; EvStripeRefund intent;
                 EvSave (setRefunded card)]
       | None =>
           exists transaction,
             idOf (paypal_transaction_id payment) = Some transaction
             /\ paypalAgent shop = None
             /\ agentPost shop (refundUrl transaction) = None
             /\ fst (refund shop "p1")
                = [EvFindById "p1"; EvPaypalAgent;
                   EvPaypalPost (refundUrl transaction);
                   EvSave (setRefunded card)]
       end.
Proof.
  exact (refund_success_means_refunded_and_saved shop "p1" (setRefunded card)
           eq_refl).
Defined.

(** X30. [refund] never records a refund that did not happen: it saves
    at most once, only as its last step, only after the one provider it
    called accepted the refund, and it never calls both providers. *)
Theorem refund_saves_only_after_provider_accepts (w : World) (id : string) :
  (List.length (filter isSave (fst (refund w id))) <= 1)%nat
  /\ (filter isStripeCall (fst (refund w id)) = []
      \/ filter isPaypalCall (fst (refund w id)) = [])
  /\ forall p,
       In (EvSave p) (fst (refund w id)) ->
       exists before,
         fst (refund w id) = before ++ [EvSave p]
         /\ filter isSave before = []
         /\ ((exists intent,
                In (EvStripeRefund intent) before
                /\ stripeRefundsCreate w intent = None)
             \/ (exists url,
                   In (EvPaypalPost url) before
                   /\ paypalAgent w = None /\ agentPost w url = None)).
Proof.
  unfold refund, markAndSave.
  destruct (findById w id) as [e|[payment|]] eqn:F;
    try (cbn; repeat split;
         [lia | left; reflexivity | intros p [H|[]]; discriminate H]).
  destruct (idOf (stripe_payment_intent_id payment)) as [intent|] eqn:S.
  - destruct (stripeRefundsCreate w intent) as [e|] eqn:C.
    + cbn. repeat split; [lia | right; reflexivity |].
      intros p [H|[H|[]]]; discriminate H.
    + destruct (save w (setRefunded payment)); cbn;
        (repeat split; [lia | right; reflexivity |]);
        intros p [H|[H|[H|[]]]]; try discriminate H;
        injection H as <-;
        (exists [EvFindById id; EvStripeRefund intent];
         repeat split; left; exists intent;
         split; [right; left; reflexivity
                | first [assumption | reflexivity]]).
  - destruct (idOf (paypal_transaction_id payment)) as [tx|] eqn:P.
    + destruct (paypalAgent w) as [e|] eqn:A.
      * cbn. repeat split; [lia | left; reflexivity |].
        intros p [H|[H|[]]]; discriminate H.
      * destruct (agentPost w (refundUrl tx)) as [e|] eqn:Po.
        -- cbn. repeat split; [lia | left; reflexivity |].
           intros p [H|[H|[H|[]]]]; discriminate H.
        -- destruct (save w (setRefunded payment)); cbn;
             (repeat split; [lia | left; reflexivity |]);
             intros p [H|[H|[H|[H|[]]]]]; try discriminate H;
             injection H as <-;
             (exists [EvFindById id; EvPaypalAgent;
                      EvPaypalPost (refundUrl tx)];
              repeat split; right; exists (refundUrl tx);
              split; [right; right; left; reflexivity
                     | split; first [assumption | reflexivity]]).
    + cbn. repeat split; [lia | left; reflexivity |].
      intros p [H|[]]; discriminate H.
Qed.

End RefundFacts.
